(** * PIO checker: snapshot, diff, report and orchestration

    A shallow embedding of [src/pio-checker.ts] (classes [PIOChecker] and
    [MultiAccountChecker]) together with the properties of its
    snapshot-diff-and-notify pipeline.

    JavaScript strings are sequences of UTF-16 code units; they are
    modelled as [list N].  The file system, the clock, the page scraper
    and the mail transport are collaborators of the program: their
    answers are inputs of the model, and so are the texts of the
    messages of the errors that the host and the engine raise. *)

From Stdlib Require Import ZArith NArith Lia String Ascii.
From stdpp Require Import gmap list sorting.

Local Open Scope N_scope.

(** ** JavaScript strings *)

Module JS.

(** A string value: its UTF-16 code units. *)
Definition jsstring := list N.

(** An ASCII literal of the source as a string value. *)
Definition js (s : string) : jsstring :=
  (fun a => N_of_ascii a) <$> list_ascii_of_string s.

(** The double quote character, U+0022. *)
Definition dq : jsstring := [34].

(** [Array.prototype.join]: the elements separated by [sep]. *)
Fixpoint join (sep : jsstring) (xs : list jsstring) : jsstring :=
  match xs with
  | [] => []
  | [x] => x
  | x :: rest => x ++ sep ++ join sep rest
  end.

(** [String.prototype.startsWith] and [endsWith]. *)
Fixpoint startsWith (s p : jsstring) {struct p} : bool :=
  match p, s with
  | [], _ => true
  | _ :: _, [] => false
  | a :: p', b :: s' => (a =? b) && startsWith s' p'
  end.

Definition endsWith (s p : jsstring) : bool :=
  startsWith (reverse s) (reverse p).

(** [String.prototype.includes]. *)
Fixpoint includes (s p : jsstring) : bool :=
  startsWith s p ||
  match s with
  | [] => false
  | _ :: s' => includes s' p
  end.

(** The order of the relational operators on strings, which is also the
    order of [Array.prototype.sort] without a comparator: code unit by
    code unit, a proper prefix first. *)
Fixpoint ltb (a b : jsstring) : bool :=
  match a, b with
  | _, [] => false
  | [], _ :: _ => true
  | x :: a', y :: b' => (x <? y) || ((x =? y) && ltb a' b')
  end.

Definition leb (a b : jsstring) : bool := negb (ltb b a).

(** [x || []] on a possibly missing array: [undefined] and [null] are
    falsy, every array (the empty one too) is truthy. *)
Definition orEmpty {A} (o : option (list A)) : list A :=
  match o with
  | Some l => l
  | None => []
  end.

End JS.

Import JS.

(** ** JSON.stringify on arrays of strings *)

Module JSON.

Definition is_lead (c : N) : bool := (55296 <=? c) && (c <=? 56319).
Definition is_trail (c : N) : bool := (56320 <=? c) && (c <=? 57343).

Definition hexdigit (n : N) : N := if n <? 10 then 48 + n else 87 + n.

(** [UnicodeEscape]: a backslash, [u] and four lowercase hexadecimal
    digits. *)
Definition unicode_escape (c : N) : jsstring :=
  [92; 117; hexdigit (c / 4096 mod 16); hexdigit (c / 256 mod 16);
   hexdigit (c / 16 mod 16); hexdigit (c mod 16)].

(** One code unit that is not half of a surrogate pair, as
    [QuoteJSONString] writes it. *)
Definition escape_unit (c : N) : jsstring :=
  if c =? 8 then [92; 98]
  else if c =? 9 then [92; 116]
  else if c =? 10 then [92; 110]
  else if c =? 12 then [92; 102]
  else if c =? 13 then [92; 114]
  else if c =? 34 then [92; 34]
  else if c =? 92 then [92; 92]
  else if (c <? 32) || is_lead c || is_trail c then unicode_escape c
  else [c].

(** The code points of the string in turn: a lead surrogate followed by
    a trail surrogate is one code point and is copied; every other code
    unit stands alone. *)
Fixpoint quote_body (s : jsstring) : jsstring :=
  match s with
  | [] => []
  | c :: rest =>
      if is_lead c then
        match rest with
        | d :: rest' =>
            if is_trail d then c :: d :: quote_body rest'
            else unicode_escape c ++ quote_body rest
        | [] => unicode_escape c
        end
      else escape_unit c ++ quote_body rest
  end.

(** [QuoteJSONString]. *)
Definition quote (s : jsstring) : jsstring :=
  dq ++ quote_body s ++ dq.

(** [SerializeJSONArray] without indentation. *)
Definition array (items : list jsstring) : jsstring :=
  js "[" ++ join (js ",") items ++ js "]".

(** [JSON.stringify] at the types [string[]], [string[][]] and
    [string[][][]]. *)
Definition stringify_strings (l : list jsstring) : jsstring :=
  array (quote <$> l).

Definition stringify_rows (t : list (list jsstring)) : jsstring :=
  array (stringify_strings <$> t).

Definition stringify_tables (ts : list (list (list jsstring))) : jsstring :=
  array (stringify_rows <$> ts).

End JSON.

(** ** JSON values *)

Module Value.

(** What [JSON.parse] can return.  A number is kept by the text that
    [String(x)] gives for it, and an object by its own properties in the
    order in which they are enumerated. *)
#[local] Unset Elimination Schemes.
Inductive json :=
| JNull
| JBool (b : bool)
| JNumber (text : jsstring)
| JString (s : jsstring)
| JArray (items : list json)
| JObject (properties : list (jsstring * json)).
#[local] Set Elimination Schemes.

(** [ToBoolean]: [null], [false], zero and the empty string are
    falsy. *)
Definition ToBoolean (v : json) : bool :=
  match v with
  | JNull => false
  | JBool b => b
  | JNumber text => negb (bool_decide (text = js "0"))
  | JString s => negb (bool_decide (s = []))
  | JArray _ | JObject _ => true
  end.

(** An own property of an object. *)
Definition own (key : jsstring) (properties : list (jsstring * json))
  : option json :=
  snd <$> List.find (fun p => bool_decide (p.1 = key)) properties.

(** [v.key] for a value [v] that is not [null] and a key that no
    string, number, boolean or array has and no prototype defines, as
    [mainText], [fields], [tables], [numbers], [timestamp] and [url];
    [None] is [undefined]. *)
Definition get (key : jsstring) (v : json) : option json :=
  match v with
  | JObject properties => own key properties
  | _ => None
  end.

(** [x.key] for a value [x] that may be [undefined]: the outer [None]
    is the [TypeError] of a property read on [undefined] or [null]. *)
Definition member (key : jsstring) (x : option json) : option (option json) :=
  match x with
  | None | Some JNull => None
  | Some v => Some (get key v)
  end.

(** [x || []]. *)
Definition orEmptyArray (x : option json) : json :=
  match x with
  | Some v => if ToBoolean v then v else JArray []
  | None => JArray []
  end.

(** [v.length === 0] for a truthy value. *)
Definition lengthIsZero (v : json) : bool :=
  match v with
  | JArray items => (length items =? 0)%nat
  | JString s => (length s =? 0)%nat
  | JObject properties =>
      match own (js "length") properties with
      | Some (JNumber text) => bool_decide (text = js "0")
      | _ => false
      end
  | _ => false
  end.

(** The elements that [v.forEach] and [v.join] go through: only an
    array has these methods; [None] is the [TypeError] of the call on
    any other value. *)
Definition elements (v : json) : option (list json) :=
  match v with
  | JArray items => Some items
  | _ => None
  end.

(** All the results, or [None] when one is [None]. *)
Fixpoint collect {A} (l : list (option A)) : option (list A) :=
  match l with
  | [] => Some []
  | Some x :: l' =>
      match collect l' with
      | Some xs => Some (x :: xs)
      | None => None
      end
  | None :: _ => None
  end.

(** [ToString]; [None] is the [TypeError] on an object whose own
    property [toString] hides the method of the prototype.  An array
    joins its elements with a comma, [null] giving the empty string. *)
Fixpoint ToString (v : json) : option jsstring :=
  match v with
  | JNull => Some (js "null")
  | JBool true => Some (js "true")
  | JBool false => Some (js "false")
  | JNumber text => Some text
  | JString s => Some s
  | JArray items =>
      join (js ",") <$>
        collect (List.map (fun x => match x with
                                    | JNull => Some []
                                    | _ => ToString x
                                    end) items)
  | JObject properties =>
      match own (js "toString") properties with
      | Some _ => None
      | None => Some (js "[object Object]")
      end
  end.

(** [v.join(sep)] on an array. *)
Definition joinElements (sep : jsstring) (items : list json) : option jsstring :=
  join sep <$>
    collect (List.map (fun x => match x with
                                | JNull => Some []
                                | _ => ToString x
                                end) items).

(** [JSON.stringify(v)]: a number that is not finite is written as
    [null]. *)
Fixpoint stringify (v : json) : jsstring :=
  match v with
  | JNull => js "null"
  | JBool true => js "true"
  | JBool false => js "false"
  | JNumber text =>
      if bool_decide (text = js "Infinity") || bool_decide (text = js "-Infinity")
      then js "null" else text
  | JString s => JSON.quote s
  | JArray items => JSON.array (List.map stringify items)
  | JObject properties =>
      js "{" ++
      join (js ",")
        (List.map (fun p : jsstring * json =>
                     JSON.quote p.1 ++ js ":" ++ stringify p.2) properties) ++
      js "}"
  end.

(** The values of the types [string[]], [string[][]] and
    [string[][][]]. *)
Definition ofStrings (l : list jsstring) : json := JArray (JString <$> l).
Definition ofRows (t : list (list jsstring)) : json := JArray (ofStrings <$> t).
Definition ofTables (ts : list (list (list jsstring))) : json :=
  JArray (ofRows <$> ts).

End Value.

(** ** The snapshot and the differ *)

Record TableData := {
  tables : option (list (list (list jsstring)));
  numbers : option (list jsstring)
}.

Record ScrapedData := {
  mainText : jsstring;
  fields : TableData;
  url : jsstring;
  timestamp : jsstring;
  elementText : jsstring
}.

Definition MAIN_CHANGED : jsstring := js "Main content has changed".
Definition TABLE_CHANGED : jsstring := js "Table data has changed".
Definition NUMBERS_CHANGED : jsstring := js "Numbers/dates have changed".

(** [changes.push(x)] when [c] holds. *)
Definition push_if (c : bool) (x : jsstring) (changes : list jsstring)
  : list jsstring :=
  if c then changes ++ [x] else changes.

(** [PIOChecker.compareData]. *)
Definition compareData (oldData newData : ScrapedData) : list jsstring :=
  let changes := [] in
  let changes :=
    push_if (bool_decide (mainText oldData ≠ mainText newData))
            MAIN_CHANGED changes in
  let oldTables := JSON.stringify_tables (orEmpty (tables (fields oldData))) in
  let newTables := JSON.stringify_tables (orEmpty (tables (fields newData))) in
  let changes :=
    push_if (bool_decide (oldTables ≠ newTables)) TABLE_CHANGED changes in
  let oldNumbers := JSON.stringify_strings (orEmpty (numbers (fields oldData))) in
  let newNumbers := JSON.stringify_strings (orEmpty (numbers (fields newData))) in
  let changes :=
    push_if (bool_decide (oldNumbers ≠ newNumbers)) NUMBERS_CHANGED changes in
  changes.

(** The test [changes.length === 0] of [run], negated. *)
Definition hasChanges (changes : list jsstring) : bool :=
  negb (length changes =? 0)%nat.

(** The value of a snapshot: what [JSON.parse] gives for the text that
    [JSON.stringify] writes for it.  A missing property is left out. *)
Definition toJson (d : ScrapedData) : Value.json :=
  Value.JObject
    [(js "mainText", Value.JString (mainText d));
     (js "fields",
      Value.JObject
        (match tables (fields d) with
         | Some ts => [(js "tables", Value.ofTables ts)]
         | None => []
         end ++
         match numbers (fields d) with
         | Some ns => [(js "numbers", Value.ofStrings ns)]
         | None => []
         end));
     (js "url", Value.JString (url d));
     (js "timestamp", Value.JString (timestamp d));
     (js "elementText", Value.JString (elementText d))].

(** The outcome of a call that may throw; [Throw] carries what
    [error instanceof Error ? error.message : String(error)] gives. *)
Inductive Result (A : Type) :=
| Return (a : A)
| Throw (message : jsstring).
Arguments Return {A} a.
Arguments Throw {A} message.

(** A [TypeError] of the engine, with its message, where [None] stands
    for it. *)
Definition orTypeError {A} (typeError : jsstring) (x : option A) : Result A :=
  match x with
  | Some a => Return a
  | None => Throw typeError
  end.

(** [PIOChecker.compareData] on whatever the previous file holds: the
    declared type of [oldData] is not checked when the file is read.
    [oldData] is not [null]; [typeError] is the message of the
    [TypeError] of a property read on [undefined] or [null]. *)
Definition compareDataAny (typeError : jsstring) (oldData : Value.json)
    (newData : ScrapedData) : Result (list jsstring) :=
  let changes := [] in
  let changes :=
    push_if (match Value.get (js "mainText") oldData with
             | Some (Value.JString s) => bool_decide (s ≠ mainText newData)
             | _ => true
             end)
            MAIN_CHANGED changes in
  match Value.member (js "fields") (Some oldData) with
  | None => Throw typeError
  | Some oldFields =>
      match Value.member (js "tables") oldFields with
      | None => Throw typeError
      | Some oldTablesValue =>
          let oldTables := Value.stringify (Value.orEmptyArray oldTablesValue) in
          let newTables :=
            JSON.stringify_tables (orEmpty (tables (fields newData))) in
          let changes :=
            push_if (bool_decide (oldTables ≠ newTables)) TABLE_CHANGED changes in
          match Value.member (js "numbers") oldFields with
          | None => Throw typeError
          | Some oldNumbersValue =>
              let oldNumbers :=
                Value.stringify (Value.orEmptyArray oldNumbersValue) in
              let newNumbers :=
                JSON.stringify_strings (orEmpty (numbers (fields newData))) in
              let changes :=
                push_if (bool_decide (oldNumbers ≠ newNumbers))
                        NUMBERS_CHANGED changes in
              Return changes
          end
      end
  end.

(** ** The regular expression of the numeric tokens *)

Module RegExp.

(** The pattern constructs that the source uses. *)
Inductive regex :=
| Class (p : N -> bool)   (* a character class or escape: one code unit *)
| Seq (r1 r2 : regex)     (* r1 r2 *)
| Star (r : regex)        (* greedy r* *)
| Opt (r : regex)         (* greedy r?, also (?:r)? *)
| Empty.

Definition Plus (r : regex) : regex := Seq r (Star r).

(** A matcher takes the rest of the input and a continuation; it answers
    the rest of the input after the whole match, or [None] when every
    alternative has failed (the backtracking semantics of the language
    standard). *)
Definition matcher := jsstring -> (jsstring -> option jsstring) -> option jsstring.

(** The greedy repeat matcher: one more iteration first, the
    continuation when that fails.  An iteration that consumes nothing is
    a failure. *)
Fixpoint repeat_matcher (m : matcher) (fuel : nat) : matcher :=
  fun s k =>
    match fuel with
    | O => k s
    | S fuel' =>
        match m s (fun s' =>
                     if (length s' <? length s)%nat
                     then repeat_matcher m fuel' s' k
                     else None) with
        | Some r => Some r
        | None => k s
        end
    end.

Fixpoint compile (r : regex) : matcher :=
  fun s k =>
    match r with
    | Empty => k s
    | Class p =>
        match s with
        | c :: s' => if p c then k s' else None
        | [] => None
        end
    | Seq r1 r2 => compile r1 s (fun s' => compile r2 s' k)
    | Star r1 => repeat_matcher (compile r1) (length s) s k
    | Opt r1 =>
        match compile r1 s k with
        | Some r => Some r
        | None => k s
        end
    end.

(** The first match at or after the start of [s]: the matched substring
    and the input after it. *)
Fixpoint exec (r : regex) (s : jsstring) : option (jsstring * jsstring) :=
  match compile r s Some with
  | Some rest => Some (take (length s - length rest)%nat s, rest)
  | None =>
      match s with
      | [] => None
      | _ :: s' => exec r s'
      end
  end.

(** Where the search goes on after a match: after the match, one code
    unit further when the match is empty, and nowhere when the empty
    match is at the end of the input. *)
Definition next_search (tok rest : jsstring) : option jsstring :=
  match tok, rest with
  | _ :: _, _ => Some rest
  | [], _ :: rest' => Some rest'
  | [], [] => None
  end.

(** The matches of a global pattern from left to right. *)
Fixpoint match_all_from (r : regex) (fuel : nat) (s : jsstring) : list jsstring :=
  match fuel with
  | O => []
  | S fuel' =>
      match exec r s with
      | None => []
      | Some (tok, rest) =>
          tok :: match next_search tok rest with
                 | Some s' => match_all_from r fuel' s'
                 | None => []
                 end
      end
  end.

(** [String.prototype.match] with a global pattern: the array of the
    matches, [null] when there is none. *)
Definition String_match (s : jsstring) (r : regex) : option (list jsstring) :=
  match match_all_from r (S (length s)) s with
  | [] => None
  | l => Some l
  end.

Definition digit (c : N) : bool := (48 <=? c) && (c <=? 57).
Definition dot (c : N) : bool := c =? 46.
Definition dot_or_digit (c : N) : bool := dot c || digit c.

(** [/\d+[\.\d]*(?:\.\d+\.\d+)?/g] *)
Definition numeric_pattern : regex :=
  Seq (Plus (Class digit))
      (Seq (Star (Class dot_or_digit))
           (Opt (Seq (Class dot)
                     (Seq (Plus (Class digit))
                          (Seq (Class dot) (Plus (Class digit))))))).

End RegExp.

(** ** The extraction step of the scraper *)

(** [WhiteSpace] and [LineTerminator] code points, which
    [String.prototype.trim] removes. *)
Definition isWhiteSpace (c : N) : bool :=
  (c =? 9) || (c =? 10) || (c =? 11) || (c =? 12) || (c =? 13) || (c =? 32)
  || (c =? 160) || (c =? 5760) || ((8192 <=? c) && (c <=? 8202))
  || (c =? 8232) || (c =? 8233) || (c =? 8239) || (c =? 8287)
  || (c =? 12288) || (c =? 65279).

Fixpoint trimStart (s : jsstring) : jsstring :=
  match s with
  | c :: s' => if isWhiteSpace c then trimStart s' else s
  | [] => []
  end.

Definition trim (s : jsstring) : jsstring :=
  reverse (trimStart (reverse (trimStart s))).

(** [mainText.match(/.../g) || []] *)
Definition extractNumbers (mainText : jsstring) : list jsstring :=
  orEmpty (RegExp.String_match mainText RegExp.numeric_pattern).

(** What the page gave to the extraction step of [scrapeData]: the inner
    text of the body, the tables, the address of the page, and the time
    of the capture as an ISO string. *)
Record PageContent := {
  innerText : jsstring;
  tableData : list (list (list jsstring));
  pageUrl : jsstring;
  isoTime : jsstring
}.

(** The snapshot that [scrapeData] builds from a page (step 5). *)
Definition buildScrapedData (elementText : jsstring) (p : PageContent)
  : ScrapedData :=
  let mainText := innerText p in
  let numbers := extractNumbers mainText in
  {| mainText := trim mainText;
     fields := {| tables := Some (tableData p); numbers := Some numbers |};
     url := pageUrl p;
     timestamp := isoTime p;
     elementText := elementText |}.

(** ** Numbers as strings *)

(** The decimal digits of [n], most significant first. *)
Fixpoint digits_from (fuel : nat) (n : N) (acc : jsstring) : jsstring :=
  match fuel with
  | O => acc
  | S fuel' =>
      let acc' := (48 + n mod 10) :: acc in
      if n / 10 =? 0 then acc' else digits_from fuel' (n / 10) acc'
  end.

Definition String_of_N (n : N) : jsstring :=
  digits_from (S (N.to_nat (N.log2 n))) n [].

(** [String(x)] for an integer [x]. *)
Definition String_of_Z (x : Z) : jsstring :=
  if (x <? 0)%Z then 45 :: String_of_N (Z.to_N (- x))
  else String_of_N (Z.to_N x).

(** [String.prototype.padStart]. *)
Definition padStart (s : jsstring) (maxLength : nat) (fillString : jsstring)
  : jsstring :=
  if (maxLength <=? length s)%nat then s
  else match fillString with
       | [] => s
       | _ :: _ =>
           let fillLen := (maxLength - length s)%nat in
           take fillLen (concat (replicate fillLen fillString)) ++ s
       end.

(** ** The clock: [Date] and its local-time getters *)

Module Date.

Local Open Scope Z_scope.

Definition msPerDay : Z := 86400000.
Definition msPerHour : Z := 3600000.
Definition msPerMinute : Z := 60000.
Definition msPerSecond : Z := 1000.

Definition Day (t : Z) : Z := t / msPerDay.

Definition DaysInYear (y : Z) : Z :=
  if negb (y mod 4 =? 0) then 365
  else if negb (y mod 100 =? 0) then 366
  else if negb (y mod 400 =? 0) then 365
  else 366.

Definition DayFromYear (y : Z) : Z :=
  365 * (y - 1970) + (y - 1969) / 4 - (y - 1901) / 100 + (y - 1601) / 400.

(** The largest year [y] whose first day is not after the day of [t].
    The quotient by the mean length of a year is at most one year off. *)
Definition YearFromTime (t : Z) : Z :=
  let d := Day t in
  let y0 := 1970 + 400 * d / 146097 in
  if DayFromYear (y0 + 1) <=? d then y0 + 1
  else if DayFromYear y0 <=? d then y0
  else y0 - 1.

Definition DayWithinYear (t : Z) : Z := Day t - DayFromYear (YearFromTime t).

Definition InLeapYear (t : Z) : Z :=
  if DaysInYear (YearFromTime t) =? 366 then 1 else 0.

Definition MonthFromTime (t : Z) : Z :=
  let d := DayWithinYear t in
  let leap := InLeapYear t in
  if d <? 31 then 0
  else if d <? 59 + leap then 1
  else if d <? 90 + leap then 2
  else if d <? 120 + leap then 3
  else if d <? 151 + leap then 4
  else if d <? 181 + leap then 5
  else if d <? 212 + leap then 6
  else if d <? 243 + leap then 7
  else if d <? 273 + leap then 8
  else if d <? 304 + leap then 9
  else if d <? 334 + leap then 10
  else 11.

Definition DateFromTime (t : Z) : Z :=
  let d := DayWithinYear t in
  let leap := InLeapYear t in
  let m := MonthFromTime t in
  if m =? 0 then d + 1
  else if m =? 1 then d - 30
  else if m =? 2 then d - 58 - leap
  else if m =? 3 then d - 89 - leap
  else if m =? 4 then d - 119 - leap
  else if m =? 5 then d - 150 - leap
  else if m =? 6 then d - 180 - leap
  else if m =? 7 then d - 211 - leap
  else if m =? 8 then d - 242 - leap
  else if m =? 9 then d - 272 - leap
  else if m =? 10 then d - 303 - leap
  else d - 333 - leap.

Definition HourFromTime (t : Z) : Z := (t / msPerHour) mod 24.
Definition MinFromTime (t : Z) : Z := (t / msPerMinute) mod 60.
Definition SecFromTime (t : Z) : Z := (t / msPerSecond) mod 60.

(** A [Date] object of a host: its time value (milliseconds since the
    epoch, UTC) and the offset of the host's time zone at each instant
    ([LocalTZA], which the language leaves to the host). *)
Record Date := {
  timeValue : Z;
  LocalTZA : Z -> Z
}.

Definition LocalTime (d : Date) : Z := timeValue d + LocalTZA d (timeValue d).

Definition getFullYear (d : Date) : Z := YearFromTime (LocalTime d).
Definition getMonth (d : Date) : Z := MonthFromTime (LocalTime d).
Definition getDate (d : Date) : Z := DateFromTime (LocalTime d).
Definition getHours (d : Date) : Z := HourFromTime (LocalTime d).
Definition getMinutes (d : Date) : Z := MinFromTime (LocalTime d).
Definition getSeconds (d : Date) : Z := SecFromTime (LocalTime d).

End Date.

(** ** The snapshot store *)

(** The text of a stored file: [Parsed v] is a text that [JSON.parse]
    reads as the value [v], whatever that value is; [Unparsable msg] is
    a text on which [JSON.parse] throws, with the message of the
    exception. *)
Inductive FileContent :=
| Parsed (v : Value.json)
| Unparsable (message : jsstring).

(** The text that [JSON.stringify(d, null, 2)] writes for a snapshot,
    which [JSON.parse] reads back as the value of the snapshot. *)
Definition JsonOf (d : ScrapedData) : FileContent := Parsed (toJson d).

(** The data directory of one account: file names and their contents. *)
Abbreviation Directory := (gmap jsstring FileContent).

Definition FILE_PREFIX : jsstring := js "szczegoly-wniosku_".
Definition FILE_SUFFIX : jsstring := js ".json".

(** The filter of [getLatestDataFile]. *)
Definition isDataFile (file : jsstring) : bool :=
  startsWith file FILE_PREFIX && endsWith file FILE_SUFFIX.

Global Instance jsstring_le_dec : RelDecision (fun a b : jsstring => leb a b = true).
Proof. intros a b. apply _. Defined.

(** [Array.prototype.sort] without a comparator. *)
Definition sort (l : list jsstring) : list jsstring :=
  merge_sort (fun a b : jsstring => leb a b = true) l.

(** [fs.readdirSync]: the names in the directory, in the order in which
    the file system lists them. *)
Definition readdirSync (dir : Directory) : list jsstring :=
  (map_to_list dir).*1.

(** [PIOChecker.getLatestDataFile] on the data directory of the account;
    [None] stands for [null], also when the directory does not exist. *)
Definition getLatestDataFile (dataDir : option Directory) : option jsstring :=
  match dataDir with
  | None => None
  | Some dir =>
      let files := reverse (sort (filter (fun f => isDataFile f = true)
                                         (readdirSync dir))) in
      head files
  end.

(** The time stamp in the file name, [YYYY-MM-DDTHH-MM-SS] in local
    time. *)
Definition saveTimestamp (now : Date.Date) : jsstring :=
  String_of_Z (Date.getFullYear now) ++ js "-" ++
  padStart (String_of_Z (Date.getMonth now + 1)) 2 (js "0") ++ js "-" ++
  padStart (String_of_Z (Date.getDate now)) 2 (js "0") ++ js "T" ++
  padStart (String_of_Z (Date.getHours now)) 2 (js "0") ++ js "-" ++
  padStart (String_of_Z (Date.getMinutes now)) 2 (js "0") ++ js "-" ++
  padStart (String_of_Z (Date.getSeconds now)) 2 (js "0").

Definition saveFilename (now : Date.Date) : jsstring :=
  FILE_PREFIX ++ saveTimestamp now ++ FILE_SUFFIX.

(** [fs.writeFileSync] into a directory that exists: it creates the
    file or replaces its content, and throws when the host reports an
    error. *)
Definition writeFileSync (hostError : option jsstring) (dir : Directory)
    (file : jsstring) (content : FileContent) : Result Directory :=
  match hostError with
  | Some message => Throw message
  | None => Return (<[file := content]> dir)
  end.

(** [PIOChecker.saveData] when the data directory exists: the
    directory after the write and the name of the file written.  The
    caller decides what happens when the directory is missing. *)
Definition saveData (now : Date.Date) (hostError : option jsstring)
    (dir : Directory) (data : ScrapedData)
  : Result (Directory * jsstring) :=
  let filename := saveFilename now in
  match writeFileSync hostError dir filename (JsonOf data) with
  | Throw message => Throw message
  | Return dir => Return (dir, filename)
  end.

(** ** The report builder *)

Definition nl : jsstring := [10].
Definition indent (n : nat) : jsstring := replicate n 32.

Definition NO_TABLE_DATA : jsstring := js "<p>No table data available</p>".

(** One cell of a row of [formatTablesForEmail]. *)
Definition formatCell (rowIndex : nat) (cell : jsstring) : jsstring :=
  let tag := if (rowIndex =? 0)%nat then js "th" else js "td" in
  js "<" ++ tag ++ js " style=" ++ dq ++
  js "padding: 5px; border: 1px solid #ccc;" ++ dq ++ js ">" ++
  cell ++ js "</" ++ tag ++ js ">".

Definition formatRow (rowIndex : nat) (row : list jsstring) : jsstring :=
  js "<tr>" ++ concat (formatCell rowIndex <$> row) ++ js "</tr>".

Definition formatTable (index : nat) (table : list (list jsstring)) : jsstring :=
  js "<h5>Table " ++ String_of_N (N.of_nat (index + 1)) ++ js ":</h5>" ++
  js "<table border=" ++ dq ++ js "1" ++ dq ++ js " style=" ++ dq ++
  js "border-collapse: collapse; margin-bottom: 10px;" ++ dq ++ js ">" ++
  concat (imap formatRow table) ++
  js "</table>".

(** [PIOChecker.formatTablesForEmail]; [None] is a missing argument. *)
Definition formatTablesForEmail (tables : option (list (list (list jsstring))))
  : jsstring :=
  match tables with
  | None => NO_TABLE_DATA
  | Some tables =>
      if (length tables =? 0)%nat then NO_TABLE_DATA
      else concat (imap formatTable tables)
  end.

(** The identity of a checker, as its constructor sets it, and whether
    it has a mail transporter. *)
Record PIOChecker := {
  accountId : jsstring;
  login : jsstring;
  password : jsstring;
  checkerElementText : jsstring;
  gmailUser : option jsstring;
  hasTransporter : bool
}.

(** [Array.prototype.includes] on an array of strings. *)
Definition array_includes (l : list jsstring) (x : jsstring) : bool :=
  bool_decide (x ∈ l).

(** The two optional sections of the detailed report. *)
Definition tableSection (previousData currentData : ScrapedData) : jsstring :=
  js "<h3>Table Changes:</h3>" ++
  js "<h4>Previous Data:</h4>" ++
  formatTablesForEmail (Some (orEmpty (tables (fields previousData)))) ++
  js "<h4>Current Data:</h4>" ++
  formatTablesForEmail (Some (orEmpty (tables (fields currentData)))).

Definition numberSection (previousData currentData : ScrapedData) : jsstring :=
  js "<h3>Number/Date Changes:</h3>" ++
  js "<p><strong>Previous:</strong> " ++
  join (js ", ") (orEmpty (numbers (fields previousData))) ++ js "</p>" ++
  js "<p><strong>Current:</strong> " ++
  join (js ", ") (orEmpty (numbers (fields currentData))) ++ js "</p>".

(** [PIOChecker.createDetailedEmailContent]; [localeNow] is
    [new Date().toLocaleString()]. *)
Definition createDetailedEmailContent (c : PIOChecker) (localeNow : jsstring)
    (changes : list jsstring) (previousData currentData : ScrapedData)
  : jsstring :=
  let html :=
    nl ++ indent 12 ++ js "<h2>PIO Application Status Update</h2>" ++
    nl ++ indent 12 ++ js "<p><strong>Account:</strong> " ++ accountId c ++ js "</p>" ++
    nl ++ indent 12 ++ js "<p><strong>Time:</strong> " ++ localeNow ++ js "</p>" ++
    nl ++ indent 12 ++ js "<p><strong>Application Number:</strong> " ++
      checkerElementText c ++ js "</p>" ++
    nl ++ indent 12 ++ js "<p><strong>Changes Detected:</strong></p>" ++
    nl ++ indent 12 ++ js "<ul>" ++
    nl ++ indent 8 in
  let html := html ++ concat ((fun change => js "<li>" ++ change ++ js "</li>") <$> changes) in
  let html := html ++ js "</ul>" in
  let html :=
    if array_includes changes TABLE_CHANGED
    then html ++ tableSection previousData currentData
    else html in
  let html :=
    if array_includes changes NUMBERS_CHANGED
    then html ++ numberSection previousData currentData
    else html in
  html ++
    nl ++ indent 12 ++ js "<hr>" ++
    nl ++ indent 12 ++ js "<p><strong>Application URL:</strong> <a href=" ++ dq ++
      url currentData ++ dq ++ js ">" ++ url currentData ++ js "</a></p>" ++
    nl ++ indent 12 ++
      js "<p><em>This is an automated notification from PIO Checker for account " ++
      accountId c ++ js ".</em></p>" ++
    nl ++ indent 8.

(** The report before its list of changes and after its optional
    sections. *)
Definition reportHead (c : PIOChecker) (localeNow : jsstring) : jsstring :=
  nl ++ indent 12 ++ js "<h2>PIO Application Status Update</h2>" ++
  nl ++ indent 12 ++ js "<p><strong>Account:</strong> " ++ accountId c ++ js "</p>" ++
  nl ++ indent 12 ++ js "<p><strong>Time:</strong> " ++ localeNow ++ js "</p>" ++
  nl ++ indent 12 ++ js "<p><strong>Application Number:</strong> " ++
    checkerElementText c ++ js "</p>" ++
  nl ++ indent 12 ++ js "<p><strong>Changes Detected:</strong></p>" ++
  nl ++ indent 12 ++ js "<ul>" ++
  nl ++ indent 8.

Definition reportFoot (c : PIOChecker) (pageUrl : jsstring) : jsstring :=
  nl ++ indent 12 ++ js "<hr>" ++
  nl ++ indent 12 ++ js "<p><strong>Application URL:</strong> <a href=" ++ dq ++
    pageUrl ++ dq ++ js ">" ++ pageUrl ++ js "</a></p>" ++
  nl ++ indent 12 ++
    js "<p><em>This is an automated notification from PIO Checker for account " ++
    accountId c ++ js ".</em></p>" ++
  nl ++ indent 8.

(** The loops of [formatTablesForEmail] on a value that need not be an
    array of arrays of arrays of strings: the cells of a row, the rows
    of a table and the tables, each cell as the template literal writes
    it.  [None] is the [TypeError] of [forEach] on a value that is no
    array, or of a cell that has no string. *)
Definition cellsOf (row : Value.json) : option (list jsstring) :=
  items ← Value.elements row; Value.collect (Value.ToString <$> items).

Definition rowsOf (table : Value.json) : option (list (list jsstring)) :=
  items ← Value.elements table; Value.collect (cellsOf <$> items).

Definition tablesOf (tables : Value.json)
  : option (list (list (list jsstring))) :=
  items ← Value.elements tables; Value.collect (rowsOf <$> items).

(** [PIOChecker.formatTablesForEmail] on any value. *)
Definition formatTablesAny (tables : Value.json) : option jsstring :=
  if negb (Value.ToBoolean tables) || Value.lengthIsZero tables
  then Some NO_TABLE_DATA
  else (fun tables => concat (imap formatTable tables)) <$> tablesOf tables.

(** The two optional sections when the previous data is any value that
    is not [null]. *)
Definition tableSectionAny (previousData : Value.json) (currentData : ScrapedData)
  : option jsstring :=
  previousFields ← Value.member (js "fields") (Some previousData);
  previousTables ← Value.member (js "tables") previousFields;
  previous ← formatTablesAny (Value.orEmptyArray previousTables);
  Some (js "<h3>Table Changes:</h3>" ++
        js "<h4>Previous Data:</h4>" ++
        previous ++
        js "<h4>Current Data:</h4>" ++
        formatTablesForEmail (Some (orEmpty (tables (fields currentData))))).

Definition numberSectionAny (previousData : Value.json) (currentData : ScrapedData)
  : option jsstring :=
  previousFields ← Value.member (js "fields") (Some previousData);
  previousNumbers ← Value.member (js "numbers") previousFields;
  items ← Value.elements (Value.orEmptyArray previousNumbers);
  previous ← Value.joinElements (js ", ") items;
  Some (js "<h3>Number/Date Changes:</h3>" ++
        js "<p><strong>Previous:</strong> " ++
        previous ++ js "</p>" ++
        js "<p><strong>Current:</strong> " ++
        join (js ", ") (orEmpty (numbers (fields currentData))) ++ js "</p>").

(** [PIOChecker.createDetailedEmailContent] on whatever the previous
    file holds; [None] is a [TypeError]. *)
Definition createDetailedEmailContentAny (c : PIOChecker) (localeNow : jsstring)
    (changes : list jsstring) (previousData : Value.json)
    (currentData : ScrapedData) : option jsstring :=
  let html := reportHead c localeNow in
  let html := html ++ concat ((fun change => js "<li>" ++ change ++ js "</li>") <$> changes) in
  let html := html ++ js "</ul>" in
  html ←
    (if array_includes changes TABLE_CHANGED
     then (fun section => html ++ section) <$> tableSectionAny previousData currentData
     else Some html);
  html ←
    (if array_includes changes NUMBERS_CHANGED
     then (fun section => html ++ section) <$> numberSectionAny previousData currentData
     else Some html);
  Some (html ++ reportFoot c (url currentData)).

(** ** Notifications and the world of a run *)

Record Notification := {
  title : jsstring;
  message : jsstring
}.

Record Email := {
  subject : jsstring;
  html : jsstring
}.

(** What a run can change: the data directories by account, the
    desktop notifications shown and the mails handed to the transport,
    both oldest first. *)
Record World := {
  dataDirs : gmap jsstring (gmap jsstring FileContent);
  notifications : list Notification;
  emails : list Email
}.

(** What the collaborators answer during one run: each attempt of the
    scraper (a failure message or the page), the clock at [saveData],
    the errors of the host on reading the directory and on writing the
    file, the mail credentials of the process environment, the local
    date string used in reports, the message of the host for a file of
    the data directory that does not exist, by the name of the file,
    and the message of the [TypeError] that the engine raises in the
    run, if it raises one. *)
Record RunEnv := {
  attemptPage : nat -> jsstring + PageContent;
  now : Date.Date;
  readError : option jsstring;
  writeError : option jsstring;
  envMail : option jsstring;
  envPass : option jsstring;
  localeNow : jsstring;
  enoent : jsstring -> jsstring;
  typeError : jsstring
}.

(** [PIOChecker.sendNotification]. *)
Definition sendNotification (c : PIOChecker) (title message : jsstring)
    (w : World) : World :=
  {| dataDirs := dataDirs w;
     notifications :=
       notifications w ++
       [{| title := title ++ js " - " ++ accountId c; message := message |}];
     emails := emails w |}.

(** [PIOChecker.sendEmail].  The content is built before the [try]
    around the transport, so a [TypeError] of the detailed report is
    thrown to the caller and no mail is handed over; a failure of the
    transport is caught and logged, and the mail handed over is recorded
    either way. *)
Definition sendEmail (c : PIOChecker) (env : RunEnv) (subject message : jsstring)
    (changes : option (list jsstring)) (previousData : option Value.json)
    (currentData : option ScrapedData) (w : World) : Result World :=
  if negb (hasTransporter c) then Return w
  else
    let emailContent :=
      match changes, previousData, currentData with
      | Some ch, Some prev, Some cur =>
          if (0 <? length ch)%nat && Value.ToBoolean prev
          then orTypeError (typeError env)
                 (createDetailedEmailContentAny c (localeNow env) ch prev cur)
          else Return message
      | _, _, _ => Return message
      end in
    match emailContent with
    | Throw errorMessage => Throw errorMessage
    | Return emailContent =>
        Return {| dataDirs := dataDirs w;
                  notifications := notifications w;
                  emails :=
                    emails w ++
                    [{| subject := subject ++ js " - Account: " ++ accountId c;
                        html := emailContent |}] |}
    end.

(** ** The scraper's retry loop *)

Definition retries : nat := 3.

(** The [for] loop of [scrapeData] from attempt number [attempt], with
    [remaining] iterations left; the last statement of the function
    follows the loop. *)
Fixpoint scrapeAttempts (c : PIOChecker) (env : RunEnv) (remaining attempt : nat)
  : Result ScrapedData :=
  match remaining with
  | O => Throw (js "Failed to scrape data after all retries")
  | S remaining' =>
      match attemptPage env attempt with
      | inr page => Return (buildScrapedData (checkerElementText c) page)
      | inl errorMessage =>
          if (attempt =? retries)%nat
          then Throw (js "Failed to scrape data after " ++
                      String_of_N (N.of_nat retries) ++ js " attempts: " ++
                      errorMessage)
          else scrapeAttempts c env remaining' (S attempt)
      end
  end.

(** [PIOChecker.scrapeData]. *)
Definition scrapeData (c : PIOChecker) (env : RunEnv) : Result ScrapedData :=
  scrapeAttempts c env retries 1.

(** ** The orchestrator of one record *)

(** [JSON.parse(fs.readFileSync(latestFile, 'utf8'))]: the value of
    the file, whether or not it is the value of a snapshot.  [enoent]
    gives the message of the host for a file that does not exist. *)
Definition readSnapshot (enoent : jsstring -> jsstring) (dir : Directory)
    (file : jsstring) : Result Value.json :=
  match dir !! file with
  | Some (Parsed v) => Return v
  | Some (Unparsable message) => Throw message
  | None => Throw (enoent file)
  end.

(** The first statements of the [try] block of [run]: the previous
    snapshot, if there is one. *)
Definition readPrevious (env : RunEnv) (dataDir : option Directory)
  : Result (option Value.json) :=
  match dataDir, readError env with
  | Some _, Some message => Throw message
  | _, _ =>
      match getLatestDataFile dataDir, dataDir with
      | Some latestFile, Some dir =>
          match readSnapshot (enoent env) dir latestFile with
          | Return v => Return (Some v)
          | Throw message => Throw message
          end
      | _, _ => Return None
      end
  end.

Definition setDataDir (c : PIOChecker) (dir : Directory) (w : World) : World :=
  {| dataDirs := <[accountId c := dir]> (dataDirs w);
     notifications := notifications w;
     emails := emails w |}.

(** [this.saveData(currentData)] in [run]: the host throws when the
    data directory does not exist. *)
Definition saveCurrent (env : RunEnv) (dataDir : option Directory)
    (currentData : ScrapedData) : Result (Directory * jsstring) :=
  match dataDir with
  | None => Throw (enoent env (saveFilename (now env)))
  | Some dir => saveData (now env) (writeError env) dir currentData
  end.

(** The statements of the [try] block of [run] after [saveData], when
    there is previous data: the comparison, the notification and the
    mail.  Each of them can end the block with a [TypeError] when the
    previous file does not hold a snapshot; what was shown before stays
    shown. *)
Definition compareAndNotify (c : PIOChecker) (env : RunEnv)
    (previousData : Value.json) (currentData : ScrapedData) (w : World)
  : World * Result unit :=
  match compareDataAny (typeError env) previousData currentData with
  | Throw message => (w, Throw message)
  | Return changes =>
      if (length changes =? 0)%nat then
        (sendNotification c (js "PIO Checker - No Changes")
           (js "Your application status remains unchanged.") w,
         Return tt)
      else
        let w :=
          sendNotification c (js "PIO Checker - Changes Detected!")
            (js "Changes found: " ++ join (js ", ") changes) w in
        match sendEmail c env (js "PIO Checker - Changes Detected!")
                (js "Changes have been detected in your application status.")
                (Some changes) (Some previousData) (Some currentData) w with
        | Throw message => (w, Throw message)
        | Return w => (w, Return tt)
        end
  end.

(** The [try] block of [run]: the world when it ends, and how it ends. *)
Definition runTry (c : PIOChecker) (env : RunEnv) (w : World)
  : World * Result unit :=
  let dataDir := dataDirs w !! accountId c in
  match readPrevious env dataDir with
  | Throw message => (w, Throw message)
  | Return previousData =>
      match scrapeData c env with
      | Throw message => (w, Throw message)
      | Return currentData =>
          match saveCurrent env dataDir currentData with
          | Throw message => (w, Throw message)
          | Return (dir, _) =>
              let w := setDataDir c dir w in
              let firstRun :=
                (sendNotification c (js "PIO Checker - First Run")
                   (js "Baseline data has been saved. Future runs will detect changes.")
                   w,
                 Return tt) in
              match previousData with
              | Some previousData =>
                  if Value.ToBoolean previousData
                  then compareAndNotify c env previousData currentData w
                  else firstRun
              | None => firstRun
              end
          end
      end
  end.

(** The body of the error mail. *)
Definition errorReport (c : PIOChecker) (env : RunEnv) (errorMessage : jsstring)
  : jsstring :=
  js "<h2>PIO Checker - Error Report</h2>" ++
  nl ++ indent 17 ++ js "<p><strong>Account:</strong> " ++ accountId c ++ js "</p>" ++
  nl ++ indent 17 ++ js "<p><strong>Time:</strong> " ++ localeNow env ++ js "</p>" ++
  nl ++ indent 17 ++ js "<p><strong>Error:</strong> " ++ errorMessage ++ js "</p>" ++
  nl ++ indent 17 ++
    js "<p>The PIO checker encountered an error while trying to check your application status.</p>" ++
  nl ++ indent 17 ++
    js "<p>Please check the application manually or review the system logs.</p>" ++
  nl ++ indent 17 ++
    js "<p><em>This is an automated notification from PIO Checker.</em></p>".

(** [PIOChecker.run]: the [try] block, and the [catch] block when it
    threw.  Nothing is thrown beyond [run]: the mail of the [catch]
    block has a message and no changes, and [sendEmail] throws only
    while it builds the detailed report of changes. *)
Definition run (c : PIOChecker) (env : RunEnv) (w : World) : World :=
  match runTry c env w with
  | (w', Return _) => w'
  | (w', Throw errorMessage) =>
      let w' :=
        sendNotification c (js "PIO Checker - Error")
          (js "An error occurred: " ++ errorMessage) w' in
      match sendEmail c env (js "PIO Checker - Error Occurred")
              (errorReport c env errorMessage) None None None w' with
      | Return w'' => w''
      | Throw _ => w'
      end
  end.

(** ** The orchestrator of all records *)

Record AccountConfig := {
  cfg_login : jsstring;
  cfg_password : jsstring;
  cfg_elementText : jsstring;
  cfg_headless : bool
}.

(** A string in a condition: the empty string is falsy. *)
Definition truthy (s : jsstring) : bool :=
  match s with
  | [] => false
  | _ :: _ => true
  end.

Definition truthy_opt (o : option jsstring) : bool :=
  match o with
  | Some s => truthy s
  | None => false
  end.

(** The constructor of [PIOChecker]: it creates the data directory when
    there is none, then validates the configuration. *)
Definition newPIOChecker (accountConfig : AccountConfig) (env : RunEnv) (w : World)
  : World * Result PIOChecker :=
  let accountId := cfg_login accountConfig in
  let w :=
    match dataDirs w !! accountId with
    | Some _ => w
    | None =>
        {| dataDirs := <[accountId := ∅]> (dataDirs w);
           notifications := notifications w;
           emails := emails w |}
    end in
  if negb (truthy (cfg_login accountConfig))
     || negb (truthy (cfg_password accountConfig))
     || negb (truthy (cfg_elementText accountConfig))
  then (w, Throw (js "Missing required configuration for account " ++ accountId ++
                  js ": login, password, or elementText"))
  else (w, Return {| accountId := accountId;
                     login := cfg_login accountConfig;
                     password := cfg_password accountConfig;
                     checkerElementText := cfg_elementText accountConfig;
                     gmailUser := envMail env;
                     hasTransporter :=
                       truthy_opt (envMail env) && truthy_opt (envPass env) |}).

Record CheckResult := {
  resultAccountId : jsstring;
  status : jsstring;
  error : option jsstring
}.

(** The [for] loop of [runAll]; [envs i] is what the collaborators
    answer during the [i]-th iteration. *)
Fixpoint runAllFrom (accounts : list AccountConfig) (envs : nat -> RunEnv)
    (i : nat) (w : World) (results : list CheckResult)
  : World * list CheckResult :=
  match accounts with
  | [] => (w, results)
  | accountConfig :: rest =>
      match newPIOChecker accountConfig (envs i) w with
      | (w, Return checker) =>
          let w := run checker (envs i) w in
          runAllFrom rest envs (S i) w
            (results ++ [{| resultAccountId := cfg_login accountConfig;
                            status := js "success";
                            error := None |}])
      | (w, Throw errorMessage) =>
          runAllFrom rest envs (S i) w
            (results ++ [{| resultAccountId := cfg_login accountConfig;
                            status := js "error";
                            error := Some errorMessage |}])
      end
  end.

(** [MultiAccountChecker.runAll]. *)
Definition runAll (accounts : list AccountConfig) (envs : nat -> RunEnv)
    (w : World) : World * list CheckResult :=
  runAllFrom accounts envs 0 w [].


(** What [accounts.json] holds: no such file, a text that [JSON.parse]
    rejects with a message, a JSON value that is not an array, or an
    array of account configurations. *)
Inductive AccountsFile :=
| AccountsMissing
| AccountsUnparsable (message : jsstring)
| AccountsNotArray
| AccountsArray (accounts : list AccountConfig).

Definition withHeadless (headless : bool) (acc : AccountConfig) : AccountConfig :=
  {| cfg_login := cfg_login acc;
     cfg_password := cfg_password acc;
     cfg_elementText := cfg_elementText acc;
     cfg_headless := headless |}.

(** [MultiAccountChecker.loadAccountsConfig], with the [headless] of the
    constructor. *)
Definition loadAccountsConfig (headless : bool) (file : AccountsFile)
  : Result (list AccountConfig) :=
  match file with
  | AccountsMissing =>
      Throw (js "accounts.json file not found. Please create it with your account configurations.")
  | AccountsUnparsable message => Throw message
  | AccountsNotArray =>
      Throw (js "accounts.json must contain an array of account configurations.")
  | AccountsArray accounts =>
      if (length accounts =? 0)%nat
      then Throw (js "accounts.json must contain an array of account configurations.")
      else Return (withHeadless headless <$> accounts)
  end.

(** ** The tables of the page *)

(** The rows of one [table] element: the text of the cells of each [tr],
    trimmed, with the rows that have no cell left out. *)
Definition extractRows (table : list (list jsstring)) : list (list jsstring) :=
  foldl (fun rows row =>
           let cells := foldl (fun cells cell => cells ++ [trim cell]) [] row in
           if (0 <? length cells)%nat then rows ++ [cells] else rows)
        [] table.

(** The callback of [page.evaluate] that extracts the tables.  The
    document is given by what the selectors find: for each [table], for
    each [tr] in it, the inner text of each [td] or [th] in the row. *)
Definition extractTables (document : list (list (list jsstring)))
  : list (list (list jsstring)) :=
  foldl (fun tableResults table =>
           let rows := extractRows table in
           if (0 <? length rows)%nat then tableResults ++ [rows] else tableResults)
        [] document.

(** ** The earlier checker: names from [toISOString] *)

Module Legacy.

Import Date.

Definition msFromTime (t : Z) : Z := (t mod msPerSecond)%Z.

(** [Date.prototype.toISOString]: the fields of the time value itself,
    the year with four digits from 0 to 9999 and with a sign and six
    digits otherwise. *)
Definition toISOString (d : Date) : jsstring :=
  let t := timeValue d in
  let y := YearFromTime t in
  (if (0 <=? y)%Z && (y <=? 9999)%Z then padStart (String_of_Z y) 4 (js "0")
   else (if (y <? 0)%Z then js "-" else js "+") ++
        padStart (String_of_Z (Z.abs y)) 6 (js "0")) ++ js "-" ++
  padStart (String_of_Z (MonthFromTime t + 1)) 2 (js "0") ++ js "-" ++
  padStart (String_of_Z (DateFromTime t)) 2 (js "0") ++ js "T" ++
  padStart (String_of_Z (HourFromTime t)) 2 (js "0") ++ js ":" ++
  padStart (String_of_Z (MinFromTime t)) 2 (js "0") ++ js ":" ++
  padStart (String_of_Z (SecFromTime t)) 2 (js "0") ++ js "." ++
  padStart (String_of_Z (msFromTime t)) 3 (js "0") ++ js "Z".

(** [s.replace(/[:.]/g, '-')]: every colon and every dot becomes a
    hyphen. *)
Definition replaceColonsAndDots (s : jsstring) : jsstring :=
  (fun c : N => if (c =? 58) || (c =? 46) then 45 else c) <$> s.

Definition saveFilename (now : Date) : jsstring :=
  FILE_PREFIX ++ replaceColonsAndDots (toISOString now) ++ FILE_SUFFIX.

(** [saveData] of the earlier checker, when the data directory
    exists. *)
Definition saveData (now : Date) (hostError : option jsstring)
    (dir : Directory) (data : ScrapedData)
  : Result (Directory * jsstring) :=
  let filename := saveFilename now in
  match writeFileSync hostError dir filename (JsonOf data) with
  | Throw message => Throw message
  | Return dir => Return (dir, filename)
  end.

End Legacy.

(** ** The scheduler of the desktop application *)

Module Scheduler.

Record DaySchedule := {
  enabled : bool;
  time : jsstring
}.

(** The settings file as an object.  A property that the interface
    marks as optional is [None] when it is missing; the interval is a
    whole number of minutes. *)
Record Settings := {
  scheduleEnabled : bool;
  scheduleType : option jsstring;
  scheduleInterval : Z;
  scheduleDays : option (gmap jsstring DaySchedule);
  lastCheck : option jsstring;
  headlessMode : option bool
}.

(** What a task was scheduled for.  The cron expression of a task is
    [*/n * * * *] for an interval of [n] minutes, and
    [minutes hours * * dayOfWeek] for a day, with the hours and minutes
    read from the time of the day's entry. *)
Inductive CronSpec :=
| EveryMinutes (intervalMinutes : Z)
| WeeklyAt (dayOfWeek : option Z) (time : jsstring).

(** A task of the cron library. *)
Record ScheduledTask := {
  spec : CronSpec;
  running : bool
}.

(** The tasks created so far, oldest first, and the module variable
    [cronJob]: the position of the task it refers to, or [None] for
    [null]. *)
Record State := {
  tasks : list ScheduledTask;
  cronJob : option nat
}.

(** [task.stop()] on the task at position [i]. *)
Definition stop (i : nat) (ts : list ScheduledTask) : list ScheduledTask :=
  alter (fun task => {| spec := spec task; running := false |}) i ts.

(** [cron.schedule(...)] followed by [start()].  The library validates
    the cron expression and throws when it is not valid, as for an hour
    of 24 or a time without minutes; [rejects s] is the message of that
    error for the expression of [s], and [None] when the expression is
    valid.  Otherwise there is a new running task, at the position
    returned. *)
Definition schedule (rejects : CronSpec -> option jsstring) (s : CronSpec)
    (ts : list ScheduledTask) : Result (list ScheduledTask * nat) :=
  match rejects s with
  | Some message => Throw message
  | None => Return (ts ++ [{| spec := s; running := true |}], length ts)
  end.

Definition days : list jsstring :=
  [js "sunday"; js "monday"; js "tuesday"; js "wednesday"; js "thursday";
   js "friday"; js "saturday"].

Definition dayToCron : list (jsstring * Z) :=
  [(js "sunday", 0%Z); (js "monday", 1%Z); (js "tuesday", 2%Z);
   (js "wednesday", 3%Z); (js "thursday", 4%Z); (js "friday", 5%Z);
   (js "saturday", 6%Z)].

(** [dayToCron[day]]. *)
Definition dayToCron_get (day : jsstring) : option Z :=
  snd <$> List.find (fun entry => bool_decide (entry.1 = day)) dayToCron.

(** The filter of the enabled days. *)
Definition isEnabled (scheduleDays : gmap jsstring DaySchedule) (day : jsstring)
  : bool :=
  match scheduleDays !! day with
  | Some dayConfig => enabled dayConfig
  | None => false
  end.

(** [enabledDays.forEach] from the given day on: the tasks after the
    loop, and the array [cronJobs] or the error that ended the loop.
    The tasks started before the error stay started. *)
Fixpoint scheduleEach (rejects : CronSpec -> option jsstring)
    (scheduleDays : gmap jsstring DaySchedule) (enabledDays : list jsstring)
    (ts : list ScheduledTask) (cronJobs : list nat)
  : list ScheduledTask * Result (list nat) :=
  match enabledDays with
  | [] => (ts, Return cronJobs)
  | day :: enabledDays' =>
      match scheduleDays !! day with
      | None => scheduleEach rejects scheduleDays enabledDays' ts cronJobs
      | Some dayConfig =>
          match schedule rejects (WeeklyAt (dayToCron_get day) (time dayConfig)) ts with
          | Throw message => (ts, Throw message)
          | Return (ts, job) =>
              scheduleEach rejects scheduleDays enabledDays' ts (cronJobs ++ [job])
          end
      end
  end.

(** [setupScheduler]: the state after the call, and whether it
    returned or threw.  Nothing in it catches the error of
    [cron.schedule], so the assignment to [cronJob] that would follow is
    not made. *)
Definition setupScheduler (rejects : CronSpec -> option jsstring)
    (settings : Settings) (st : State) : State * Result unit :=
  let st :=
    match cronJob st with
    | Some job => {| tasks := stop job (tasks st); cronJob := None |}
    | None => st
    end in
  if negb (scheduleEnabled settings) then (st, Return tt)
  else if bool_decide (scheduleType settings = Some (js "interval")) then
    let intervalMinutes := scheduleInterval settings in
    if (0 <? intervalMinutes)%Z then
      match schedule rejects (EveryMinutes intervalMinutes) (tasks st) with
      | Throw message => (st, Throw message)
      | Return (ts, job) => ({| tasks := ts; cronJob := Some job |}, Return tt)
      end
    else (st, Return tt)
  else
    match bool_decide (scheduleType settings = Some (js "days")),
          scheduleDays settings with
    | true, Some scheduleDays =>
        let enabledDays := List.filter (isEnabled scheduleDays) days in
        if (length enabledDays =? 0)%nat then (st, Return tt)
        else
          match scheduleEach rejects scheduleDays enabledDays (tasks st) [] with
          | (ts, Throw message) =>
              ({| tasks := ts; cronJob := cronJob st |}, Throw message)
          | (ts, Return cronJobs) =>
              ({| tasks := ts; cronJob := head cronJobs |}, Return tt)
          end
    | _, _ => (st, Return tt)
    end.

End Scheduler.

(** ** The desktop application: settings, checks and logs *)

Module Desktop.

Import Scheduler.

(** What [settings.json] holds: no such file, a text that cannot be
    read or parsed, or the object that [saveSettings] writes. *)
Inductive SettingsFile :=
| SettingsMissing
| SettingsUnreadable
| SettingsObject (settings : Settings).

(** [loadSettings]: the object of the file with the defaults of its
    missing properties, and the default settings when there is no file
    or reading it throws. *)
Definition loadSettings (file : SettingsFile) : Settings :=
  match file with
  | SettingsObject settings =>
      {| scheduleEnabled := scheduleEnabled settings;
         scheduleType :=
           if truthy_opt (scheduleType settings) then scheduleType settings
           else Some (js "days");
         scheduleInterval := scheduleInterval settings;
         scheduleDays :=
           match scheduleDays settings with
           | Some scheduleDays => Some scheduleDays
           | None => Some ∅
           end;
         lastCheck := lastCheck settings;
         headlessMode :=
           match headlessMode settings with
           | Some headless => Some headless
           | None => Some true
           end |}
  | SettingsMissing | SettingsUnreadable =>
      {| scheduleEnabled := false;
         scheduleType := Some (js "days");
         scheduleInterval := 30;
         scheduleDays := Some ∅;
         lastCheck := None;
         headlessMode := Some true |}
  end.

(** [saveSettings]: a failure of the write is caught and logged. *)
Definition saveSettings (writeFails : bool) (settings : Settings)
    (file : SettingsFile) : SettingsFile :=
  if writeFails then file else SettingsObject settings.

(** A message on the channel [check-status], without its time stamp. *)
Record CheckStatus := {
  statusName : jsstring;
  statusMessage : jsstring;
  statusResults : option (list CheckResult)
}.

(** The main process: the flag [isChecking], whether there is a main
    window, the settings file, the messages sent to the window, oldest
    first, and the world of the checks. *)
Record App := {
  isChecking : bool;
  mainWindow : bool;
  settingsFile : SettingsFile;
  sent : list CheckStatus;
  world : World
}.

(** [mainWindow?.webContents.send('check-status', ...)]. *)
Definition send (status : CheckStatus) (app : App) : App :=
  {| isChecking := isChecking app;
     mainWindow := mainWindow app;
     settingsFile := settingsFile app;
     sent := if mainWindow app then sent app ++ [status] else sent app;
     world := world app |}.

(** [runCheck], with what [accounts.json] holds during the call, the
    clock at its start, whether the write of the settings fails, and
    the collaborators of the checks. *)
Definition runCheck (accountsFile : AccountsFile) (now : Date.Date)
    (writeFails : bool) (envs : nat -> RunEnv) (app : App) : App :=
  if isChecking app then app
  else
    let noAccounts :=
      send {| statusName := js "error";
              statusMessage :=
                js "No accounts configured. Please add accounts in the Accounts tab.";
              statusResults := None |} app in
    let unreadable :=
      send {| statusName := js "error";
              statusMessage := js "Error reading accounts configuration";
              statusResults := None |} app in
    match accountsFile with
    | AccountsMissing | AccountsUnparsable _ => unreadable
    | AccountsNotArray => noAccounts
    | AccountsArray accounts =>
        if (length accounts =? 0)%nat then noAccounts
        else
          let loaded := loadSettings (settingsFile app) in
          let settings :=
            {| scheduleEnabled := scheduleEnabled loaded;
               scheduleType := scheduleType loaded;
               scheduleInterval := scheduleInterval loaded;
               scheduleDays := scheduleDays loaded;
               lastCheck := Some (Legacy.toISOString now);
               headlessMode := headlessMode loaded |} in
          let app :=
            {| isChecking := true;
               mainWindow := mainWindow app;
               settingsFile := saveSettings writeFails settings (settingsFile app);
               sent := sent app;
               world := world app |} in
          let app :=
            send {| statusName := js "running";
                    statusMessage := js "Running check...";
                    statusResults := None |} app in
          let headlessMode :=
            match headlessMode settings with
            | Some headless => headless
            | None => true
            end in
          let app :=
            match loadAccountsConfig headlessMode accountsFile with
            | Return accounts =>
                let (w, results) := runAll accounts envs (world app) in
                send {| statusName := js "completed";
                        statusMessage := js "Check completed successfully";
                        statusResults := Some results |}
                     {| isChecking := isChecking app;
                        mainWindow := mainWindow app;
                        settingsFile := settingsFile app;
                        sent := sent app;
                        world := w |}
            | Throw errorMessage =>
                send {| statusName := js "error";
                        statusMessage := js "Check failed: " ++ errorMessage;
                        statusResults := None |} app
            end in
          {| isChecking := false;
             mainWindow := mainWindow app;
             settingsFile := settingsFile app;
             sent := sent app;
             world := world app |}
    end.

(** An entry of the reply of [get-logs]; the time stamp and the
    address are what the file has under these names, [None] for
    [undefined]. *)
Record LogEntry := {
  logAccount : jsstring;
  logFilename : jsstring;
  logTimestamp : option Value.json;
  logUrl : option Value.json
}.

(** The files read for one account: the last ten [.json] files in the
    order of [sort()], the greatest name first. *)
Definition lastChecks (dir : Directory) : list jsstring :=
  take 10 (reverse (sort (filter (fun f => endsWith f (js ".json") = true)
                                 (readdirSync dir)))).

(** The messages of the host and of the engine during a call of
    [get-logs]: for a file that does not exist, by its name, and for the
    [TypeError] of a property read on [null]. *)
Record LogsHost := {
  logsEnoent : jsstring -> jsstring;
  logsTypeError : jsstring
}.

(** The inner loop of [get-logs].  A file that does not parse throws,
    and so does a file that holds [null], on the read of
    [content.timestamp]. *)
Fixpoint readLogs (host : LogsHost) (account : jsstring) (dir : Directory)
    (files : list jsstring) (logs : list LogEntry) : Result (list LogEntry) :=
  match files with
  | [] => Return logs
  | file :: files' =>
      match readSnapshot (logsEnoent host) dir file with
      | Throw message => Throw message
      | Return content =>
          match Value.member (js "timestamp") (Some content),
                Value.member (js "url") (Some content) with
          | Some contentTimestamp, Some contentUrl =>
              readLogs host account dir files'
                (logs ++ [{| logAccount := account;
                             logFilename := file;
                             logTimestamp := contentTimestamp;
                             logUrl := contentUrl |}])
          | _, _ => Throw (logsTypeError host)
          end
      end
  end.

(** The outer loop, over the directories of the data directory in the
    order in which the file system lists them. *)
Fixpoint getLogsFrom (host : LogsHost) (accounts : list (jsstring * Directory))
    (logs : list LogEntry) : Result (list LogEntry) :=
  match accounts with
  | [] => Return logs
  | (account, dir) :: accounts' =>
      match readLogs host account dir (lastChecks dir) logs with
      | Throw message => Throw message
      | Return logs => getLogsFrom host accounts' logs
      end
  end.

(** The handler of [get-logs]: [Return logs] for the reply with
    [success: true] and the logs, [Throw message] for the reply with
    [success: false] and the message. *)
Definition getLogs (host : LogsHost) (w : World) : Result (list LogEntry) :=
  getLogsFrom host (map_to_list (dataDirs w)) [].

End Desktop.

(** ** Auxiliary definitions of the proofs *)

Module Unquote.

Definition unhex (c : N) : N := if c <? 58 then c - 48 else c - 87.

Definition unescape (e : N) : N :=
  if e =? 98 then 8
  else if e =? 116 then 9
  else if e =? 110 then 10
  else if e =? 102 then 12
  else if e =? 114 then 13
  else e.

Definition prepend (c : N) (r : option (jsstring * jsstring))
  : option (jsstring * jsstring) :=
  match r with
  | Some (s, rest) => Some (c :: s, rest)
  | None => None
  end.

(** Reads the body of a quoted string up to its closing quote: the
    string and the input after the quote. *)
Fixpoint unquote_body (inp : jsstring) : option (jsstring * jsstring) :=
  match inp with
  | [] => None
  | c :: rest =>
      if c =? 34 then Some ([], rest)
      else if c =? 92 then
        match rest with
        | [] => None
        | e :: rest1 =>
            if e =? 117 then
              match rest1 with
              | h1 :: h2 :: h3 :: h4 :: rest2 =>
                  prepend (((unhex h1 * 16 + unhex h2) * 16 + unhex h3) * 16
                           + unhex h4)
                          (unquote_body rest2)
              | _ => None
              end
            else prepend (unescape e) (unquote_body rest1)
        end
      else prepend c (unquote_body rest)
  end.

End Unquote.

(** A serialization from which the value and the rest of the input can
    be read back. *)
Definition prefix_free {A} (ser : A -> jsstring) : Prop :=
  forall x y r1 r2, ser x ++ r1 = ser y ++ r2 -> x = y /\ r1 = r2.

(** A serialization that never starts with a closing bracket. *)
Definition opens {A} (ser : A -> jsstring) : Prop :=
  forall x, exists c t, ser x = c :: t /\ c <> 93.

(** What follows the first item in the text of an array. *)
Fixpoint array_tail {A} (ser : A -> jsstring) (l : list A) (rest : jsstring)
  : jsstring :=
  match l with
  | [] => 93 :: rest
  | x :: l' => 44 :: ser x ++ array_tail ser l' rest
  end.

(** The snapshot with its missing sequences made empty. *)
Definition coerceMissing (d : ScrapedData) : ScrapedData :=
  {| mainText := mainText d;
     fields := {| tables := Some (orEmpty (tables (fields d)));
                  numbers := Some (orEmpty (numbers (fields d))) |};
     url := url d;
     timestamp := timestamp d;
     elementText := elementText d |}.

(** The snapshot under another identity. *)
Definition withIdentity (elementText' url' timestamp' : jsstring) (d : ScrapedData)
  : ScrapedData :=
  {| mainText := mainText d;
     fields := fields d;
     url := url';
     timestamp := timestamp';
     elementText := elementText' |}.

(** The input after its longest prefix of code units in the class. *)
Fixpoint skip (p : N -> bool) (s : jsstring) : jsstring :=
  match s with
  | c :: s' => if p c then skip p s' else s
  | [] => []
  end.

(** The input after a token that started one code unit before [s']. *)
Definition after_token (s' : jsstring) : jsstring :=
  skip RegExp.dot_or_digit (skip RegExp.digit s').

(** A page with the given text and no table. *)
Definition samplePage (text : string) : PageContent :=
  {| innerText := js text; tableData := [];
     pageUrl := js "https://pio-przybysz.duw.pl/szczegoly-wniosku/1";
     isoTime := js "2025-01-01T00:00:00.000Z" |}.

(** The six numbers that [saveData] reads from the clock. *)
Definition localFields (d : Date.Date) : list Z :=
  [Date.getFullYear d; Date.getMonth d; Date.getDate d;
   Date.getHours d; Date.getMinutes d; Date.getSeconds d].

(** The same numbers of a local time value. *)
Definition fieldsOfTime (t : Z) : list Z :=
  [Date.YearFromTime t; Date.MonthFromTime t; Date.DateFromTime t;
   Date.HourFromTime t; Date.MinFromTime t; Date.SecFromTime t].

(** The strict lexicographic order of two lists of integers. *)
Fixpoint lex_ltb (a b : list Z) : bool :=
  match a, b with
  | x :: a', y :: b' => (x <? y)%Z || ((x =? y)%Z && lex_ltb a' b')
  | _, _ => false
  end.

(** The second of local time in which a date falls. *)
Definition localSecond (d : Date.Date) : Z :=
  (Date.LocalTime d / Date.msPerSecond)%Z.

(** Two decimal digits. *)
Definition two (x : Z) : jsstring :=
  [48 + Z.to_N x / 10; 48 + Z.to_N x mod 10].

(** The offset of the time zone Europe/Warsaw around the end of summer
    time on 26 October 2025 at 01:00 UTC: two hours before, one hour
    from then on. *)
Definition warsawAutumn2025 (t : Z) : Z :=
  if (t <? 1761440400000)%Z then 7200000%Z else 3600000%Z.

(** Two snapshots of one record for the examples. *)
Definition olderSnapshot : ScrapedData :=
  {| mainText := js "Etap realizacji: 1";
     fields := {| tables := Some []; numbers := Some [js "1"] |};
     url := js "https://pio-przybysz.duw.pl/szczegoly-wniosku/223199";
     timestamp := js "2025-10-26T00:30:00.000Z";
     elementText := js "223199" |}.

Definition newerSnapshot : ScrapedData :=
  {| mainText := js "Etap realizacji: 2";
     fields := {| tables := Some []; numbers := Some [js "2"] |};
     url := js "https://pio-przybysz.duw.pl/szczegoly-wniosku/223199";
     timestamp := js "2025-10-26T01:15:00.000Z";
     elementText := js "223199" |}.

(** A clock in Warsaw at the given time value. *)
Definition warsawClock (t : Z) : Date.Date :=
  {| Date.timeValue := t; Date.LocalTZA := warsawAutumn2025 |}.

(** A checker of the record of the examples, without mail transport, and
    with one. *)
Definition sampleChecker (transporter : bool) : PIOChecker :=
  {| accountId := js "jan@example.com";
     login := js "jan@example.com";
     password := js "secret";
     checkerElementText := js "223199";
     gmailUser := if transporter then Some (js "me@gmail.com") else None;
     hasTransporter := transporter |}.

(** The older snapshot with no numbers. *)
Definition snapshotWithoutNumbers : ScrapedData :=
  {| mainText := js "Etap realizacji";
     fields := {| tables := Some []; numbers := Some [] |};
     url := js "https://pio-przybysz.duw.pl/szczegoly-wniosku/223199";
     timestamp := js "2025-10-26T00:30:00.000Z";
     elementText := js "223199" |}.

(** The four kinds of notification of a run, by title. *)
Inductive NotificationKind := Baseline | NoChange | Changed | Failed.

Definition kindTitle (k : NotificationKind) : jsstring :=
  match k with
  | Baseline => js "PIO Checker - First Run"
  | NoChange => js "PIO Checker - No Changes"
  | Changed => js "PIO Checker - Changes Detected!"
  | Failed => js "PIO Checker - Error"
  end.

(** The title that [sendNotification] gives to a notification of kind
    [k] of the account. *)
Definition titleOf (k : NotificationKind) (c : PIOChecker) : jsstring :=
  kindTitle k ++ js " - " ++ accountId c.

(** The validation of the constructor of [PIOChecker]. *)
Definition validConfig (accountConfig : AccountConfig) : bool :=
  truthy (cfg_login accountConfig) && truthy (cfg_password accountConfig)
  && truthy (cfg_elementText accountConfig).

(** The entry of [runAll] for a record, from its configuration alone. *)
Definition resultOf (accountConfig : AccountConfig) : CheckResult :=
  if validConfig accountConfig
  then {| resultAccountId := cfg_login accountConfig;
          status := js "success"; error := None |}
  else {| resultAccountId := cfg_login accountConfig;
          status := js "error";
          error := Some (js "Missing required configuration for account " ++
                         cfg_login accountConfig ++
                         js ": login, password, or elementText") |}.

(** Three configured records, and collaborators that serve a page to
    the first and to the third and fail every attempt of the second. *)
Definition threeAccounts : list AccountConfig :=
  [ {| cfg_login := js "a@example.com"; cfg_password := js "pa";
       cfg_elementText := js "1001"; cfg_headless := true |};
    {| cfg_login := js "b@example.com"; cfg_password := js "pb";
       cfg_elementText := js "1002"; cfg_headless := true |};
    {| cfg_login := js "c@example.com"; cfg_password := js "pc";
       cfg_elementText := js "1003"; cfg_headless := true |} ].

Definition secondFetchFails (i : nat) : RunEnv :=
  {| attemptPage := fun _ =>
       if (i =? 1)%nat then inl (js "Navigation timeout")
       else inr (samplePage "Etap realizacji: 1");
     now := warsawClock 1761438600000;
     readError := None;
     writeError := None;
     envMail := None;
     envPass := None;
     localeNow := js "26.10.2025, 02:30:00";
     enoent := fun file => js "ENOENT: no such file or directory, open '" ++ file ++ js "'";
     typeError := js "Cannot read properties of undefined" |}.

Definition emptyWorld : World :=
  {| dataDirs := ∅; notifications := []; emails := [] |}.

(** A world in which the data directory of the sample checker exists
    and is empty. *)
Definition freshWorld : World :=
  {| dataDirs := {[ js "jan@example.com" := ∅ ]};
     notifications := []; emails := [] |}.

(** Collaborators that serve the page with the given text at the given
    time. *)
Definition servingEnv (text : string) (t : Z) : RunEnv :=
  {| attemptPage := fun _ => inr (samplePage text);
     now := warsawClock t;
     readError := None;
     writeError := None;
     envMail := None;
     envPass := None;
     localeNow := js "26.10.2025, 02:30:00";
     enoent := fun file => js "ENOENT: no such file or directory, open '" ++ file ++ js "'";
     typeError := js "Cannot read properties of undefined" |}.

(** The lexicographic order of two lists of integers, decided by [r]
    when the lists are equal. *)
Fixpoint lex_then (a b : list Z) (r : bool) : bool :=
  match a, b with
  | x :: a', y :: b' => (x <? y)%Z || ((x =? y)%Z && lex_then a' b' r)
  | _, _ => r
  end.

(** The four notifications of a run. *)
Definition baselineNote (c : PIOChecker) : Notification :=
  {| title := titleOf Baseline c;
     message := js "Baseline data has been saved. Future runs will detect changes." |}.

Definition noChangeNote (c : PIOChecker) : Notification :=
  {| title := titleOf NoChange c;
     message := js "Your application status remains unchanged." |}.

Definition changedNote (c : PIOChecker) (changes : list jsstring) : Notification :=
  {| title := titleOf Changed c;
     message := js "Changes found: " ++ join (js ", ") changes |}.

Definition failedNote (c : PIOChecker) (errorMessage : jsstring) : Notification :=
  {| title := titleOf Failed c;
     message := js "An error occurred: " ++ errorMessage |}.

(** The two mails of a run. *)
Definition changesMail (c : PIOChecker) (content : jsstring) : Email :=
  {| subject := js "PIO Checker - Changes Detected!" ++ js " - Account: " ++
                accountId c;
     html := content |}.

Definition errorMail (c : PIOChecker) (env : RunEnv) (errorMessage : jsstring)
  : Email :=
  {| subject := js "PIO Checker - Error Occurred" ++ js " - Account: " ++
                accountId c;
     html := errorReport c env errorMessage |}.



(** The scheduler when the application starts. *)
Definition noTasks : Scheduler.State :=
  {| Scheduler.tasks := []; Scheduler.cronJob := None |}.

(** What the running tasks were scheduled for, oldest first. *)
Definition runningSpecs (st : Scheduler.State) : list Scheduler.CronSpec :=
  Scheduler.spec <$> List.filter Scheduler.running (Scheduler.tasks st).

(** What one call of [setupScheduler] leaves running, and whether the
    call throws. *)
Definition scheduled (rejects : Scheduler.CronSpec -> option jsstring)
    (settings : Scheduler.Settings) : list Scheduler.CronSpec :=
  runningSpecs (Scheduler.setupScheduler rejects settings noTasks).1.

Definition threw (rejects : Scheduler.CronSpec -> option jsstring)
    (settings : Scheduler.Settings) : bool :=
  match (Scheduler.setupScheduler rejects settings noTasks).2 with
  | Throw _ => true
  | Return _ => false
  end.

(** The settings applied one after the other, as the start of the
    application and every [save-settings] do; a call that throws leaves
    its state to the next call. *)
Definition applySettings (rejects : Scheduler.CronSpec -> option jsstring)
    (saved : list Scheduler.Settings) (st : Scheduler.State) : Scheduler.State :=
  foldl (fun st settings => (Scheduler.setupScheduler rejects settings st).1) st saved.

(** The expressions of a list before the first one that the cron
    library rejects, and the message for that one. *)
Fixpoint accepted (rejects : Scheduler.CronSpec -> option jsstring)
    (l : list Scheduler.CronSpec) : list Scheduler.CronSpec :=
  match l with
  | [] => []
  | s :: l' =>
      match rejects s with
      | Some _ => []
      | None => s :: accepted rejects l'
      end
  end.

Fixpoint rejection (rejects : Scheduler.CronSpec -> option jsstring)
    (l : list Scheduler.CronSpec) : option jsstring :=
  match l with
  | [] => None
  | s :: l' =>
      match rejects s with
      | Some message => Some message
      | None => rejection rejects l'
      end
  end.

(** The expression of a day of the week, when the day has an entry. *)
Definition daySpec (scheduleDays : gmap jsstring Scheduler.DaySchedule)
    (day : jsstring) : option Scheduler.CronSpec :=
  (fun dayConfig =>
     Scheduler.WeeklyAt (Scheduler.dayToCron_get day) (Scheduler.time dayConfig))
    <$> scheduleDays !! day.

(** A running task. *)
Definition started (s : Scheduler.CronSpec) : Scheduler.ScheduledTask :=
  {| Scheduler.spec := s; Scheduler.running := true |}.

(** The expression of an entry of [dayToCron] under the settings of the
    days. *)
Definition weeklyTask (scheduleDays : gmap jsstring Scheduler.DaySchedule)
    (entry : jsstring * Z) : option Scheduler.CronSpec :=
  match scheduleDays !! entry.1 with
  | Some dayConfig =>
      if Scheduler.enabled dayConfig
      then Some (Scheduler.WeeklyAt (Some entry.2) (Scheduler.time dayConfig))
      else None
  | None => None
  end.

(** The expressions that the settings ask for, in the order in which
    [setupScheduler] hands them to the cron library. *)
Definition plan (settings : Scheduler.Settings) : list Scheduler.CronSpec :=
  if negb (Scheduler.scheduleEnabled settings) then []
  else if bool_decide (Scheduler.scheduleType settings = Some (js "interval")) then
    if (0 <? Scheduler.scheduleInterval settings)%Z
    then [Scheduler.EveryMinutes (Scheduler.scheduleInterval settings)]
    else []
  else if bool_decide (Scheduler.scheduleType settings = Some (js "days")) then
    match Scheduler.scheduleDays settings with
    | Some scheduleDays => omap (weeklyTask scheduleDays) Scheduler.dayToCron
    | None => []
    end
  else [].

(** The tasks of a state, split into those that no call tracks any
    more and those of the last call, of which the first is tracked. *)
Definition tracks (st : Scheduler.State) (pre cur : list Scheduler.ScheduledTask)
  : Prop :=
  Scheduler.tasks st = pre ++ cur
  /\ Forall (fun task => Scheduler.running task = true) cur
  /\ Scheduler.cronJob st = match cur with
                            | [] => None
                            | _ :: _ => Some (length pre)
                            end.

(** The tasks of a call after the next call has stopped the tracked
    one. *)
Definition stopFirst (cur : list Scheduler.ScheduledTask)
  : list Scheduler.ScheduledTask :=
  match cur with
  | [] => []
  | task :: cur' =>
      {| Scheduler.spec := Scheduler.spec task; Scheduler.running := false |} :: cur'
  end.

(** Settings with a check on Monday and on Friday at the given time,
    and the same settings with the scheduler disabled. *)
Definition mondayAndFridayAt (friday : string) (on : bool) : Scheduler.Settings :=
  {| Scheduler.scheduleEnabled := on;
     Scheduler.scheduleType := Some (js "days");
     Scheduler.scheduleInterval := 30;
     Scheduler.scheduleDays :=
       Some (<[js "friday" := {| Scheduler.enabled := true;
                                 Scheduler.time := js friday |}]>
             (<[js "monday" := {| Scheduler.enabled := true;
                                  Scheduler.time := js "09:30" |}]>
              (<[js "sunday" := {| Scheduler.enabled := false;
                                   Scheduler.time := js "12:00" |}]> ∅)));
     Scheduler.lastCheck := None;
     Scheduler.headlessMode := Some true |}.

Definition mondayAndFriday (on : bool) : Scheduler.Settings :=
  mondayAndFridayAt "18:00" on.

(** A cron library that accepts every expression, and one that rejects
    the hour 24 with the given message. *)
Definition acceptsAll (s : Scheduler.CronSpec) : option jsstring := None.

Definition rejectsHour24 (message : jsstring) (s : Scheduler.CronSpec)
  : option jsstring :=
  match s with
  | Scheduler.WeeklyAt _ time =>
      if startsWith time (js "24:") then Some message else None
  | Scheduler.EveryMinutes _ => None
  end.

(** The entry of [get-logs] for a file of an account that holds a
    value other than [null]. *)
Definition logEntryOf (account : jsstring) (dir : gmap jsstring FileContent)
    (file : jsstring) : option Desktop.LogEntry :=
  match dir !! file with
  | Some (Parsed Value.JNull) => None
  | Some (Parsed content) =>
      Some {| Desktop.logAccount := account;
              Desktop.logFilename := file;
              Desktop.logTimestamp := Value.get (js "timestamp") content;
              Desktop.logUrl := Value.get (js "url") content |}
  | _ => None
  end.

(** The entries of an account: those of its last checks. *)
Definition accountLogs (entry : jsstring * gmap jsstring FileContent)
  : list Desktop.LogEntry :=
  omap (logEntryOf entry.1 entry.2) (Desktop.lastChecks entry.2).

(** The three messages that [runCheck] sends besides [running]. *)
Definition statusUnreadable : Desktop.CheckStatus :=
  {| Desktop.statusName := js "error";
     Desktop.statusMessage := js "Error reading accounts configuration";
     Desktop.statusResults := None |}.

Definition statusNoAccounts : Desktop.CheckStatus :=
  {| Desktop.statusName := js "error";
     Desktop.statusMessage :=
       js "No accounts configured. Please add accounts in the Accounts tab.";
     Desktop.statusResults := None |}.

Definition statusRunning : Desktop.CheckStatus :=
  {| Desktop.statusName := js "running";
     Desktop.statusMessage := js "Running check...";
     Desktop.statusResults := None |}.

Definition statusCompleted (results : list CheckResult) : Desktop.CheckStatus :=
  {| Desktop.statusName := js "completed";
     Desktop.statusMessage := js "Check completed successfully";
     Desktop.statusResults := Some results |}.

(** An idle application with a window and no settings file. *)
Definition idleApp (w : World) : Desktop.App :=
  {| Desktop.isChecking := false;
     Desktop.mainWindow := true;
     Desktop.settingsFile := Desktop.SettingsMissing;
     Desktop.sent := [];
     Desktop.world := w |}.

(** * Properties *)

(** ** JSON.stringify is injective on arrays of strings *)

Section JSONFacts.

Import JSON Unquote.

Ltac zdiv := zify; Z.to_euclidean_division_equations; lia.

Lemma unhex_hexdigit n : n < 16 -> unhex (hexdigit n) = n.
Proof.
  intros Hn. unfold unhex, hexdigit.
  destruct (N.ltb_spec n 10).
  - destruct (N.ltb_spec (48 + n) 58); lia.
  - destruct (N.ltb_spec (87 + n) 58); lia.
Qed.

Lemma unhex_escape c :
  c < 65536 ->
  ((unhex (hexdigit (c / 4096 mod 16)) * 16
    + unhex (hexdigit (c / 256 mod 16))) * 16
   + unhex (hexdigit (c / 16 mod 16))) * 16
  + unhex (hexdigit (c mod 16)) = c.
Proof.
  intros Hc.
  rewrite !unhex_hexdigit by (apply N.mod_lt; lia).
  zdiv.
Qed.

Lemma unquote_unicode_escape c s rest :
  c < 65536 ->
  unquote_body (unicode_escape c ++ s ++ 34 :: rest)
  = prepend c (unquote_body (s ++ 34 :: rest)).
Proof.
  intros Hc. unfold unicode_escape. cbn [app unquote_body N.eqb Pos.eqb].
  by rewrite unhex_escape.
Qed.

Lemma unquote_escape_unit c s rest :
  is_lead c = false ->
  unquote_body (escape_unit c ++ s ++ 34 :: rest)
  = prepend c (unquote_body (s ++ 34 :: rest)).
Proof.
  intros Hl. unfold escape_unit.
  destruct (N.eqb_spec c 8) as [->|?]; [reflexivity|].
  destruct (N.eqb_spec c 9) as [->|?]; [reflexivity|].
  destruct (N.eqb_spec c 10) as [->|?]; [reflexivity|].
  destruct (N.eqb_spec c 12) as [->|?]; [reflexivity|].
  destruct (N.eqb_spec c 13) as [->|?]; [reflexivity|].
  destruct (N.eqb_spec c 34) as [->|?]; [reflexivity|].
  destruct (N.eqb_spec c 92) as [->|?]; [reflexivity|].
  destruct (_ || _ || _) eqn:E.
  - apply unquote_unicode_escape.
    unfold is_lead, is_trail in *.
    destruct (N.ltb_spec c 32); [lia|].
    rewrite Hl in E. cbn in E. apply andb_prop in E as [_ E%N.leb_le]. lia.
  - cbn [app unquote_body].
    destruct (N.eqb_spec c 34); [done|]. destruct (N.eqb_spec c 92); [done|]. done.
Qed.

Lemma unquote_quote_body_le n : forall s rest,
  (length s <= n)%nat ->
  unquote_body (quote_body s ++ 34 :: rest) = Some (s, rest).
Proof.
  induction n as [|n IH]; intros s rest Hn.
  - destruct s; [reflexivity | cbn in Hn; lia].
  - destruct s as [|c s]; [reflexivity|]. cbn [quote_body].
    destruct (is_lead c) eqn:Hl.
    + assert (Hc : 55296 <= c <= 56319).
      { unfold is_lead in Hl. apply andb_prop in Hl as [?%N.leb_le ?%N.leb_le]. lia. }
      destruct s as [|d s].
      * replace (unicode_escape c ++ 34 :: rest)
          with (unicode_escape c ++ [] ++ 34 :: rest) by reflexivity.
        rewrite unquote_unicode_escape by lia. reflexivity.
      * destruct (is_trail d) eqn:Ht.
        -- assert (Hd : 56320 <= d <= 57343).
           { unfold is_trail in Ht. apply andb_prop in Ht as [?%N.leb_le ?%N.leb_le]. lia. }
           cbn [app unquote_body].
           destruct (N.eqb_spec c 34); [lia|]. destruct (N.eqb_spec c 92); [lia|].
           destruct (N.eqb_spec d 34); [lia|]. destruct (N.eqb_spec d 92); [lia|].
           rewrite IH by (cbn in *; lia). reflexivity.
        -- rewrite <- app_assoc, unquote_unicode_escape by lia.
           rewrite IH by (cbn in *; lia). reflexivity.
    + rewrite <- app_assoc, unquote_escape_unit by done.
      rewrite IH by (cbn in *; lia). reflexivity.
Qed.

Lemma quote_prefix_free : prefix_free quote.
Proof.
  intros x y r1 r2 H. unfold quote, dq in H.
  cbn [app] in H. injection H as H.
  rewrite <- !app_assoc in H. cbn [app] in H.
  apply (f_equal unquote_body) in H.
  rewrite !(unquote_quote_body_le _ _ _ (le_n _)) in H.
  by injection H.
Qed.

Section Arrays.
Context {A : Type} (ser : A -> jsstring).
Hypothesis ser_pf : prefix_free ser.
Hypothesis ser_opens : opens ser.

Lemma join_tail x l rest :
  join (js ",") (ser <$> (x :: l)) ++ 93 :: rest = ser x ++ array_tail ser l rest.
Proof.
  revert x. induction l as [|y l IH]; intros x; [reflexivity|].
  change (join (js ",") (ser <$> x :: y :: l))
    with (ser x ++ js "," ++ join (js ",") (ser <$> y :: l)).
  rewrite <- !app_assoc, IH. reflexivity.
Qed.

Lemma array_tail_inj l1 : forall l2 r1 r2,
  array_tail ser l1 r1 = array_tail ser l2 r2 -> l1 = l2 /\ r1 = r2.
Proof.
  induction l1 as [|x l1 IH]; intros [|y l2] r1 r2 H; cbn in H.
  - by injection H.
  - discriminate.
  - discriminate.
  - injection H as H. apply ser_pf in H as [-> H].
    apply IH in H as [-> ->]. done.
Qed.

Lemma array_unfold items rest :
  array items ++ rest = 91 :: (join (js ",") items ++ 93 :: rest).
Proof. unfold array. rewrite <- !app_assoc. reflexivity. Qed.

Lemma array_prefix_free : prefix_free (fun l => array (ser <$> l)).
Proof.
  intros l1 l2 r1 r2 H. rewrite !array_unfold in H. injection H as H.
  destruct l1 as [|x l1], l2 as [|y l2].
  - cbn in H. by injection H.
  - rewrite join_tail in H.
    destruct (ser_opens y) as (c & t & E & Hc). rewrite E in H.
    injection H as H _. congruence.
  - rewrite join_tail in H.
    destruct (ser_opens x) as (c & t & E & Hc). rewrite E in H.
    injection H as H _. congruence.
  - rewrite !join_tail in H. apply ser_pf in H as [-> H].
    apply array_tail_inj in H as [-> ->]. done.
Qed.

Lemma array_opens : opens (fun l => array (ser <$> l)).
Proof. intros l. eexists 91, _. split; [reflexivity | lia]. Qed.

End Arrays.

Lemma prefix_free_inj {A} (ser : A -> jsstring) :
  prefix_free ser -> forall x y, ser x = ser y -> x = y.
Proof.
  intros Hpf x y H. apply (Hpf x y [] []). by rewrite H.
Qed.

Lemma quote_opens : opens quote.
Proof. intros s. eexists 34, _. split; [reflexivity | lia]. Qed.

Lemma stringify_strings_prefix_free : prefix_free stringify_strings.
Proof. apply array_prefix_free; [apply quote_prefix_free | apply quote_opens]. Qed.

Lemma stringify_rows_prefix_free : prefix_free stringify_rows.
Proof.
  apply array_prefix_free;
    [apply stringify_strings_prefix_free | apply array_opens].
Qed.

Lemma stringify_tables_prefix_free : prefix_free stringify_tables.
Proof.
  apply array_prefix_free; [apply stringify_rows_prefix_free | apply array_opens].
Qed.

Lemma stringify_strings_inj l1 l2 :
  stringify_strings l1 = stringify_strings l2 <-> l1 = l2.
Proof.
  split; [apply prefix_free_inj, stringify_strings_prefix_free | by intros ->].
Qed.

Lemma stringify_tables_inj t1 t2 :
  stringify_tables t1 = stringify_tables t2 <-> t1 = t2.
Proof.
  split; [apply prefix_free_inj, stringify_tables_prefix_free | by intros ->].
Qed.

End JSONFacts.

(** ** The differ *)

Section Differ.

Implicit Types oldData newData s : ScrapedData.

Lemma change_names_distinct :
  MAIN_CHANGED <> TABLE_CHANGED /\ MAIN_CHANGED <> NUMBERS_CHANGED
  /\ TABLE_CHANGED <> NUMBERS_CHANGED.
Proof. repeat split; discriminate. Qed.

(** The result of [compareData] as a function of its three tests. *)
Lemma compareData_unfold oldData newData :
  compareData oldData newData =
    (if bool_decide (mainText oldData ≠ mainText newData)
     then [MAIN_CHANGED] else []) ++
    (if bool_decide (JSON.stringify_tables (orEmpty (tables (fields oldData)))
                     ≠ JSON.stringify_tables (orEmpty (tables (fields newData))))
     then [TABLE_CHANGED] else []) ++
    (if bool_decide (JSON.stringify_strings (orEmpty (numbers (fields oldData)))
                     ≠ JSON.stringify_strings (orEmpty (numbers (fields newData))))
     then [NUMBERS_CHANGED] else []).
Proof.
  unfold compareData, push_if.
  repeat case_bool_decide; reflexivity.
Qed.

Lemma tables_test_iff oldData newData :
  JSON.stringify_tables (orEmpty (tables (fields oldData)))
    ≠ JSON.stringify_tables (orEmpty (tables (fields newData)))
  <-> orEmpty (tables (fields oldData)) ≠ orEmpty (tables (fields newData)).
Proof. by rewrite stringify_tables_inj. Qed.

Lemma numbers_test_iff oldData newData :
  JSON.stringify_strings (orEmpty (numbers (fields oldData)))
    ≠ JSON.stringify_strings (orEmpty (numbers (fields newData)))
  <-> orEmpty (numbers (fields oldData)) ≠ orEmpty (numbers (fields newData)).
Proof. by rewrite stringify_strings_inj. Qed.

(** Swapping two different adjacent rows of a table is reported. *)
Lemma compareData_row_reorder oldData newData before after r1 r2 ts1 ts2 :
  r1 <> r2 ->
  tables (fields oldData) = Some (ts1 ++ (before ++ r1 :: r2 :: after) :: ts2) ->
  tables (fields newData) = Some (ts1 ++ (before ++ r2 :: r1 :: after) :: ts2) ->
  TABLE_CHANGED ∈ compareData oldData newData.
Proof.
  intros Hr Ho Hn. rewrite compareData_unfold.
  rewrite (bool_decide_eq_true_2 (JSON.stringify_tables _ ≠ _)).
  - set_solver.
  - apply tables_test_iff. rewrite Ho, Hn. cbn [orEmpty].
    intros H. apply app_inv_head in H. injection H as H.
    apply app_inv_head in H. congruence.
Qed.

Lemma three_flags (b1 b2 b3 : bool) :
  let l := (if b1 then [MAIN_CHANGED] else []) ++
           (if b2 then [TABLE_CHANGED] else []) ++
           (if b3 then [NUMBERS_CHANGED] else []) in
  (MAIN_CHANGED ∈ l <-> b1 = true)
  /\ (TABLE_CHANGED ∈ l <-> b2 = true)
  /\ (NUMBERS_CHANGED ∈ l <-> b3 = true)
  /\ NoDup l
  /\ (hasChanges l = true <-> l ≠ []).
Proof.
  intros l. subst l.
  destruct b1, b2, b3; cbn [app]; (split; [|split; [|split; [|split]]]); try compute_done.
Qed.

End Differ.

(** The three tests of [compareData], their order and their meaning. *)
Lemma compareData_spec (oldData newData : ScrapedData) :
  let changes := compareData oldData newData in
  changes =
    (if bool_decide (mainText oldData ≠ mainText newData)
     then [MAIN_CHANGED] else []) ++
    (if bool_decide (JSON.stringify_tables (orEmpty (tables (fields oldData)))
                     ≠ JSON.stringify_tables (orEmpty (tables (fields newData))))
     then [TABLE_CHANGED] else []) ++
    (if bool_decide (JSON.stringify_strings (orEmpty (numbers (fields oldData)))
                     ≠ JSON.stringify_strings (orEmpty (numbers (fields newData))))
     then [NUMBERS_CHANGED] else [])
  /\ (MAIN_CHANGED ∈ changes <-> mainText oldData ≠ mainText newData)
  /\ (TABLE_CHANGED ∈ changes <->
        JSON.stringify_tables (orEmpty (tables (fields oldData)))
        ≠ JSON.stringify_tables (orEmpty (tables (fields newData))))
  /\ (TABLE_CHANGED ∈ changes <->
        orEmpty (tables (fields oldData)) ≠ orEmpty (tables (fields newData)))
  /\ (NUMBERS_CHANGED ∈ changes <->
        JSON.stringify_strings (orEmpty (numbers (fields oldData)))
        ≠ JSON.stringify_strings (orEmpty (numbers (fields newData))))
  /\ (NUMBERS_CHANGED ∈ changes <->
        orEmpty (numbers (fields oldData)) ≠ orEmpty (numbers (fields newData)))
  /\ NoDup changes
  /\ (hasChanges changes = true <-> changes ≠ []).
Proof.
  intros changes. subst changes.
  rewrite compareData_unfold.
  split; [reflexivity|].
  destruct (three_flags
    (bool_decide (mainText oldData ≠ mainText newData))
    (bool_decide
       (JSON.stringify_tables (orEmpty (tables (fields oldData)))
        ≠ JSON.stringify_tables (orEmpty (tables (fields newData)))))
    (bool_decide
       (JSON.stringify_strings (orEmpty (numbers (fields oldData)))
        ≠ JSON.stringify_strings (orEmpty (numbers (fields newData))))))
    as (H1 & H2 & H3 & H4 & H5).
  rewrite bool_decide_eq_true in H1, H2, H3.
  pose proof (tables_test_iff oldData newData).
  pose proof (numbers_test_iff oldData newData).
  tauto.
Qed.


(** C3. [compareData] makes three independent tests in the order main
    text, tables, numbers, and pushes one fixed name for each test that
    finds a difference: the main text name iff the [mainText] strings
    are unequal, the table name iff the JSON texts of the tables differ,
    which is iff the tables differ as ordered sequences (so a reordering
    of rows is a change), the number name iff the JSON texts of the
    numbers differ, iff the number sequences differ.  The list has no
    duplicates, and there are changes iff it is not empty. *)
Theorem compareData_three_checks (oldData newData : ScrapedData) :
  let changes := compareData oldData newData in
  changes =
    (if bool_decide (mainText oldData ≠ mainText newData)
     then [MAIN_CHANGED] else []) ++
    (if bool_decide (JSON.stringify_tables (orEmpty (tables (fields oldData)))
                     ≠ JSON.stringify_tables (orEmpty (tables (fields newData))))
     then [TABLE_CHANGED] else []) ++
    (if bool_decide (JSON.stringify_strings (orEmpty (numbers (fields oldData)))
                     ≠ JSON.stringify_strings (orEmpty (numbers (fields newData))))
     then [NUMBERS_CHANGED] else [])
  /\ (MAIN_CHANGED ∈ changes <-> mainText oldData ≠ mainText newData)
  /\ (TABLE_CHANGED ∈ changes <->
        JSON.stringify_tables (orEmpty (tables (fields oldData)))
        ≠ JSON.stringify_tables (orEmpty (tables (fields newData))))
  /\ (TABLE_CHANGED ∈ changes <->
        orEmpty (tables (fields oldData)) ≠ orEmpty (tables (fields newData)))
  /\ (NUMBERS_CHANGED ∈ changes <->
        JSON.stringify_strings (orEmpty (numbers (fields oldData)))
        ≠ JSON.stringify_strings (orEmpty (numbers (fields newData))))
  /\ (NUMBERS_CHANGED ∈ changes <->
        orEmpty (numbers (fields oldData)) ≠ orEmpty (numbers (fields newData)))
  /\ NoDup changes
  /\ (hasChanges changes = true <-> changes ≠ []).
Proof. exact (compareData_spec oldData newData). Qed.

(** C8. A snapshot compared with itself has no changes: the list of
    changes is empty. *)
Theorem compareData_self (s : ScrapedData) :
  compareData s s = [] /\ hasChanges (compareData s s) = false.
Proof.
  rewrite compareData_unfold.
  rewrite !bool_decide_eq_false_2 by (intros H; by apply H).
  split; reflexivity.
Qed.

(** C10. [compareData] is a total function, also on snapshots whose
    tables or numbers are missing: it compares them as it compares the
    snapshots with the missing sequences made empty.  In particular a
    missing sequence against an empty one reports no table change and
    no number change, whatever the other fields are. *)
Theorem compareData_missing_as_empty (oldData newData : ScrapedData) :
  compareData oldData newData
    = compareData (coerceMissing oldData) (coerceMissing newData)
  /\ (forall mainText1 numbers1 url1 timestamp1 elementText1
             mainText2 numbers2 url2 timestamp2 elementText2,
        let absent :=
          {| mainText := mainText1;
             fields := {| tables := None; numbers := numbers1 |};
             url := url1; timestamp := timestamp1;
             elementText := elementText1 |} in
        let empty :=
          {| mainText := mainText2;
             fields := {| tables := Some []; numbers := numbers2 |};
             url := url2; timestamp := timestamp2;
             elementText := elementText2 |} in
        (TABLE_CHANGED ∉ compareData absent empty)
        /\ (TABLE_CHANGED ∉ compareData empty absent))
  /\ (forall mainText1 tables1 url1 timestamp1 elementText1
             mainText2 tables2 url2 timestamp2 elementText2,
        let absent :=
          {| mainText := mainText1;
             fields := {| tables := tables1; numbers := None |};
             url := url1; timestamp := timestamp1;
             elementText := elementText1 |} in
        let empty :=
          {| mainText := mainText2;
             fields := {| tables := tables2; numbers := Some [] |};
             url := url2; timestamp := timestamp2;
             elementText := elementText2 |} in
        (NUMBERS_CHANGED ∉ compareData absent empty)
        /\ (NUMBERS_CHANGED ∉ compareData empty absent)).
Proof.
  split; [reflexivity|].
  split; intros; subst absent empty.
  - split; intros H;
      apply compareData_spec in H; cbn in H; by apply H.
  - split; intros H;
      apply compareData_spec in H; cbn in H; by apply H.
Qed.

(** C2 as the code has it.  [compareData] makes no test of identity:
    its result depends on the main text, the tables and the numbers
    only, so every pair of snapshots, of one record or of two, gets a
    list of changes. *)
Theorem compareData_ignores_identity (oldData newData : ScrapedData)
    (e1 u1 t1 e2 u2 t2 : jsstring) :
  compareData (withIdentity e1 u1 t1 oldData) (withIdentity e2 u2 t2 newData)
  = compareData oldData newData.
Proof. reflexivity. Qed.

(** C2 fails as stated: two snapshots of different records are compared
    and a result comes back. *)
Lemma compareData_across_records :
  let a := {| mainText := js "status: accepted";
              fields := {| tables := Some []; numbers := Some [] |};
              url := js "https://pio-przybysz.duw.pl/szczegoly-wniosku/1";
              timestamp := js "2025-01-01T00:00:00.000Z";
              elementText := js "1" |} in
  let b := {| mainText := js "status: accepted";
              fields := {| tables := Some []; numbers := Some [] |};
              url := js "https://pio-przybysz.duw.pl/szczegoly-wniosku/2";
              timestamp := js "2025-01-02T00:00:00.000Z";
              elementText := js "2" |} in
  elementText a <> elementText b /\ compareData a b = [].
Proof. split; [discriminate | reflexivity]. Qed.

(** ** The numeric pattern and trimming *)

Section NumericPattern.

Import RegExp.

Implicit Types s ws rest : jsstring.

Lemma skip_length p s : (length (skip p s) <= length s)%nat.
Proof.
  induction s as [|c s IH]; cbn; [lia|]. destruct (p c); cbn; lia.
Qed.

Lemma skip_head p s : forall c t, skip p s = c :: t -> p c = false.
Proof.
  induction s as [|a s IH]; cbn; intros c t H; [discriminate|].
  destruct (p a) eqn:E; [eauto|]. by injection H as -> _.
Qed.

Lemma skip_app p s ws :
  Forall (fun c => p c = false) ws -> skip p (s ++ ws) = skip p s ++ ws.
Proof.
  intros Hws. induction s as [|c s IH]; cbn.
  - destruct Hws as [|w ws Hw _]; cbn; [reflexivity|]. by rewrite Hw.
  - destruct (p c); [exact IH | reflexivity].
Qed.

(** A greedy repetition of a class before a continuation that cannot
    fail takes the longest run. *)
Lemma repeat_class p (k : jsstring -> option jsstring) :
  (forall s, is_Some (k s)) ->
  forall fuel s, (length s <= fuel)%nat ->
  repeat_matcher (compile (Class p)) fuel s k = k (skip p s).
Proof.
  intros Hk. induction fuel as [|fuel IH]; intros s Hlen.
  - destruct s; [reflexivity | cbn in Hlen; lia].
  - destruct s as [|c s]; [reflexivity|]. cbn [repeat_matcher compile skip].
    destruct (p c); [|reflexivity].
    replace (length s <? length (c :: s))%nat with true
      by (symmetry; apply Nat.ltb_lt; cbn; lia).
    rewrite IH by (cbn in Hlen; lia).
    destruct (Hk (skip p s)) as [r ->]. reflexivity.
Qed.

Lemma star_class p (k : jsstring -> option jsstring) s :
  (forall s, is_Some (k s)) ->
  compile (Star (Class p)) s k = k (skip p s).
Proof. intros Hk. cbn [compile]. by apply repeat_class. Qed.

Lemma compile_class_cons p c s k :
  compile (Class p) (c :: s) k = if p c then k s else None.
Proof. reflexivity. Qed.

Lemma compile_opt r s k :
  compile (Opt r) s k =
    match compile r s k with Some x => Some x | None => k s end.
Proof. reflexivity. Qed.

(** The pattern at the start of the input: a digit, then the longest run
    of digits and dots. *)
Lemma numeric_pattern_at s :
  compile numeric_pattern s Some =
    match s with
    | c :: s' => if digit c then Some (after_token s') else None
    | [] => None
    end.
Proof.
  unfold numeric_pattern, Plus.
  set (G := Seq (Class dot) _).
  set (K2 := fun s2 => compile (Opt G) s2 Some).
  set (K1 := fun s1 => compile (Star (Class dot_or_digit)) s1 K2).
  change (compile (Class digit) s
            (fun s0 => compile (Star (Class digit)) s0 K1)
          = match s with
            | c :: s' => if digit c then Some (after_token s') else None
            | [] => None
            end).
  assert (Htot2 : forall s2, is_Some (K2 s2)).
  { intros s2. unfold K2. rewrite compile_opt.
    destruct (compile G s2 Some); eauto. }
  assert (Htot1 : forall s1, is_Some (K1 s1)).
  { intros s1. unfold K1. rewrite star_class by exact Htot2. apply Htot2. }
  destruct s as [|c s']; [reflexivity|].
  rewrite compile_class_cons.
  destruct (digit c); [|reflexivity].
  rewrite star_class by exact Htot1.
  unfold K1. rewrite star_class by exact Htot2.
  fold (after_token s'). unfold K2. rewrite compile_opt.
  destruct (after_token s') as [|a t] eqn:E; [reflexivity|].
  apply skip_head in E. subst G.
  change (compile (Seq (Class dot) ?r) (a :: t) Some)
    with (compile (Class dot) (a :: t) (fun s' => compile r s' Some)).
  rewrite compile_class_cons.
  unfold dot_or_digit in E. apply orb_false_elim in E as [-> _]. reflexivity.
Qed.

Lemma after_token_length s : (length (after_token s) <= length s)%nat.
Proof.
  unfold after_token.
  pose proof (skip_length dot_or_digit (skip digit s)).
  pose proof (skip_length digit s). lia.
Qed.

Lemma digit_dot_or_digit c : digit c = true -> dot_or_digit c = true.
Proof. unfold dot_or_digit. intros ->. apply orb_true_r. Qed.

Lemma after_token_app s ws :
  Forall (fun c => dot_or_digit c = false) ws ->
  after_token (s ++ ws) = after_token s ++ ws.
Proof.
  intros Hws. unfold after_token.
  rewrite (skip_app digit), (skip_app dot_or_digit); [done..|].
  eapply Forall_impl; [exact Hws|]. intros c Hc.
  destruct (digit c) eqn:E; [|reflexivity].
  apply digit_dot_or_digit in E. congruence.
Qed.

(** The first match: the search moves over what is not a digit. *)
Lemma exec_numeric_cons c s :
  exec numeric_pattern (c :: s) =
    if digit c
    then Some (take (length (c :: s) - length (after_token s))%nat (c :: s),
               after_token s)
    else exec numeric_pattern s.
Proof.
  cbn [exec]. rewrite numeric_pattern_at. destruct (digit c); reflexivity.
Qed.

Lemma exec_numeric_nil : exec numeric_pattern [] = None.
Proof. cbn [exec]. by rewrite numeric_pattern_at. Qed.

Lemma exec_numeric_shorter s : forall tok rest,
  exec numeric_pattern s = Some (tok, rest) ->
  (length rest < length s)%nat /\ forall rest', next_search tok rest' = Some rest'.
Proof.
  induction s as [|c s IH]; intros tok rest; [by rewrite exec_numeric_nil|].
  rewrite exec_numeric_cons. destruct (digit c).
  - intros [= <- <-]. pose proof (after_token_length s). split; [cbn; lia|].
    cbn [length].
    replace (S (length s) - length (after_token s))%nat
      with (S (length s - length (after_token s))) by lia.
    reflexivity.
  - intros [H1 H2]%IH. split; [cbn; lia | done].
Qed.

Lemma exec_numeric_none ws :
  Forall (fun c => dot_or_digit c = false) ws ->
  exec numeric_pattern ws = None.
Proof.
  induction 1 as [|c ws Hc _ IH]; [apply exec_numeric_nil|].
  rewrite exec_numeric_cons.
  destruct (digit c) eqn:E; [|exact IH].
  apply digit_dot_or_digit in E. congruence.
Qed.

(** White space after the input changes no match. *)
Lemma exec_numeric_app s ws :
  Forall (fun c => dot_or_digit c = false) ws ->
  exec numeric_pattern (s ++ ws) =
    match exec numeric_pattern s with
    | Some (tok, rest) => Some (tok, rest ++ ws)
    | None => None
    end.
Proof.
  intros Hws. induction s as [|c s IH].
  - rewrite exec_numeric_nil. by apply exec_numeric_none.
  - rewrite <- app_comm_cons, !exec_numeric_cons.
    destruct (digit c); [|exact IH].
    rewrite after_token_app by done.
    pose proof (after_token_length s).
    f_equal. f_equal.
    replace (length (c :: s ++ ws) - length (after_token s ++ ws))%nat
      with (length (c :: s) - length (after_token s))%nat
      by (cbn [length]; rewrite !length_app; lia).
    rewrite app_comm_cons, take_app_le; [reflexivity | lia].
Qed.

(** All the matches: enough fuel is any fuel above the length. *)
Lemma match_all_fuel fuel1 : forall fuel2 s,
  (length s < fuel1)%nat -> (length s < fuel2)%nat ->
  match_all_from numeric_pattern fuel1 s = match_all_from numeric_pattern fuel2 s.
Proof.
  induction fuel1 as [|fuel1 IH]; intros fuel2 s H1 H2; [lia|].
  destruct fuel2 as [|fuel2]; [lia|]. cbn [match_all_from].
  destruct (exec numeric_pattern s) as [[tok rest]|] eqn:E; [|reflexivity].
  apply exec_numeric_shorter in E as [E ->].
  f_equal. apply IH; lia.
Qed.

Lemma match_all_app fuel : forall s ws,
  Forall (fun c => dot_or_digit c = false) ws ->
  (length (s ++ ws) < fuel)%nat ->
  match_all_from numeric_pattern fuel (s ++ ws)
  = match_all_from numeric_pattern fuel s.
Proof.
  induction fuel as [|fuel IH]; intros s ws Hws Hlen; [reflexivity|].
  cbn [match_all_from]. rewrite exec_numeric_app by done.
  destruct (exec numeric_pattern s) as [[tok rest]|] eqn:E; [|reflexivity].
  pose proof E as [E1 E2]%exec_numeric_shorter. rewrite length_app in Hlen.
  rewrite !E2. f_equal. apply IH; [done|]. rewrite length_app. lia.
Qed.

Lemma match_all_lead fuel : forall ws s,
  Forall (fun c => dot_or_digit c = false) ws ->
  (length (ws ++ s) < fuel)%nat ->
  match_all_from numeric_pattern fuel (ws ++ s)
  = match_all_from numeric_pattern fuel s.
Proof.
  intros ws s Hws. induction Hws as [|c ws Hc _ IH]; intros Hlen; [reflexivity|].
  rewrite <- IH by (cbn in Hlen; lia).
  destruct fuel as [|fuel]; [reflexivity|]. cbn [match_all_from].
  rewrite <- app_comm_cons, exec_numeric_cons.
  replace (digit c) with false.
  2:{ destruct (digit c) eqn:E; [|reflexivity].
      apply digit_dot_or_digit in E. congruence. }
  destruct (exec numeric_pattern (ws ++ s)) as [[tok rest]|] eqn:E; [|reflexivity].
  reflexivity.
Qed.

Lemma whitespace_not_token c : isWhiteSpace c = true -> dot_or_digit c = false.
Proof.
  unfold isWhiteSpace, dot_or_digit, dot, digit. intros H.
  repeat (apply orb_prop in H as [H|H]);
    repeat match goal with
    | H : (_ && _) = true |- _ => apply andb_prop in H as [? ?]
    | H : (_ =? _) = true |- _ => apply N.eqb_eq in H
    | H : (_ <=? _) = true |- _ => apply N.leb_le in H
    end;
    first [ subst c; reflexivity
          | apply orb_false_intro;
            [apply N.eqb_neq; lia | apply andb_false_iff; rewrite !N.leb_gt; lia] ].
Qed.

Lemma trimStart_split s :
  exists lead, Forall (fun c => isWhiteSpace c = true) lead
               /\ s = lead ++ trimStart s.
Proof.
  induction s as [|c s (lead & Hl & IH)]; [by exists []|]. cbn.
  destruct (isWhiteSpace c) eqn:E.
  - exists (c :: lead). split; [by constructor|]. cbn. by f_equal.
  - by exists [].
Qed.

(** The input is its trimmed text between two runs of white space. *)
Lemma trim_split s :
  exists lead trail,
    Forall (fun c => isWhiteSpace c = true) lead
    /\ Forall (fun c => isWhiteSpace c = true) trail
    /\ s = lead ++ trim s ++ trail.
Proof.
  destruct (trimStart_split s) as (lead & Hl & Hs).
  destruct (trimStart_split (reverse (trimStart s))) as (l2 & Hl2 & Hr).
  exists lead, (reverse l2). split; [done|]. split.
  - by apply Forall_reverse.
  - unfold trim. rewrite <- reverse_app, <- Hr, reverse_involutive. exact Hs.
Qed.

(** The numbers of a text are the numbers of its trimmed text. *)
Lemma extractNumbers_trim s : extractNumbers s = extractNumbers (trim s).
Proof.
  unfold extractNumbers, String_match.
  destruct (trim_split s) as (lead & trail & Hl & Ht & Hs).
  assert (Hnt : forall l, Forall (fun c => isWhiteSpace c = true) l ->
                          Forall (fun c => dot_or_digit c = false) l).
  { intros l Hw. eapply Forall_impl; [exact Hw | exact whitespace_not_token]. }
  remember (trim s) as t eqn:Heqt. clear Heqt. subst s.
  rewrite match_all_lead by (auto; lia).
  rewrite match_all_app by (auto; rewrite !length_app; lia).
  rewrite (match_all_fuel _ (S (length t)));
    [reflexivity | rewrite !length_app; lia | lia].
Qed.

End NumericPattern.

Example extractNumbers_sample :
  extractNumbers (js "  Numer wniosku: 223199, data 20.12.2024. Etap 3..x ")
  = [js "223199"; js "20.12.2024."; js "3.."].
Proof. vm_compute. reflexivity. Qed.

Example trim_sample : trim (js "  a b  ") = js "a b".
Proof. vm_compute. reflexivity. Qed.

(** C9. For two snapshots built by the extraction step of the scraper,
    equal main texts give equal numbers, since the numbers of a page
    text are those of its trimmed text; so [compareData] never reports
    a change of the numbers of two such snapshots without a change of
    the main text. *)
Theorem scraped_numbers_follow_text (e1 e2 : jsstring) (p1 p2 : PageContent) :
  let a := buildScrapedData e1 p1 in
  let b := buildScrapedData e2 p2 in
  (mainText a = mainText b -> numbers (fields a) = numbers (fields b))
  /\ (NUMBERS_CHANGED ∈ compareData a b -> MAIN_CHANGED ∈ compareData a b).
Proof.
  intros a b.
  assert (H : mainText a = mainText b -> numbers (fields a) = numbers (fields b)).
  { subst a b. cbn. intros Ht. f_equal.
    rewrite (extractNumbers_trim (innerText p1)), Ht.
    symmetry. apply extractNumbers_trim. }
  split; [exact H|].
  intros Hn. apply compareData_spec in Hn. apply compareData_spec.
  intros Ht. apply Hn. apply H in Ht. by rewrite Ht.
Qed.

Lemma scraped_numbers_follow_text_witness :
  NUMBERS_CHANGED ∈ compareData (buildScrapedData (js "1") (samplePage " etap 10 "))
                                (buildScrapedData (js "1") (samplePage "etap 11"))
  /\ MAIN_CHANGED ∈ compareData (buildScrapedData (js "1") (samplePage " etap 10 "))
                                (buildScrapedData (js "1") (samplePage "etap 11")).
Proof.
  split.
  - apply list_elem_of_In; vm_compute; auto.
  - apply (scraped_numbers_follow_text (js "1") (js "1")
             (samplePage " etap 10 ") (samplePage "etap 11")).
    apply list_elem_of_In; vm_compute; auto.
Defined.

(** ** Numbers as strings *)

Section Decimal.

Ltac ndiv := zify; Z.to_euclidean_division_equations; lia.

Lemma digits_from_acc fuel : forall n acc,
  digits_from fuel n acc = digits_from fuel n [] ++ acc.
Proof.
  induction fuel as [|fuel IH]; intros n acc; [reflexivity|].
  cbn [digits_from]. destruct (n / 10 =? 0); [reflexivity|].
  rewrite IH, (IH _ [_]), <- app_assoc. reflexivity.
Qed.

Lemma digits_from_fuel fuel1 : forall fuel2 n acc,
  (0 < fuel1)%nat -> (0 < fuel2)%nat ->
  n < 2 ^ N.of_nat fuel1 -> n < 2 ^ N.of_nat fuel2 ->
  digits_from fuel1 n acc = digits_from fuel2 n acc.
Proof.
  induction fuel1 as [|fuel1 IH]; intros fuel2 n acc H1 H2 Hn1 Hn2; [lia|].
  destruct fuel2 as [|fuel2]; [lia|]. cbn [digits_from].
  destruct (N.eqb_spec (n / 10) 0) as [|Hq]; [reflexivity|].
  rewrite Nat2N.inj_succ, N.pow_succ_r' in Hn1, Hn2.
  assert (n / 10 < 2 ^ N.of_nat fuel1) by ndiv.
  assert (n / 10 < 2 ^ N.of_nat fuel2) by ndiv.
  apply IH; try done.
  - destruct fuel1; [|lia]. change (2 ^ N.of_nat 0) with 1 in *.
    exfalso. apply Hq. apply N.lt_1_r. exact H.
  - destruct fuel2; [|lia]. change (2 ^ N.of_nat 0) with 1 in *.
    exfalso. apply Hq. apply N.lt_1_r. assumption.
Qed.

Lemma String_of_N_fuel n fuel :
  (0 < fuel)%nat -> n < 2 ^ N.of_nat fuel ->
  digits_from fuel n [] = String_of_N n.
Proof.
  intros Hf Hn. unfold String_of_N. apply digits_from_fuel; try done; try lia.
  rewrite Nat2N.inj_succ, N2Nat.id.
  destruct (N.eq_dec n 0) as [->|Hn0]; [reflexivity|].
  apply N.log2_spec. lia.
Qed.

Lemma String_of_N_small n : n < 10 -> String_of_N n = [48 + n].
Proof.
  intros Hn. unfold String_of_N. cbn [digits_from].
  rewrite N.div_small, N.mod_small by done. reflexivity.
Qed.

Lemma String_of_N_step n :
  10 <= n -> String_of_N n = String_of_N (n / 10) ++ [48 + n mod 10].
Proof.
  intros Hn. unfold String_of_N at 1. cbn [digits_from].
  destruct (N.eqb_spec (n / 10) 0) as [Hq|Hq]; [ndiv|].
  rewrite digits_from_acc. f_equal.
  assert (Hlog : 2 ^ N.log2 n <= n < 2 ^ N.succ (N.log2 n))
    by (apply N.log2_spec; lia).
  rewrite N.pow_succ_r' in Hlog.
  assert (0 < N.log2 n) by (apply N.log2_pos; lia).
  apply String_of_N_fuel; [lia|]. rewrite N2Nat.id. ndiv.
Qed.





(** Two digits, with a leading zero when there is one digit only. *)
Lemma pad2 (x : Z) :
  (0 <= x < 100)%Z ->
  padStart (String_of_Z x) 2 (js "0") = two x.
Proof.
  intros Hx. unfold String_of_Z, two.
  destruct (Z.ltb_spec x 0); [lia|].
  destruct (N.lt_ge_cases (Z.to_N x) 10) as [Hn|Hn].
  - rewrite String_of_N_small by done.
    rewrite N.div_small, N.mod_small by done. reflexivity.
  - rewrite String_of_N_step, String_of_N_small by ndiv.
    replace (Z.to_N x / 10 mod 10) with (Z.to_N x / 10); [reflexivity|].
    symmetry. apply N.mod_small. ndiv.
Qed.

(** Four digits of a year from 1000 to 9999. *)
Lemma year4 (y : Z) :
  (1000 <= y <= 9999)%Z ->
  String_of_Z y
  = [48 + Z.to_N y / 1000; 48 + Z.to_N y / 100 mod 10;
     48 + Z.to_N y / 10 mod 10; 48 + Z.to_N y mod 10].
Proof.
  intros Hy. unfold String_of_Z.
  destruct (Z.ltb_spec y 0); [lia|].
  set (n := Z.to_N y). assert (1000 <= n <= 9999) by lia.
  rewrite (String_of_N_step n) by lia.
  rewrite (String_of_N_step (n / 10)) by ndiv.
  rewrite (String_of_N_step (n / 10 / 10)) by ndiv.
  rewrite String_of_N_small by ndiv.
  rewrite !N.Div0.div_div. reflexivity.
Qed.

End Decimal.

(** ** The calendar of the local-time getters *)

Section Calendar.

Import Date.
Local Open Scope Z_scope.

Ltac zdiv := Z.to_euclidean_division_equations; lia.

Lemma DayFromYear_succ y : DayFromYear (y + 1) = DayFromYear y + DaysInYear y.
Proof.
  unfold DayFromYear, DaysInYear.
  destruct (Z.eqb_spec (y mod 4) 0); cbn [negb];
    [destruct (Z.eqb_spec (y mod 100) 0); cbn [negb];
       [destruct (Z.eqb_spec (y mod 400) 0); cbn [negb]|]|]; zdiv.
Qed.

Lemma DaysInYear_cases y : DaysInYear y = 365 \/ DaysInYear y = 366.
Proof.
  unfold DaysInYear.
  destruct (negb _); [auto|]. destruct (negb _); [auto|]. destruct (negb _); auto.
Qed.

(** The year of a time is the year in which its day falls. *)
Lemma YearFromTime_spec t :
  DayFromYear (YearFromTime t) <= Day t < DayFromYear (YearFromTime t + 1).
Proof.
  unfold YearFromTime. set (d := Day t). set (y0 := 1970 + 400 * d / 146097).
  assert (Hlow : DayFromYear (y0 - 1) <= d) by (unfold DayFromYear, y0; zdiv).
  assert (Hhigh : d < DayFromYear (y0 + 1 + 1)) by (unfold DayFromYear, y0; zdiv).
  destruct (Z.leb_spec (DayFromYear (y0 + 1)) d); [lia|].
  destruct (Z.leb_spec (DayFromYear y0) d); [lia|].
  replace (y0 - 1 + 1) with y0 by lia. lia.
Qed.

Lemma DayWithinYear_range t :
  0 <= DayWithinYear t < 365 + InLeapYear t.
Proof.
  unfold DayWithinYear, InLeapYear.
  pose proof (YearFromTime_spec t) as H.
  rewrite DayFromYear_succ in H.
  destruct (DaysInYear_cases (YearFromTime t)) as [E|E]; rewrite E in *;
    cbn; lia.
Qed.

Lemma InLeapYear_cases t : InLeapYear t = 0 \/ InLeapYear t = 1.
Proof. unfold InLeapYear. destruct (_ =? _); auto. Qed.

Lemma MonthFromTime_range t : 0 <= MonthFromTime t <= 11.
Proof.
  unfold MonthFromTime.
  repeat (destruct (_ <? _); [lia|]). lia.
Qed.

Lemma DateFromTime_range t : 1 <= DateFromTime t <= 31.
Proof.
  unfold DateFromTime, MonthFromTime.
  pose proof (DayWithinYear_range t) as H. revert H.
  generalize (DayWithinYear t). intros d H.
  destruct (InLeapYear_cases t) as [E|E]; rewrite E in *;
    repeat match goal with
           | |- context [d <? ?x] => destruct (Z.ltb_spec d x); [cbn; lia|]
           end; cbn; lia.
Qed.

Lemma HourFromTime_range t : 0 <= HourFromTime t <= 23.
Proof. unfold HourFromTime. zdiv. Qed.

Lemma MinFromTime_range t : 0 <= MinFromTime t <= 59.
Proof. unfold MinFromTime. zdiv. Qed.

Lemma SecFromTime_range t : 0 <= SecFromTime t <= 59.
Proof. unfold SecFromTime. zdiv. Qed.

End Calendar.

(** ** The order of strings and the latest file *)

Section StringOrder.

Implicit Types a b c : jsstring.

Lemma ltb_irrefl a : ltb a a = false.
Proof.
  induction a as [|x a IH]; [reflexivity|]. cbn.
  rewrite N.ltb_irrefl, N.eqb_refl, IH. reflexivity.
Qed.

Lemma ltb_trans a : forall b c, ltb a b = true -> ltb b c = true -> ltb a c = true.
Proof.
  induction a as [|x a IH]; intros [|y b] [|z c]; cbn; try done.
  intros H1 H2.
  apply orb_prop in H1 as [H1|[H1 H1']%andb_prop];
    apply orb_prop in H2 as [H2|[H2 H2']%andb_prop];
    rewrite ?N.ltb_lt, ?N.eqb_eq in *; apply orb_true_iff.
  - left. apply N.ltb_lt. lia.
  - left. apply N.ltb_lt. lia.
  - left. apply N.ltb_lt. lia.
  - right. apply andb_true_iff. split; [apply N.eqb_eq; lia | eauto].
Qed.

Lemma ltb_trichotomy a : forall b, ltb a b = true \/ a = b \/ ltb b a = true.
Proof.
  induction a as [|x a IH]; intros [|y b]; cbn; auto.
  destruct (N.lt_trichotomy x y) as [H|[->|H]].
  - left. apply orb_true_iff. left. by apply N.ltb_lt.
  - rewrite N.ltb_irrefl, N.eqb_refl. cbn.
    destruct (IH b) as [?|[->|?]]; auto.
  - right. right. apply orb_true_iff. left. by apply N.ltb_lt.
Qed.

Lemma ltb_asym a b : ltb a b = true -> ltb b a = false.
Proof.
  intros H. destruct (ltb b a) eqn:E; [|reflexivity].
  pose proof (ltb_trans _ _ _ H E) as Hc. by rewrite ltb_irrefl in Hc.
Qed.

Lemma leb_refl a : leb a a = true.
Proof. unfold leb. by rewrite ltb_irrefl. Qed.

Lemma leb_total a b : leb a b = true \/ leb b a = true.
Proof.
  unfold leb. destruct (ltb_trichotomy a b) as [H|[->|H]].
  - left. by rewrite (ltb_asym _ _ H).
  - left. by rewrite ltb_irrefl.
  - right. by rewrite (ltb_asym _ _ H).
Qed.

Lemma leb_trans a b c : leb a b = true -> leb b c = true -> leb a c = true.
Proof.
  unfold leb. rewrite !negb_true_iff. intros H1 H2.
  destruct (ltb c a) eqn:E; [|reflexivity].
  destruct (ltb_trichotomy a b) as [H|[->|H]]; [| congruence | congruence].
  pose proof (ltb_trans _ _ _ E H). congruence.
Qed.

Lemma leb_antisym a b : leb a b = true -> leb b a = true -> a = b.
Proof.
  unfold leb. rewrite !negb_true_iff. intros H1 H2.
  destruct (ltb_trichotomy a b) as [H|[->|H]]; congruence.
Qed.

Global Instance leb_Total : Total (fun a b : jsstring => leb a b = true).
Proof. intros a b. apply leb_total. Qed.

Global Instance leb_Transitive : Transitive (fun a b : jsstring => leb a b = true).
Proof. intros a b c. apply leb_trans. Qed.

Lemma elem_of_sort f l : f ∈ sort l <-> f ∈ l.
Proof. unfold sort. by rewrite merge_sort_Permutation. Qed.

Lemma StronglySorted_last (l : list jsstring) f :
  StronglySorted (fun a b => leb a b = true) l ->
  last l = Some f ->
  forall g, g ∈ l -> leb g f = true.
Proof.
  induction 1 as [|x l Hl IH Hx]; [done|].
  intros Hlast g Hg. destruct l as [|y l].
  - injection Hlast as <-. apply list_elem_of_singleton in Hg as ->.
    apply leb_refl.
  - change (last (x :: y :: l)) with (last (y :: l)) in Hlast.
    apply elem_of_cons in Hg as [->|Hg]; [|by apply IH].
    rewrite Forall_forall in Hx. apply Hx.
    apply last_Some_elem_of. exact Hlast.
Qed.

(** The first name after sorting and reversing is the greatest. *)
Lemma head_reverse_sort l f :
  head (reverse (sort l)) = Some f ->
  f ∈ l /\ forall g, g ∈ l -> leb g f = true.
Proof.
  rewrite head_reverse. intros H. split.
  - apply elem_of_sort. by apply last_Some_elem_of.
  - intros g Hg. apply (StronglySorted_last (sort l)); [|done|by apply elem_of_sort].
    apply StronglySorted_merge_sort; apply _.
Qed.

Lemma head_reverse_sort_None l : head (reverse (sort l)) = None <-> l = [].
Proof.
  rewrite head_reverse, last_None. split.
  - intros H. apply Permutation_nil_r. rewrite <- H. unfold sort.
    by rewrite merge_sort_Permutation.
  - intros ->. reflexivity.
Qed.

Lemma elem_of_readdirSync (dir : gmap jsstring FileContent) f :
  f ∈ readdirSync dir <-> is_Some (dir !! f).
Proof.
  unfold readdirSync. rewrite list_elem_of_fmap. split.
  - intros ([g x] & -> & H). apply elem_of_map_to_list in H. by exists x.
  - intros [x H]. exists (f, x). split; [done|]. by apply elem_of_map_to_list.
Qed.

(** [getLatestDataFile]: no result exactly when the directory is
    missing or has no data file; otherwise the data file with the
    greatest name. *)
Lemma getLatestDataFile_Some (dir : gmap jsstring FileContent) f :
  getLatestDataFile (Some dir) = Some f ->
  is_Some (dir !! f) /\ isDataFile f = true
  /\ forall g, is_Some (dir !! g) -> isDataFile g = true -> leb g f = true.
Proof.
  unfold getLatestDataFile. intros [Hf Hmax]%head_reverse_sort.
  apply list_elem_of_filter in Hf as [Hd Hf]. apply elem_of_readdirSync in Hf.
  split; [done|]. split; [done|].
  intros g Hg Hdg. apply Hmax. apply list_elem_of_filter. split; [done|].
  by apply elem_of_readdirSync.
Qed.

Lemma getLatestDataFile_None (dir : gmap jsstring FileContent) :
  getLatestDataFile (Some dir) = None
  <-> forall g, is_Some (dir !! g) -> isDataFile g = false.
Proof.
  unfold getLatestDataFile. rewrite head_reverse_sort_None. split.
  - intros H g Hg. destruct (isDataFile g) eqn:E; [|reflexivity].
    assert (g ∈ filter (fun f => isDataFile f = true) (readdirSync dir)) as Hin.
    { apply list_elem_of_filter. split; [done|]. by apply elem_of_readdirSync. }
    rewrite H in Hin. by apply elem_of_nil in Hin.
  - intros H. apply elem_of_nil_inv. intros g Hg.
    apply list_elem_of_filter in Hg as [Hd Hg]. apply elem_of_readdirSync in Hg.
    apply H in Hg. congruence.
Qed.

End StringOrder.

(** ** Local time and its six fields *)

Section LocalFields.

Import Date.
Local Open Scope Z_scope.

Ltac zdiv := Z.to_euclidean_division_equations; lia.

Lemma DayFromYear_mono y y' : y <= y' -> DayFromYear y <= DayFromYear y'.
Proof. unfold DayFromYear. intros H. zdiv. Qed.

Lemma YearFromTime_mono t1 t2 :
  Day t1 <= Day t2 -> YearFromTime t1 <= YearFromTime t2.
Proof.
  intros H. pose proof (YearFromTime_spec t1). pose proof (YearFromTime_spec t2).
  destruct (Z.le_gt_cases (YearFromTime t1) (YearFromTime t2)) as [|Hgt]; [done|].
  pose proof (DayFromYear_mono (YearFromTime t2 + 1) (YearFromTime t1)). lia.
Qed.

(** The calendar fields are functions of the day. *)
Lemma date_fields_of_Day t1 t2 :
  Day t1 = Day t2 ->
  YearFromTime t1 = YearFromTime t2
  /\ MonthFromTime t1 = MonthFromTime t2
  /\ DateFromTime t1 = DateFromTime t2.
Proof.
  intros H.
  assert (HY : YearFromTime t1 = YearFromTime t2)
    by (unfold YearFromTime; by rewrite H).
  assert (HD : DayWithinYear t1 = DayWithinYear t2)
    by (unfold DayWithinYear; by rewrite H, HY).
  assert (HL : InLeapYear t1 = InLeapYear t2)
    by (unfold InLeapYear; by rewrite HY).
  unfold DateFromTime, MonthFromTime. by rewrite HD, HL.
Qed.

(** A later day has later calendar fields. *)
Lemma date_fields_strict t1 t2 :
  Day t1 < Day t2 ->
  YearFromTime t1 < YearFromTime t2
  \/ (YearFromTime t1 = YearFromTime t2
      /\ (MonthFromTime t1 < MonthFromTime t2
          \/ (MonthFromTime t1 = MonthFromTime t2
              /\ DateFromTime t1 < DateFromTime t2))).
Proof.
  intros H.
  assert (YearFromTime t1 <= YearFromTime t2) as Hle
    by (apply YearFromTime_mono; lia).
  destruct (Z.eq_dec (YearFromTime t1) (YearFromTime t2)) as [HY|]; [|lia].
  right. split; [done|].
  assert (HL : InLeapYear t1 = InLeapYear t2)
    by (unfold InLeapYear; by rewrite HY).
  assert (HD : DayWithinYear t1 < DayWithinYear t2)
    by (unfold DayWithinYear; rewrite HY; lia).
  pose proof (DayWithinYear_range t1) as R1.
  pose proof (DayWithinYear_range t2) as R2.
  unfold DateFromTime, MonthFromTime. rewrite <- HL in *.
  revert HD R1 R2.
  generalize (DayWithinYear t1) (DayWithinYear t2). intros d1 d2 HD R1 R2.
  destruct (InLeapYear_cases t1) as [E|E]; rewrite E in *;
    repeat match goal with
           | |- context [d1 <? ?x] => destruct (Z.ltb_spec d1 x)
           end;
    repeat match goal with
           | |- context [d2 <? ?x] => destruct (Z.ltb_spec d2 x); try lia
           end; cbn; lia.
Qed.

(** Equal calendar fields are the fields of one day. *)
Lemma date_fields_inj t1 t2 :
  YearFromTime t1 = YearFromTime t2 ->
  MonthFromTime t1 = MonthFromTime t2 ->
  DateFromTime t1 = DateFromTime t2 ->
  Day t1 = Day t2.
Proof.
  intros HY HM HD.
  destruct (Z.lt_trichotomy (Day t1) (Day t2)) as [H|[H|H]]; [|done|].
  - apply date_fields_strict in H. lia.
  - apply date_fields_strict in H. lia.
Qed.

(** The second of a time from its day and its clock fields. *)
Lemma second_of_fields t :
  t / msPerSecond
  = 86400 * Day t + 3600 * HourFromTime t + 60 * MinFromTime t + SecFromTime t.
Proof.
  unfold Day, HourFromTime, MinFromTime, SecFromTime,
    msPerDay, msPerHour, msPerMinute, msPerSecond. zdiv.
Qed.

Lemma lex_ltb_cons x y a b :
  lex_ltb (x :: a) (y :: b) = (x <? y) || ((x =? y) && lex_ltb a b).
Proof. reflexivity. Qed.

(** The order of the fields is the order of the seconds. *)
Lemma fieldsOfTime_mono t1 t2 :
  t1 / msPerSecond <= t2 / msPerSecond ->
  lex_ltb (fieldsOfTime t2) (fieldsOfTime t1) = false.
Proof.
  intros H. rewrite !second_of_fields in H.
  pose proof (HourFromTime_range t1). pose proof (HourFromTime_range t2).
  pose proof (MinFromTime_range t1). pose proof (MinFromTime_range t2).
  pose proof (SecFromTime_range t1). pose proof (SecFromTime_range t2).
  unfold fieldsOfTime.
  destruct (Z.lt_trichotomy (Day t1) (Day t2)) as [HD|[HD|HD]]; [| |lia].
  - apply date_fields_strict in HD. cbn [lex_ltb].
    destruct (Z.ltb_spec (YearFromTime t2) (YearFromTime t1)); [lia|].
    destruct (Z.eqb_spec (YearFromTime t2) (YearFromTime t1)); [|reflexivity].
    destruct (Z.ltb_spec (MonthFromTime t2) (MonthFromTime t1)); [lia|].
    destruct (Z.eqb_spec (MonthFromTime t2) (MonthFromTime t1)); [|reflexivity].
    destruct (Z.ltb_spec (DateFromTime t2) (DateFromTime t1)); [lia|].
    destruct (Z.eqb_spec (DateFromTime t2) (DateFromTime t1)); [lia|reflexivity].
  - destruct (date_fields_of_Day _ _ HD) as (-> & -> & ->).
    rewrite HD in H. cbn [lex_ltb].
    rewrite !Z.ltb_irrefl, !Z.eqb_refl. cbn [orb andb].
    destruct (Z.ltb_spec (HourFromTime t2) (HourFromTime t1)); [lia|].
    destruct (Z.eqb_spec (HourFromTime t2) (HourFromTime t1)); [|reflexivity].
    destruct (Z.ltb_spec (MinFromTime t2) (MinFromTime t1)); [lia|].
    destruct (Z.eqb_spec (MinFromTime t2) (MinFromTime t1)); [|reflexivity].
    destruct (Z.ltb_spec (SecFromTime t2) (SecFromTime t1)); [lia|].
    destruct (Z.eqb_spec (SecFromTime t2) (SecFromTime t1)); reflexivity.
Qed.

Lemma fieldsOfTime_inj t1 t2 :
  fieldsOfTime t1 = fieldsOfTime t2 -> t1 / msPerSecond = t2 / msPerSecond.
Proof.
  unfold fieldsOfTime. intros [= HY HM HD Hh Hm Hs].
  rewrite !second_of_fields, Hh, Hm, Hs.
  rewrite (date_fields_inj t1 t2) by done. reflexivity.
Qed.

Lemma fieldsOfTime_second t1 t2 :
  t1 / msPerSecond = t2 / msPerSecond -> fieldsOfTime t1 = fieldsOfTime t2.
Proof.
  intros H. pose proof H as H'. rewrite !second_of_fields in H'.
  pose proof (HourFromTime_range t1). pose proof (HourFromTime_range t2).
  pose proof (MinFromTime_range t1). pose proof (MinFromTime_range t2).
  pose proof (SecFromTime_range t1). pose proof (SecFromTime_range t2).
  assert (HD : Day t1 = Day t2) by lia.
  destruct (date_fields_of_Day _ _ HD) as (HY & HM & HDt).
  assert (Hh : HourFromTime t1 = HourFromTime t2) by lia.
  assert (Hm : MinFromTime t1 = MinFromTime t2) by lia.
  assert (Hs : SecFromTime t1 = SecFromTime t2) by lia.
  unfold fieldsOfTime. by rewrite HY, HM, HDt, Hh, Hm, Hs.
Qed.

Lemma lex_ltb_trichotomy (a : list Z) : forall b,
  length a = length b ->
  lex_ltb a b = true \/ a = b \/ lex_ltb b a = true.
Proof.
  induction a as [|x a IH]; intros [|y b] Hlen; try discriminate; [auto|].
  cbn [lex_ltb]. injection Hlen as Hlen.
  destruct (Z.ltb_spec x y); [auto|]. destruct (Z.ltb_spec y x); [auto|].
  assert (x = y) as -> by lia. rewrite Z.eqb_refl. cbn [orb andb].
  destruct (IH b Hlen) as [?|[->|?]]; auto.
Qed.

Lemma fieldsOfTime_ltb t1 t2 :
  lex_ltb (fieldsOfTime t1) (fieldsOfTime t2)
  = (t1 / msPerSecond <? t2 / msPerSecond).
Proof.
  destruct (Z.ltb_spec (t1 / msPerSecond) (t2 / msPerSecond)) as [H|H].
  - destruct (lex_ltb_trichotomy (fieldsOfTime t1) (fieldsOfTime t2) eq_refl)
      as [?|[E|E]]; [done| |].
    + apply fieldsOfTime_inj in E. lia.
    + rewrite fieldsOfTime_mono in E by lia. discriminate.
  - by apply fieldsOfTime_mono.
Qed.

Lemma localFields_fieldsOfTime d : localFields d = fieldsOfTime (LocalTime d).
Proof. reflexivity. Qed.


Lemma localFields_ltb a b :
  lex_ltb (localFields a) (localFields b) = (localSecond a <? localSecond b).
Proof. rewrite !localFields_fieldsOfTime. apply fieldsOfTime_ltb. Qed.

End LocalFields.

(** ** The names of the stored files *)

Section FileNames.

Import Date.

Ltac ndiv := zify; Z.to_euclidean_division_equations; lia.

(** The time stamp, field by field. *)
Lemma saveTimestamp_form now :
  saveTimestamp now
  = String_of_Z (getFullYear now) ++
    45 :: two (getMonth now + 1) ++ 45 :: two (getDate now) ++
    84 :: two (getHours now) ++ 45 :: two (getMinutes now) ++
    45 :: two (getSeconds now).
Proof.
  unfold saveTimestamp.
  pose proof (MonthFromTime_range (LocalTime now)).
  pose proof (DateFromTime_range (LocalTime now)).
  pose proof (HourFromTime_range (LocalTime now)).
  pose proof (MinFromTime_range (LocalTime now)).
  pose proof (SecFromTime_range (LocalTime now)).
  unfold getMonth, getDate, getHours, getMinutes, getSeconds.
  rewrite !pad2 by lia. reflexivity.
Qed.

Lemma saveFilename_form now :
  saveFilename now
  = FILE_PREFIX ++ String_of_Z (getFullYear now) ++
    45 :: two (getMonth now + 1) ++ 45 :: two (getDate now) ++
    84 :: two (getHours now) ++ 45 :: two (getMinutes now) ++
    45 :: two (getSeconds now) ++ FILE_SUFFIX.
Proof.
  unfold saveFilename. rewrite saveTimestamp_form, <- !app_assoc. reflexivity.
Qed.






Lemma startsWith_app p l : startsWith (p ++ l) p = true.
Proof.
  induction p as [|x p IH]; [reflexivity|]. cbn. by rewrite N.eqb_refl, IH.
Qed.

Lemma isDataFile_saveFilename now : isDataFile (saveFilename now) = true.
Proof.
  unfold isDataFile, saveFilename. apply andb_true_intro. split.
  - apply startsWith_app.
  - unfold endsWith. rewrite app_assoc, reverse_app. apply startsWith_app.
Qed.

Lemma ltb_app_same p a b : ltb (p ++ a) (p ++ b) = ltb a b.
Proof.
  induction p as [|x p IH]; [reflexivity|]. cbn.
  by rewrite N.ltb_irrefl, N.eqb_refl, IH.
Qed.

Lemma ltb_cons_same x a b : ltb (x :: a) (x :: b) = ltb a b.
Proof. apply (ltb_app_same [x]). Qed.

Lemma ltb_two x y r1 r2 :
  (0 <= x < 100)%Z -> (0 <= y < 100)%Z ->
  ltb (two x ++ r1) (two y ++ r2) = (x <? y)%Z || ((x =? y)%Z && ltb r1 r2).
Proof.
  intros Hx Hy. unfold two. cbn [app ltb].
  destruct (Z.ltb_spec x y), (Z.eqb_spec x y); try lia; cbn [orb andb].
  - destruct (N.ltb_spec (48 + Z.to_N x / 10) (48 + Z.to_N y / 10));
      [reflexivity|].
    destruct (N.eqb_spec (48 + Z.to_N x / 10) (48 + Z.to_N y / 10)); [|ndiv].
    destruct (N.ltb_spec (48 + Z.to_N x mod 10) (48 + Z.to_N y mod 10));
      [reflexivity | ndiv].
  - subst y. by rewrite !N.ltb_irrefl, !N.eqb_refl.
  - destruct (N.ltb_spec (48 + Z.to_N x / 10) (48 + Z.to_N y / 10)); [ndiv|].
    destruct (N.eqb_spec (48 + Z.to_N x / 10) (48 + Z.to_N y / 10));
      [|reflexivity].
    destruct (N.ltb_spec (48 + Z.to_N x mod 10) (48 + Z.to_N y mod 10)); [ndiv|].
    destruct (N.eqb_spec (48 + Z.to_N x mod 10) (48 + Z.to_N y mod 10)); [ndiv|].
    reflexivity.
Qed.

Lemma ltb_year4 x y r1 r2 :
  (1000 <= x <= 9999)%Z -> (1000 <= y <= 9999)%Z ->
  ltb (String_of_Z x ++ r1) (String_of_Z y ++ r2)
  = (x <? y)%Z || ((x =? y)%Z && ltb r1 r2).
Proof.
  intros Hx Hy. rewrite !year4 by done.
  change [?a; ?b; ?c; ?d] with ([a; b] ++ [c; d]). rewrite <- !app_assoc.
  set (hx := (x / 100)%Z). set (lx := (x mod 100)%Z).
  set (hy := (y / 100)%Z). set (ly := (y mod 100)%Z).
  assert (Hhx : [48 + Z.to_N x / 1000; 48 + Z.to_N x / 100 mod 10] = two hx)
    by (unfold two, hx; do 2 f_equal; ndiv).
  assert (Hlx : [48 + Z.to_N x / 10 mod 10; 48 + Z.to_N x mod 10] = two lx)
    by (unfold two, lx; do 2 f_equal; ndiv).
  assert (Hhy : [48 + Z.to_N y / 1000; 48 + Z.to_N y / 100 mod 10] = two hy)
    by (unfold two, hy; do 2 f_equal; ndiv).
  assert (Hly : [48 + Z.to_N y / 10 mod 10; 48 + Z.to_N y mod 10] = two ly)
    by (unfold two, ly; do 2 f_equal; ndiv).
  rewrite Hhx, Hlx, Hhy, Hly.
  rewrite !ltb_two by (unfold hx, lx, hy, ly; ndiv).
  subst hx lx hy ly.
  destruct (Z.ltb_spec (x / 100) (y / 100)), (Z.eqb_spec (x / 100) (y / 100)),
    (Z.ltb_spec (x mod 100) (y mod 100)), (Z.eqb_spec (x mod 100) (y mod 100)),
    (Z.ltb_spec x y), (Z.eqb_spec x y); cbn [orb andb]; try reflexivity; ndiv.
Qed.

(** For years of four digits the order of the names is the order of the
    fields. *)
Lemma saveFilename_ltb a b :
  (1000 <= getFullYear a <= 9999)%Z -> (1000 <= getFullYear b <= 9999)%Z ->
  ltb (saveFilename a) (saveFilename b)
  = lex_ltb (localFields a) (localFields b).
Proof.
  intros Ha Hb. rewrite !saveFilename_form, ltb_app_same.
  pose proof (MonthFromTime_range (LocalTime a)).
  pose proof (DateFromTime_range (LocalTime a)).
  pose proof (HourFromTime_range (LocalTime a)).
  pose proof (MinFromTime_range (LocalTime a)).
  pose proof (SecFromTime_range (LocalTime a)).
  pose proof (MonthFromTime_range (LocalTime b)).
  pose proof (DateFromTime_range (LocalTime b)).
  pose proof (HourFromTime_range (LocalTime b)).
  pose proof (MinFromTime_range (LocalTime b)).
  pose proof (SecFromTime_range (LocalTime b)).
  rewrite ltb_year4 by done.
  unfold getMonth, getDate, getHours, getMinutes, getSeconds in *.
  rewrite ltb_cons_same, ltb_two by lia.
  rewrite ltb_cons_same, ltb_two by lia.
  rewrite ltb_cons_same, ltb_two by lia.
  rewrite ltb_cons_same, ltb_two by lia.
  rewrite ltb_cons_same, ltb_two by lia.
  rewrite ltb_irrefl.
  unfold localFields, getFullYear, getMonth, getDate, getHours, getMinutes,
    getSeconds. cbn [lex_ltb].
  replace (MonthFromTime (LocalTime a) + 1 <? MonthFromTime (LocalTime b) + 1)%Z
    with (MonthFromTime (LocalTime a) <? MonthFromTime (LocalTime b))%Z
    by (destruct (Z.ltb_spec (MonthFromTime (LocalTime a))
                             (MonthFromTime (LocalTime b)));
        symmetry; [apply Z.ltb_lt | apply Z.ltb_ge]; lia).
  replace (MonthFromTime (LocalTime a) + 1 =? MonthFromTime (LocalTime b) + 1)%Z
    with (MonthFromTime (LocalTime a) =? MonthFromTime (LocalTime b))%Z
    by (destruct (Z.eqb_spec (MonthFromTime (LocalTime a))
                             (MonthFromTime (LocalTime b)));
        symmetry; [apply Z.eqb_eq | apply Z.eqb_neq]; lia).
  reflexivity.
Qed.

(** For years of four digits the order of the names is the order of the
    seconds of local time. *)
Lemma saveFilename_ltb_second a b :
  (1000 <= getFullYear a <= 9999)%Z -> (1000 <= getFullYear b <= 9999)%Z ->
  ltb (saveFilename a) (saveFilename b) = (localSecond a <? localSecond b)%Z.
Proof. intros Ha Hb. by rewrite saveFilename_ltb, localFields_ltb. Qed.

End FileNames.

(** ** The snapshot store *)

Section Store.

Import Date.

Implicit Types dir : gmap jsstring FileContent.

Lemma saveData_Return now dir data :
  saveData now None dir data
  = Return (<[saveFilename now := JsonOf data]> dir, saveFilename now).
Proof. reflexivity. Qed.

(** The directory is a map: a write under a name in use replaces the
    content of that file. *)
Lemma saveData_replaces now dir data old :
  dir !! saveFilename now = Some old ->
  exists dir', saveData now None dir data = Return (dir', saveFilename now)
    /\ dir' !! saveFilename now = Some (JsonOf data)
    /\ size dir' = size dir.
Proof.
  intros H. eexists. split; [apply saveData_Return|]. split.
  - apply lookup_insert_eq.
  - apply map_size_insert_Some. by rewrite H.
Qed.




(** Captures at least one second apart under one offset of the time
    zone fall in different seconds of local time, in their order. *)
Lemma localSecond_mono a b :
  LocalTZA a (timeValue a) = LocalTZA b (timeValue b) ->
  (timeValue a + 1000 <= timeValue b)%Z ->
  (localSecond a < localSecond b)%Z.
Proof.
  unfold localSecond, LocalTime, msPerSecond. intros -> H.
  Z.to_euclidean_division_equations. lia.
Qed.

(** C5 as the code has it.  [getLatestDataFile] answers [null] when
    the directory is missing or holds no data file.  Otherwise, for
    every directory, it answers the data file with the greatest name in
    the order of [sort()].  When the data files were named by
    [saveData] at the given writes, in years of four digits, that is
    the file of the latest second of local time among them, which is
    the latest capture among writes at least one second apart under one
    offset of the time zone. *)
Theorem getLatestDataFile_latest_local_second dir (writes : list Date) :
  getLatestDataFile None = None
  /\ (getLatestDataFile (Some dir) = None
      <-> forall g, is_Some (dir !! g) -> isDataFile g = false)
  /\ (forall f, getLatestDataFile (Some dir) = Some f ->
        is_Some (dir !! f) /\ isDataFile f = true
        /\ forall g, is_Some (dir !! g) -> isDataFile g = true ->
                     leb g f = true)
  /\ ((forall g, is_Some (dir !! g) -> isDataFile g = true ->
                 exists w, w ∈ writes /\ g = saveFilename w) ->
      (forall w, w ∈ writes -> (1000 <= getFullYear w <= 9999)%Z) ->
      forall f, getLatestDataFile (Some dir) = Some f ->
        exists w, w ∈ writes /\ f = saveFilename w /\ is_Some (dir !! f)
          /\ (forall w', w' ∈ writes -> is_Some (dir !! saveFilename w') ->
                (localSecond w' <= localSecond w)%Z)
          /\ (forall w', w' ∈ writes -> is_Some (dir !! saveFilename w') ->
                LocalTZA w' (timeValue w') = LocalTZA w (timeValue w) ->
                (timeValue w' < timeValue w + 1000)%Z)).
Proof.
  split; [reflexivity|].
  split; [apply getLatestDataFile_None|].
  split; [intros f; apply getLatestDataFile_Some|].
  intros Hnames Hyears.
  intros f (Hf & Hd & Hmax)%getLatestDataFile_Some.
  destruct (Hnames f Hf Hd) as (w & Hw & ->).
  exists w. split; [done|]. split; [done|]. split; [done|].
  assert (Hsec : forall w', w' ∈ writes -> is_Some (dir !! saveFilename w') ->
                            (localSecond w' <= localSecond w)%Z).
  { intros w' Hw' Hin.
    specialize (Hmax _ Hin (isDataFile_saveFilename w')).
    unfold leb in Hmax. apply negb_true_iff in Hmax.
    rewrite saveFilename_ltb_second in Hmax by auto.
    by apply Z.ltb_ge in Hmax. }
  split; [exact Hsec|].
  intros w' Hw' Hin Htz.
  destruct (Z.lt_ge_cases (timeValue w') (timeValue w + 1000)) as [|Hge]; [done|].
  apply (localSecond_mono w w') in Hge; [|done].
  specialize (Hsec w' Hw' Hin). lia.
Qed.

(** The data file above all the data files is the latest. *)
Lemma getLatestDataFile_greatest dir f :
  is_Some (dir !! f) -> isDataFile f = true ->
  (forall g, is_Some (dir !! g) -> isDataFile g = true -> leb g f = true) ->
  getLatestDataFile (Some dir) = Some f.
Proof.
  intros Hf Hd Hmax.
  destruct (getLatestDataFile (Some dir)) as [f'|] eqn:E.
  - apply getLatestDataFile_Some in E as (Hf' & Hd' & Hmax').
    f_equal. apply leb_antisym; auto.
  - rewrite getLatestDataFile_None in E. apply E in Hf. congruence.
Qed.

Lemma lookup_two_files dir_names (n1 n2 g : jsstring) (c1 c2 : FileContent) :
  dir_names = <[n2 := c2]> (<[n1 := c1]> (∅ : gmap jsstring FileContent)) ->
  is_Some (dir_names !! g) -> g = n1 \/ g = n2.
Proof.
  intros -> [x Hx].
  destruct (decide (n2 = g)) as [|Hne2]; [auto|].
  rewrite lookup_insert_ne in Hx by done.
  destruct (decide (n1 = g)) as [|Hne1]; [auto|].
  rewrite lookup_insert_ne in Hx by done. by rewrite lookup_empty in Hx.
Qed.

(** C5 fails as stated.  A capture at 00:30 UTC (02:30 local, summer
    time) is followed by a capture at 01:15 UTC (02:15 local, winter
    time); the latest file is the one of the older capture. *)
Lemma latest_is_not_most_recent :
  let first := warsawClock 1761438600000 in
  let second := warsawClock 1761441300000 in
  (timeValue first < timeValue second)%Z
  /\ exists dir1 name1 dir2 name2,
       saveData first None ∅ olderSnapshot = Return (dir1, name1)
       /\ saveData second None dir1 newerSnapshot = Return (dir2, name2)
       /\ getLatestDataFile (Some dir2) = Some name1
       /\ forall enoent,
            readSnapshot enoent dir2 name1 = Return (toJson olderSnapshot).
Proof.
  intros first second. split; [reflexivity|].
  eexists _, _, _, _. split; [apply saveData_Return|].
  split; [apply saveData_Return|].
  assert (Hne : saveFilename second <> saveFilename first)
    by (vm_compute; discriminate).
  split.
  - apply getLatestDataFile_greatest.
    + rewrite lookup_insert_ne, lookup_insert_eq by done. eauto.
    + apply isDataFile_saveFilename.
    + intros g Hg _.
      eapply lookup_two_files in Hg as [->| ->]; [..|reflexivity].
      * apply leb_refl.
      * vm_compute. reflexivity.
  - intros enoent. unfold readSnapshot.
    rewrite lookup_insert_ne, lookup_insert_eq by done. reflexivity.
Qed.

Lemma getLatestDataFile_latest_local_second_witness :
  let w1 := warsawClock 1761435000000 in
  let w2 := warsawClock 1761438600000 in
  let dir := <[saveFilename w2 := JsonOf newerSnapshot]>
               (<[saveFilename w1 := JsonOf olderSnapshot]>
                  (∅ : gmap jsstring FileContent)) in
  getLatestDataFile (Some dir) = Some (saveFilename w2)
  /\ exists w, w ∈ [w1; w2] /\ saveFilename w2 = saveFilename w
       /\ (forall w', w' ∈ [w1; w2] -> is_Some (dir !! saveFilename w') ->
             (localSecond w' <= localSecond w)%Z).
Proof.
  intros w1 w2 dir.
  assert (Hnames : forall g, is_Some (dir !! g) -> isDataFile g = true ->
                     exists w, w ∈ [w1; w2] /\ g = saveFilename w).
  { intros g Hg _. eapply lookup_two_files in Hg as [->| ->]; [..|reflexivity].
    - exists w1. split; [apply list_elem_of_here | reflexivity].
    - exists w2. split; [apply list_elem_of_further, list_elem_of_here | reflexivity]. }
  assert (Hyears : forall w, w ∈ [w1; w2] -> (1000 <= getFullYear w <= 9999)%Z).
  { intros w Hw. apply elem_of_cons in Hw as [->|Hw];
      [|apply list_elem_of_singleton in Hw as ->]; vm_compute; split; discriminate. }
  assert (Hlatest : getLatestDataFile (Some dir) = Some (saveFilename w2)).
  { apply getLatestDataFile_greatest.
    - unfold dir. rewrite lookup_insert_eq. eauto.
    - apply isDataFile_saveFilename.
    - intros g Hg _. eapply lookup_two_files in Hg as [->| ->]; [..|reflexivity].
      + vm_compute. reflexivity.
      + apply leb_refl. }
  split; [exact Hlatest|].
  destruct (getLatestDataFile_latest_local_second dir [w1; w2])
    as (_ & _ & _ & H).
  destruct (H Hnames Hyears _ Hlatest) as (w & Hw & Hf & _ & Hsec & _).
  exists w. auto.
Defined.

End Store.

(** ** The report builder *)

Section Report.

Implicit Types previousData currentData : ScrapedData.

Lemma includes_app a p b : includes (a ++ p ++ b) p = true.
Proof.
  induction a as [|x a IH].
  - destruct (p ++ b) eqn:E; cbn [app includes]; rewrite <- ?E.
    + destruct p; [reflexivity | discriminate].
    + by rewrite startsWith_app.
  - cbn [app includes]. rewrite IH. apply orb_true_r.
Qed.

(** Missing or empty tables are shown by the placeholder. *)
Lemma formatTablesForEmail_placeholder (ts : option (list (list (list jsstring)))) :
  orEmpty ts = [] -> formatTablesForEmail (Some (orEmpty ts)) = NO_TABLE_DATA.
Proof. by intros ->. Qed.

Lemma tableSection_placeholder previousData currentData :
  orEmpty (tables (fields previousData)) = [] ->
  tableSection previousData currentData
  = js "<h3>Table Changes:</h3>" ++ js "<h4>Previous Data:</h4>" ++
    NO_TABLE_DATA ++ js "<h4>Current Data:</h4>" ++
    formatTablesForEmail (Some (orEmpty (tables (fields currentData)))).
Proof. unfold tableSection. by intros ->. Qed.

(** Missing or empty numbers are shown by nothing: the paragraph ends
    after its label. *)
Lemma numberSection_empty previousData currentData :
  orEmpty (numbers (fields previousData)) = [] ->
  numberSection previousData currentData
  = js "<h3>Number/Date Changes:</h3>" ++
    js "<p><strong>Previous:</strong> </p>" ++
    js "<p><strong>Current:</strong> " ++
    join (js ", ") (orEmpty (numbers (fields currentData))) ++ js "</p>".
Proof. unfold numberSection. by intros ->. Qed.

End Report.

(** With a table change, missing or empty previous tables are shown by
    the placeholder in the report. *)
Lemma detailed_report_table_placeholder c localeNow ch
    (previousData currentData : ScrapedData) :
  orEmpty (tables (fields previousData)) = [] ->
  array_includes ch TABLE_CHANGED = true ->
  includes (createDetailedEmailContent c localeNow ch previousData currentData)
           (js "<h4>Previous Data:</h4>" ++ NO_TABLE_DATA) = true.
Proof.
  intros Ht Hch.
  unfold createDetailedEmailContent. rewrite Hch.
  rewrite tableSection_placeholder by done.
  destruct (array_includes ch NUMBERS_CHANGED).
  - rewrite <- !app_assoc.
    repeat (rewrite (app_assoc _ _ (js "<h4>Previous Data:</h4>" ++ _))).
    rewrite (app_assoc (js "<h4>Previous Data:</h4>") NO_TABLE_DATA).
    apply includes_app.
  - rewrite <- !app_assoc.
    repeat (rewrite (app_assoc _ _ (js "<h4>Previous Data:</h4>" ++ _))).
    rewrite (app_assoc (js "<h4>Previous Data:</h4>") NO_TABLE_DATA).
    apply includes_app.
Qed.

(** C7 on the code.  With a number change and no previous numbers the
    report shows the bare label [Previous:] followed by nothing; it
    holds no placeholder, as the table section would. *)
Theorem detailed_report_empty_numbers :
  let c := sampleChecker true in
  let changes := compareData snapshotWithoutNumbers newerSnapshot in
  let report :=
    createDetailedEmailContent c (js "26.10.2025, 02:30:00") changes
      snapshotWithoutNumbers newerSnapshot in
  changes = [MAIN_CHANGED; NUMBERS_CHANGED]
  /\ numbers (fields snapshotWithoutNumbers) = Some []
  /\ includes report (js "<h3>Number/Date Changes:</h3>") = true
  /\ includes report (js "<p><strong>Previous:</strong> </p>") = true
  /\ includes report (js "<p><strong>Current:</strong> 2</p>") = true
  /\ includes report (js "No ") = false.
Proof. intros c changes report. repeat split; vm_compute; reflexivity. Qed.


(** ** The value of a snapshot *)

(** On the value of a snapshot the operations on any value are the
    operations on the snapshot. *)
Section SnapshotValue.

Implicit Types (d previousData currentData : ScrapedData).

Lemma collect_Some {A} (l : list A) : Value.collect (Some <$> l) = Some l.
Proof. induction l as [|x l IH]; [reflexivity|]. cbn. by rewrite IH. Qed.

Lemma stringify_ofStrings (l : list jsstring) :
  Value.stringify (Value.ofStrings l) = JSON.stringify_strings l.
Proof.
  unfold Value.ofStrings, JSON.stringify_strings. cbn [Value.stringify].
  f_equal. induction l as [|x l IH]; [reflexivity|]. cbn. by rewrite IH.
Qed.

Lemma stringify_ofRows (t : list (list jsstring)) :
  Value.stringify (Value.ofRows t) = JSON.stringify_rows t.
Proof.
  unfold Value.ofRows, JSON.stringify_rows.
  change (Value.stringify (Value.JArray ?items))
    with (JSON.array (List.map Value.stringify items)).
  f_equal. induction t as [|x t IH]; [reflexivity|].
  cbn [fmap list_fmap List.map]. by rewrite stringify_ofStrings, IH.
Qed.

Lemma stringify_ofTables (ts : list (list (list jsstring))) :
  Value.stringify (Value.ofTables ts) = JSON.stringify_tables ts.
Proof.
  unfold Value.ofTables, JSON.stringify_tables.
  change (Value.stringify (Value.JArray ?items))
    with (JSON.array (List.map Value.stringify items)).
  f_equal. induction ts as [|x ts IH]; [reflexivity|].
  cbn [fmap list_fmap List.map]. by rewrite stringify_ofRows, IH.
Qed.

Lemma ToBoolean_toJson d : Value.ToBoolean (toJson d) = true.
Proof. reflexivity. Qed.

Lemma get_mainText_toJson d :
  Value.get (js "mainText") (toJson d) = Some (Value.JString (mainText d)).
Proof. reflexivity. Qed.

Lemma get_url_toJson d :
  Value.get (js "url") (toJson d) = Some (Value.JString (url d)).
Proof. reflexivity. Qed.

Lemma get_timestamp_toJson d :
  Value.get (js "timestamp") (toJson d) = Some (Value.JString (timestamp d)).
Proof. reflexivity. Qed.

(** The tables and the numbers of the value, after [|| []]. *)
Lemma tables_toJson d :
  exists fieldsValue,
    Value.member (js "fields") (Some (toJson d)) = Some fieldsValue
    /\ (exists tablesValue,
          Value.member (js "tables") fieldsValue = Some tablesValue
          /\ Value.orEmptyArray tablesValue
             = Value.ofTables (orEmpty (tables (fields d))))
    /\ (exists numbersValue,
          Value.member (js "numbers") fieldsValue = Some numbersValue
          /\ Value.orEmptyArray numbersValue
             = Value.ofStrings (orEmpty (numbers (fields d)))).
Proof.
  unfold toJson.
  destruct (tables (fields d)) as [ts|], (numbers (fields d)) as [ns|];
    (eexists; split; [reflexivity|]);
    (split; eexists; (split; [reflexivity|])); reflexivity.
Qed.

(** The value tells the snapshot. *)
Lemma JString_fmap_inj (l l' : list jsstring) :
  Value.JString <$> l = Value.JString <$> l' -> l = l'.
Proof.
  revert l'. induction l as [|x l IH]; intros [|y l']; cbn; try discriminate; [done|].
  intros [= -> H]. f_equal. by apply IH.
Qed.

Lemma ofStrings_fmap_inj (t t' : list (list jsstring)) :
  Value.ofStrings <$> t = Value.ofStrings <$> t' -> t = t'.
Proof.
  revert t'. induction t as [|x t IH]; intros [|y t']; cbn; try discriminate; [done|].
  unfold Value.ofStrings at 1 3. intros [= Hx H].
  f_equal; [by apply JString_fmap_inj | by apply IH].
Qed.

Lemma ofRows_fmap_inj (ts ts' : list (list (list jsstring))) :
  Value.ofRows <$> ts = Value.ofRows <$> ts' -> ts = ts'.
Proof.
  revert ts'. induction ts as [|x ts IH]; intros [|y ts']; cbn; try discriminate;
    [done|].
  unfold Value.ofRows at 1 3. intros [= Hx H].
  f_equal; [by apply ofStrings_fmap_inj | by apply IH].
Qed.

Lemma get_elementText_toJson d :
  Value.get (js "elementText") (toJson d) = Some (Value.JString (elementText d)).
Proof. reflexivity. Qed.

Lemma get_tables_toJson d :
  Value.get (js "fields") (toJson d) ≫= Value.get (js "tables")
  = Value.ofTables <$> tables (fields d).
Proof.
  unfold toJson. by destruct (tables (fields d)), (numbers (fields d)).
Qed.

Lemma get_numbers_toJson d :
  Value.get (js "fields") (toJson d) ≫= Value.get (js "numbers")
  = Value.ofStrings <$> numbers (fields d).
Proof.
  unfold toJson. by destruct (tables (fields d)), (numbers (fields d)).
Qed.

Lemma toJson_inj d d' : toJson d = toJson d' -> d = d'.
Proof.
  intros H.
  pose proof (f_equal (Value.get (js "mainText")) H) as Hm.
  pose proof (f_equal (Value.get (js "url")) H) as Hu.
  pose proof (f_equal (Value.get (js "timestamp")) H) as Hs.
  pose proof (f_equal (Value.get (js "elementText")) H) as He.
  pose proof (f_equal (fun v => Value.get (js "fields") v ≫= Value.get (js "tables")) H)
    as Ht.
  pose proof (f_equal (fun v => Value.get (js "fields") v ≫= Value.get (js "numbers")) H)
    as Hn.
  cbv beta in Ht, Hn.
  rewrite !get_mainText_toJson in Hm. rewrite !get_url_toJson in Hu.
  rewrite !get_timestamp_toJson in Hs. rewrite !get_elementText_toJson in He.
  rewrite !get_tables_toJson in Ht. rewrite !get_numbers_toJson in Hn.
  clear H.
  destruct d as [m [t n] u s e], d' as [m' [t' n'] u' s' e'].
  cbn [mainText fields url timestamp elementText tables numbers] in *.
  injection Hm as ->. injection Hu as ->. injection Hs as ->. injection He as ->.
  assert (t = t') as ->.
  { destruct t as [t|], t' as [t'|]; cbn in Ht; try discriminate Ht; [|done].
    unfold Value.ofTables in Ht. injection Ht as Ht.
    by apply ofRows_fmap_inj in Ht as ->. }
  assert (n = n') as ->.
  { destruct n as [n|], n' as [n'|]; cbn in Hn; try discriminate Hn; [|done].
    unfold Value.ofStrings in Hn. injection Hn as Hn.
    by apply JString_fmap_inj in Hn as ->. }
  reflexivity.
Qed.

(** The differ. *)
Lemma compareDataAny_toJson typeError previousData currentData :
  compareDataAny typeError (toJson previousData) currentData
  = Return (compareData previousData currentData).
Proof.
  unfold compareDataAny, compareData.
  destruct (tables_toJson previousData)
    as (fieldsValue & -> & (tv & -> & ->) & (nv & -> & ->)).
  rewrite get_mainText_toJson, stringify_ofTables, stringify_ofStrings.
  reflexivity.
Qed.

(** The report. *)
Lemma cellsOf_ofStrings (row : list jsstring) :
  cellsOf (Value.ofStrings row) = Some row.
Proof.
  unfold cellsOf, Value.ofStrings. cbn [Value.elements mbind option_bind].
  rewrite <- list_fmap_compose. apply collect_Some.
Qed.

Lemma rowsOf_ofRows (table : list (list jsstring)) :
  rowsOf (Value.ofRows table) = Some table.
Proof.
  unfold rowsOf, Value.ofRows. cbn [Value.elements mbind option_bind].
  rewrite <- list_fmap_compose.
  rewrite (list_fmap_ext _ Some table) by (intros; apply cellsOf_ofStrings).
  apply collect_Some.
Qed.

Lemma tablesOf_ofTables (ts : list (list (list jsstring))) :
  tablesOf (Value.ofTables ts) = Some ts.
Proof.
  unfold tablesOf, Value.ofTables. cbn [Value.elements mbind option_bind].
  rewrite <- list_fmap_compose.
  rewrite (list_fmap_ext _ Some ts) by (intros; apply rowsOf_ofRows).
  apply collect_Some.
Qed.

Lemma formatTablesAny_ofTables (ts : list (list (list jsstring))) :
  formatTablesAny (Value.ofTables ts) = Some (formatTablesForEmail (Some ts)).
Proof.
  unfold formatTablesAny, formatTablesForEmail.
  change (Value.ToBoolean (Value.ofTables ts)) with true.
  change (Value.lengthIsZero (Value.ofTables ts))
    with (length (Value.ofRows <$> ts) =? 0)%nat.
  rewrite length_fmap. cbn [negb orb].
  destruct (length ts =? 0)%nat; [reflexivity|].
  by rewrite tablesOf_ofTables.
Qed.

Lemma joinElements_strings sep (l : list jsstring) :
  Value.joinElements sep (Value.JString <$> l) = Some (join sep l).
Proof.
  unfold Value.joinElements.
  replace (List.map _ (Value.JString <$> l)) with (Some <$> l).
  - by rewrite collect_Some.
  - induction l as [|x l IH]; [reflexivity|]. cbn. by rewrite IH.
Qed.

Lemma tableSectionAny_toJson previousData currentData :
  tableSectionAny (toJson previousData) currentData
  = Some (tableSection previousData currentData).
Proof.
  unfold tableSectionAny, tableSection.
  destruct (tables_toJson previousData) as (fieldsValue & Hf & (tv & Ht & Hv) & _).
  rewrite Hf. cbn [mbind option_bind]. rewrite Ht. cbn [mbind option_bind].
  rewrite Hv, formatTablesAny_ofTables. reflexivity.
Qed.

Lemma numberSectionAny_toJson previousData currentData :
  numberSectionAny (toJson previousData) currentData
  = Some (numberSection previousData currentData).
Proof.
  unfold numberSectionAny, numberSection.
  destruct (tables_toJson previousData) as (fieldsValue & Hf & _ & (nv & Hn & Hv)).
  rewrite Hf. cbn [mbind option_bind]. rewrite Hn. cbn [mbind option_bind].
  rewrite Hv. cbn [mbind option_bind Value.elements Value.ofStrings].
  rewrite joinElements_strings. reflexivity.
Qed.

Lemma createDetailedEmailContent_parts c localeNow changes previousData currentData :
  createDetailedEmailContent c localeNow changes previousData currentData
  = reportHead c localeNow ++
    concat ((fun change => js "<li>" ++ change ++ js "</li>") <$> changes) ++
    js "</ul>" ++
    (if array_includes changes TABLE_CHANGED then tableSection previousData currentData else []) ++
    (if array_includes changes NUMBERS_CHANGED then numberSection previousData currentData else []) ++
    reportFoot c (url currentData).
Proof.
  unfold createDetailedEmailContent, reportHead, reportFoot.
  destruct (array_includes changes TABLE_CHANGED), (array_includes changes NUMBERS_CHANGED);
    rewrite <- ?app_assoc, ?app_nil_l; reflexivity.
Qed.

Lemma createDetailedEmailContentAny_toJson c localeNow changes previousData
    currentData :
  createDetailedEmailContentAny c localeNow changes (toJson previousData) currentData
  = Some (createDetailedEmailContent c localeNow changes previousData currentData).
Proof.
  rewrite createDetailedEmailContent_parts. unfold createDetailedEmailContentAny.
  rewrite tableSectionAny_toJson, numberSectionAny_toJson.
  destruct (array_includes changes TABLE_CHANGED),
    (array_includes changes NUMBERS_CHANGED);
    cbn [fmap option_fmap option_map mbind option_bind];
    rewrite <- ?app_assoc, ?app_nil_l; reflexivity.
Qed.

End SnapshotValue.

(** ** The orchestrators *)

Section Orchestrator.

Implicit Types (c : PIOChecker) (env : RunEnv) (w : World).

Lemma notifications_sendNotification c t m w :
  notifications (sendNotification c t m w)
  = notifications w ++ [{| title := t ++ js " - " ++ accountId c; message := m |}].
Proof. reflexivity. Qed.

(** A mail changes neither the notifications nor the files. *)
Lemma sendEmail_Return c env s m ch p q w w' :
  sendEmail c env s m ch p q w = Return w' ->
  notifications w' = notifications w /\ dataDirs w' = dataDirs w.
Proof.
  unfold sendEmail. destruct (negb (hasTransporter c)); [by intros [= <-]|].
  destruct (match ch with Some _ => _ | None => _ end); [|discriminate].
  by intros [= <-].
Qed.

(** The mail of the [catch] block is always handed over. *)
Lemma sendEmail_message c env s m w :
  exists w', sendEmail c env s m None None None w = Return w'.
Proof. unfold sendEmail. destruct (negb (hasTransporter c)); eauto. Qed.

Lemma notifications_setDataDir c dir w :
  notifications (setDataDir c dir w) = notifications w.
Proof. reflexivity. Qed.

Lemma kindTitle_length_inj k k' :
  length (kindTitle k) = length (kindTitle k') -> k = k'.
Proof. destruct k, k'; cbn; intros H; first [reflexivity | discriminate]. Qed.

Lemma titleOf_inj k k' c : titleOf k c = titleOf k' c -> k = k'.
Proof.
  unfold titleOf. intros H. apply app_inv_tail in H.
  apply kindTitle_length_inj. by rewrite H.
Qed.

Lemma hasChanges_length (changes : list jsstring) :
  hasChanges changes = (0 <? length changes)%nat.
Proof. unfold hasChanges. by destruct changes. Qed.

(** The [try] block, branch by branch: how it ends, what it has
    written, shown and handed to the mail transport. *)
Lemma runTry_branches c env w :
  match readPrevious env (dataDirs w !! accountId c) with
  | Throw e => runTry c env w = (w, Throw e)
  | Return previousData =>
  match scrapeData c env with
  | Throw e => runTry c env w = (w, Throw e)
  | Return currentData =>
  match saveCurrent env (dataDirs w !! accountId c) currentData with
  | Throw e => runTry c env w = (w, Throw e)
  | Return (dir, _) =>
      exists w' r,
        runTry c env w = (w', r)
        /\ dataDirs w' = <[accountId c := dir]> (dataDirs w)
        /\ match previousData with
           | Some v =>
               if Value.ToBoolean v then
                 match compareDataAny (typeError env) v currentData with
                 | Throw e =>
                     r = Throw e /\ notifications w' = notifications w
                     /\ emails w' = emails w
                 | Return changes =>
                     if hasChanges changes then
                       notifications w' = notifications w ++ [changedNote c changes]
                       /\ (if hasTransporter c then
                             match createDetailedEmailContentAny c (localeNow env)
                                     changes v currentData with
                             | Some content =>
                                 r = Return tt
                                 /\ emails w' = emails w ++ [changesMail c content]
                             | None =>
                                 r = Throw (typeError env) /\ emails w' = emails w
                             end
                           else r = Return tt /\ emails w' = emails w)
                     else
                       r = Return tt
                       /\ notifications w' = notifications w ++ [noChangeNote c]
                       /\ emails w' = emails w
                 end
               else
                 r = Return tt
                 /\ notifications w' = notifications w ++ [baselineNote c]
                 /\ emails w' = emails w
           | None =>
               r = Return tt
               /\ notifications w' = notifications w ++ [baselineNote c]
               /\ emails w' = emails w
           end
  end end end.
Proof.
  unfold runTry.
  destruct (readPrevious env _) as [previousData|e]; [|reflexivity].
  destruct (scrapeData c env) as [currentData|e]; [|reflexivity].
  destruct (saveCurrent env _ currentData) as [[dir name]|e]; [|reflexivity].
  cbv zeta.
  destruct previousData as [v|].
  2:{ eexists _, _. split; [reflexivity|]. split; [reflexivity|]. auto. }
  destruct (Value.ToBoolean v) eqn:Htrue.
  2:{ eexists _, _. split; [reflexivity|]. split; [reflexivity|]. auto. }
  unfold compareAndNotify.
  destruct (compareDataAny (typeError env) v currentData) as [changes|e].
  2:{ eexists _, _. split; [reflexivity|]. split; [reflexivity|]. auto. }
  rewrite hasChanges_length.
  destruct changes as [|change changes]; cbn [length Nat.eqb Nat.ltb Nat.leb].
  { eexists _, _. split; [reflexivity|]. split; [reflexivity|]. auto. }
  unfold sendEmail. rewrite Htrue. cbn [length Nat.ltb Nat.leb andb].
  destruct (hasTransporter c); cbn [negb].
  - destruct (createDetailedEmailContentAny _ _ _ _ _) as [content|];
      cbn [orTypeError].
    + eexists _, _. split; [reflexivity|]. split; [reflexivity|].
      split; [reflexivity|]. split; reflexivity.
    + eexists _, _. split; [reflexivity|]. split; [reflexivity|].
      split; [reflexivity|]. split; reflexivity.
  - eexists _, _. split; [reflexivity|]. split; [reflexivity|].
    split; [reflexivity|]. split; reflexivity.
Qed.

(** The [catch] block: the error notification, and the error mail when
    there is a transport. *)
Lemma run_catch c env w w' e :
  runTry c env w = (w', Throw e) ->
  notifications (run c env w) = notifications w' ++ [failedNote c e]
  /\ dataDirs (run c env w) = dataDirs w'
  /\ emails (run c env w)
     = emails w' ++ (if hasTransporter c then [errorMail c env e] else []).
Proof.
  intros H. unfold run. rewrite H. unfold sendEmail.
  destruct (hasTransporter c); cbn [negb].
  - split; [reflexivity|]. split; reflexivity.
  - rewrite app_nil_r. split; [reflexivity|]. split; reflexivity.
Qed.

Lemma run_return c env w w' :
  runTry c env w = (w', Return tt) -> run c env w = w'.
Proof. intros H. unfold run. by rewrite H. Qed.

(** What a run shows, branch by branch. *)
Lemma run_notification_branches c env w :
  exists first rest,
    notifications (run c env w) = notifications w ++ first :: rest
    /\ (forall n, n ∈ first :: rest ->
          exists k, title n = titleOf k c
                    /\ forall k', titleOf k' c = titleOf k c -> k' = k)
    /\ match readPrevious env (dataDirs w !! accountId c) with
       | Throw e => first = failedNote c e /\ rest = []
       | Return previousData =>
       match scrapeData c env with
       | Throw e => first = failedNote c e /\ rest = []
       | Return currentData =>
       match saveCurrent env (dataDirs w !! accountId c) currentData with
       | Throw e => first = failedNote c e /\ rest = []
       | Return _ =>
           match previousData with
           | Some v =>
               if Value.ToBoolean v then
                 match compareDataAny (typeError env) v currentData with
                 | Throw e => first = failedNote c e /\ rest = []
                 | Return changes =>
                     if hasChanges changes
                     then first = changedNote c changes
                          /\ rest = (if hasTransporter c then
                                       match createDetailedEmailContentAny c
                                               (localeNow env) changes v currentData
                                       with
                                       | Some _ => []
                                       | None => [failedNote c (typeError env)]
                                       end
                                     else [])
                     else first = noChangeNote c /\ rest = []
                 end
               else first = baselineNote c /\ rest = []
           | None => first = baselineNote c /\ rest = []
           end
       end end end
    /\ (forall e, (runTry c env w).2 = Throw e
                  <-> last (first :: rest) = Some (failedNote c e)).
Proof.
  assert (Hkinds : forall k m, exists k0,
            title {| title := titleOf k c; message := m |} = titleOf k0 c
            /\ forall k', titleOf k' c = titleOf k0 c -> k' = k0).
  { intros k m. exists k. split; [reflexivity|]. intros k'. apply titleOf_inj. }
  assert (Hfailed : forall e e', failedNote c e = failedNote c e' -> e = e').
  { intros e e' [= H]. exact H. }
  assert (Hone : forall k m, forall n, n ∈ [{| title := titleOf k c; message := m |}] ->
            exists k0, title n = titleOf k0 c
                       /\ forall k', titleOf k' c = titleOf k0 c -> k' = k0).
  { intros k m n ->%list_elem_of_singleton. apply Hkinds. }
  assert (Hearly : forall e, runTry c env w = (w, Throw e) ->
            notifications (run c env w) = notifications w ++ [failedNote c e]
            /\ (forall n, n ∈ [failedNote c e] ->
                  exists k, title n = titleOf k c
                            /\ forall k', titleOf k' c = titleOf k c -> k' = k)
            /\ (forall e', (runTry c env w).2 = Throw e'
                           <-> last [failedNote c e] = Some (failedNote c e'))).
  { intros e H. destruct (run_catch c env w w e H) as (Hn & _).
    split; [exact Hn|]. split; [apply Hone|]. rewrite H. cbn [snd last].
    intros e'. split; [by intros [= <-]|].
    intros H'. f_equal. apply Hfailed. congruence. }
  pose proof (runTry_branches c env w) as Hb.
  destruct (readPrevious env _) as [previousData|e].
  2:{ destruct (Hearly e Hb) as (Hn & Hk & Hl). eexists _, []. eauto. }
  destruct (scrapeData c env) as [currentData|e].
  2:{ destruct (Hearly e Hb) as (Hn & Hk & Hl). eexists _, []. eauto. }
  destruct (saveCurrent env _ currentData) as [[dir name]|e].
  2:{ destruct (Hearly e Hb) as (Hn & Hk & Hl). eexists _, []. eauto. }
  clear Hearly. destruct Hb as (w' & r & Hr & _ & Hb).
  assert (Hdone : forall note k m,
            note = {| title := titleOf k c; message := m |} -> k <> Failed ->
            r = Return tt -> notifications w' = notifications w ++ [note] ->
            notifications (run c env w) = notifications w ++ [note]
            /\ (forall n, n ∈ [note] ->
                  exists k, title n = titleOf k c
                            /\ forall k', titleOf k' c = titleOf k c -> k' = k)
            /\ (forall e, (runTry c env w).2 = Throw e
                          <-> last [note] = Some (failedNote c e))).
  { intros note k m -> Hk -> Hn. rewrite (run_return c env w w' Hr), Hr.
    split; [exact Hn|]. split; [apply Hone|]. cbn [snd last].
    intros e. split; [discriminate|]. intros [= Ht _].
    apply titleOf_inj in Ht. by destruct Hk. }
  destruct previousData as [v|].
  2:{ destruct Hb as (Hret & Hn & _).
      destruct (Hdone (baselineNote c) Baseline _ eq_refl ltac:(discriminate) Hret Hn)
        as (H1 & H2 & H3).
      eexists _, []. eauto. }
  destruct (Value.ToBoolean v).
  2:{ destruct Hb as (Hret & Hn & _).
      destruct (Hdone (baselineNote c) Baseline _ eq_refl ltac:(discriminate) Hret Hn)
        as (H1 & H2 & H3).
      eexists _, []. eauto. }
  destruct (compareDataAny (typeError env) v currentData) as [changes|e].
  2:{ destruct Hb as (-> & Hn & _).
      destruct (run_catch c env w w' e Hr) as (Hn' & _).
      exists (failedNote c e), []. rewrite Hn', Hn, Hr. cbn [snd last].
      split; [reflexivity|]. split; [apply Hone|]. split; [auto|].
      intros e'. split; [by intros [= <-]|].
      intros H'. f_equal. apply Hfailed. congruence. }
  destruct (hasChanges changes).
  2:{ destruct Hb as (Hret & Hn & _).
      destruct (Hdone (noChangeNote c) NoChange _ eq_refl ltac:(discriminate) Hret Hn)
        as (H1 & H2 & H3).
      eexists _, []. eauto. }
  destruct Hb as (Hn & Hb).
  assert (Hok : r = Return tt ->
            notifications (run c env w)
            = notifications w ++ [changedNote c changes]
            /\ (forall n, n ∈ [changedNote c changes] ->
                  exists k, title n = titleOf k c
                            /\ forall k', titleOf k' c = titleOf k c -> k' = k)
            /\ (forall e, (runTry c env w).2 = Throw e
                          <-> last [changedNote c changes]
                              = Some (failedNote c e))).
  { intros Hret.
    exact (Hdone (changedNote c changes) Changed _ eq_refl ltac:(discriminate)
             Hret Hn). }
  destruct (hasTransporter c).
  2:{ destruct Hb as (Hret & _). destruct (Hok Hret) as (H1 & H2 & H3).
      exists (changedNote c changes), []. eauto. }
  destruct (createDetailedEmailContentAny _ _ _ _ _).
  { destruct Hb as (Hret & _). destruct (Hok Hret) as (H1 & H2 & H3).
    exists (changedNote c changes), []. eauto. }
  destruct Hb as (-> & _).
  destruct (run_catch c env w w' _ Hr) as (Hn' & _).
  exists (changedNote c changes), [failedNote c (typeError env)].
  rewrite Hn', Hn, <- app_assoc, Hr. cbn [snd last].
  split; [reflexivity|]. split.
  - intros n [->|Hin]%elem_of_cons; [apply Hkinds|].
    by apply (Hone Failed (js "An error occurred: " ++ typeError env)).
  - split; [auto|]. intros e'.
    split; [by intros [= <-]|].
    intros H'. f_equal. apply Hfailed. congruence.
Qed.

(** The notifications of a run; on a previous file that holds a
    snapshot there is one. *)
Lemma run_notification c env w :
  exists first rest,
    notifications (run c env w) = notifications w ++ first :: rest
    /\ (forall n, n ∈ first :: rest ->
          exists k, title n = titleOf k c
                    /\ forall k', titleOf k' c = titleOf k c -> k' = k)
    /\ match readPrevious env (dataDirs w !! accountId c) with
       | Throw e => first = failedNote c e /\ rest = []
       | Return previousData =>
       match scrapeData c env with
       | Throw e => first = failedNote c e /\ rest = []
       | Return currentData =>
       match saveCurrent env (dataDirs w !! accountId c) currentData with
       | Throw e => first = failedNote c e /\ rest = []
       | Return _ =>
           match previousData with
           | Some v =>
               if Value.ToBoolean v then
                 match compareDataAny (typeError env) v currentData with
                 | Throw e => first = failedNote c e /\ rest = []
                 | Return changes =>
                     if hasChanges changes
                     then first = changedNote c changes
                          /\ rest = (if hasTransporter c then
                                       match createDetailedEmailContentAny c
                                               (localeNow env) changes v currentData
                                       with
                                       | Some _ => []
                                       | None => [failedNote c (typeError env)]
                                       end
                                     else [])
                     else first = noChangeNote c /\ rest = []
                 end
               else first = baselineNote c /\ rest = []
           | None => first = baselineNote c /\ rest = []
           end
       end end end
    /\ (forall e, (runTry c env w).2 = Throw e
                  <-> last (first :: rest) = Some (failedNote c e))
    /\ (forall previousData,
          readPrevious env (dataDirs w !! accountId c)
          = Return (Some (toJson previousData)) ->
          rest = []).
Proof.
  destruct (run_notification_branches c env w) as (first & rest & Hn & Hk & Hb & Hl).
  exists first, rest. split; [exact Hn|]. split; [exact Hk|].
  split; [exact Hb|]. split; [exact Hl|].
  intros previousData Hp. rewrite Hp in Hb.
  destruct (scrapeData c env) as [currentData|]; [|by destruct Hb].
  destruct (saveCurrent env _ _); [|by destruct Hb].
  rewrite ToBoolean_toJson, compareDataAny_toJson in Hb.
  destruct (hasChanges _); [|by destruct Hb].
  destruct Hb as [_ ->]. rewrite createDetailedEmailContentAny_toJson.
  by destruct (hasTransporter c).
Qed.

(** A run shows one notification or two. *)
Lemma run_notification_count c env w :
  (length (notifications w) < length (notifications (run c env w))
   <= length (notifications w) + 2)%nat.
Proof.
  destruct (run_notification c env w) as (first & rest & -> & _ & Hb & _).
  rewrite length_app. cbn [length].
  assert (length rest <= 1)%nat; [|lia].
  destruct (readPrevious env _) as [previousData|?];
    [|destruct Hb as [_ ->]; cbn; lia].
  destruct (scrapeData c env) as [currentData|?];
    [|destruct Hb as [_ ->]; cbn; lia].
  destruct (saveCurrent env _ _); [|destruct Hb as [_ ->]; cbn; lia].
  destruct previousData as [v|]; [|destruct Hb as [_ ->]; cbn; lia].
  destruct (Value.ToBoolean v); [|destruct Hb as [_ ->]; cbn; lia].
  destruct (compareDataAny _ _ _); [|destruct Hb as [_ ->]; cbn; lia].
  destruct (hasChanges _); [|destruct Hb as [_ ->]; cbn; lia].
  destruct Hb as [_ ->].
  destruct (hasTransporter c); [|cbn; lia].
  destruct (createDetailedEmailContentAny _ _ _ _ _); cbn; lia.
Qed.

End Orchestrator.


Section MultiAccount.

Implicit Types (accounts : list AccountConfig) (envs : nat -> RunEnv) (w : World).

(** The constructor throws exactly on a configuration that is not
    valid, with a message made from the login. *)
Lemma newPIOChecker_result accountConfig env w :
  match (newPIOChecker accountConfig env w).2 with
  | Return checker =>
      validConfig accountConfig = true /\ accountId checker = cfg_login accountConfig
  | Throw e =>
      validConfig accountConfig = false
      /\ e = js "Missing required configuration for account " ++
             cfg_login accountConfig ++ js ": login, password, or elementText"
  end.
Proof.
  unfold newPIOChecker, validConfig.
  destruct (truthy (cfg_login accountConfig)),
    (truthy (cfg_password accountConfig)),
    (truthy (cfg_elementText accountConfig)); cbn; auto.
Qed.

Lemma notifications_newPIOChecker accountConfig env w :
  notifications (newPIOChecker accountConfig env w).1 = notifications w.
Proof.
  unfold newPIOChecker.
  destruct (dataDirs w !! cfg_login accountConfig);
    destruct (_ || _ || _); reflexivity.
Qed.

(** The loop adds the entry of each record in turn, whatever the
    collaborators answer, and every valid record gets its run and so its
    notification, or its two notifications. *)
Lemma runAllFrom_results accounts : forall envs i w results,
  (runAllFrom accounts envs i w results).2 = results ++ (resultOf <$> accounts)
  /\ (length (notifications w)
      + length (filter (fun a => validConfig a = true) accounts)
      <= length (notifications (runAllFrom accounts envs i w results).1)
      <= length (notifications w)
         + 2 * length (filter (fun a => validConfig a = true) accounts))%nat.
Proof.
  induction accounts as [|a accounts IH]; intros envs i w results.
  - cbn. rewrite app_nil_r. split; [reflexivity | lia].
  - cbn [runAllFrom].
    pose proof (newPIOChecker_result a (envs i) w) as Hc.
    pose proof (notifications_newPIOChecker a (envs i) w) as Hn.
    destruct (newPIOChecker a (envs i) w) as [w' [checker|e]]; cbn [fst snd] in *.
    + destruct Hc as [Hv Hid].
      destruct (IH envs (S i) (run checker (envs i) w')
                  (results ++ [{| resultAccountId := cfg_login a;
                                  status := js "success"; error := None |}]))
        as [-> Hcount].
      pose proof (run_notification_count checker (envs i) w') as Hrun.
      rewrite Hn in Hrun. rewrite filter_cons_True by done.
      rewrite <- app_assoc. cbn [fmap list_fmap app length].
      unfold resultOf at 2. rewrite Hv. split; [reflexivity | lia].
    + destruct Hc as [Hv He].
      destruct (IH envs (S i) w'
                  (results ++ [{| resultAccountId := cfg_login a;
                                  status := js "error";
                                  error := Some e |}]))
        as [-> Hcount].
      rewrite Hn in Hcount. rewrite filter_cons_False by (by rewrite Hv).
      rewrite <- app_assoc. cbn [fmap list_fmap app].
      unfold resultOf at 2. rewrite Hv. subst e. split; [reflexivity | lia].
Qed.

Lemma runAll_spec accounts envs w :
  (runAll accounts envs w).2 = resultOf <$> accounts
  /\ (length (notifications w)
      + length (filter (fun a => validConfig a = true) accounts)
      <= length (notifications (runAll accounts envs w).1)
      <= length (notifications w)
         + 2 * length (filter (fun a => validConfig a = true) accounts))%nat.
Proof. unfold runAll. apply (runAllFrom_results accounts envs 0 w []). Qed.

End MultiAccount.


(** C1 on the code.  Of three records the fetch of the second fails at
    every attempt.  The result has the three entries in the order of
    the records and the third record is processed, but the entry of the
    second is [success] with no message: its run has caught the failure
    and shown the error notification, which carries the message, so the
    [catch] of [runAll] that records [error] is not reached. *)
Theorem runAll_second_fetch_fails :
  (forall attempt, exists e, attemptPage (secondFetchFails 1) attempt = inl e)
  /\ resultAccountId <$> (runAll threeAccounts secondFetchFails emptyWorld).2
     = [js "a@example.com"; js "b@example.com"; js "c@example.com"]
  /\ status <$> (runAll threeAccounts secondFetchFails emptyWorld).2
     = [js "success"; js "success"; js "success"]
  /\ error <$> (runAll threeAccounts secondFetchFails emptyWorld).2
     = [None; None; None]
  /\ notifications (runAll threeAccounts secondFetchFails emptyWorld).1 !! 1%nat
     = Some {| title := js "PIO Checker - Error - b@example.com";
               message := js "An error occurred: Failed to scrape data after 3 attempts: Navigation timeout" |}.
Proof.
  split; [intros attempt; eexists; reflexivity|].
  destruct (runAll_spec threeAccounts secondFetchFails emptyWorld) as [-> _].
  split; [reflexivity|]. split; [reflexivity|]. split; [reflexivity|].
  vm_compute. reflexivity.
Qed.

(** The notification of each branch of a run whose steps succeed, when
    the previous file, if there is one, holds a snapshot. *)
Lemma run_branches (c : PIOChecker) (env : RunEnv) (w : World)
    (previousData : option ScrapedData) currentData saved :
  readPrevious env (dataDirs w !! accountId c) = Return (toJson <$> previousData) ->
  scrapeData c env = Return currentData ->
  saveCurrent env (dataDirs w !! accountId c) currentData = Return saved ->
  notifications (run c env w)
  = notifications w ++
    [match previousData with
     | None => baselineNote c
     | Some previousData =>
         if hasChanges (compareData previousData currentData)
         then changedNote c (compareData previousData currentData)
         else noChangeNote c
     end].
Proof.
  intros Hp Hs Hw.
  pose proof (runTry_branches c env w) as Hb. rewrite Hp, Hs, Hw in Hb.
  destruct saved as [dir name]. destruct Hb as (w' & r & Hr & _ & Hb).
  destruct previousData as [previousData|]; cbn [fmap option_fmap option_map] in Hb.
  - rewrite ToBoolean_toJson, compareDataAny_toJson in Hb.
    destruct (hasChanges (compareData previousData currentData)).
    + destruct Hb as (Hn & Hb).
      rewrite createDetailedEmailContentAny_toJson in Hb.
      assert (r = Return tt) as -> by (destruct (hasTransporter c); by destruct Hb).
      by rewrite (run_return c env w w' Hr).
    + destruct Hb as (-> & Hn & _). by rewrite (run_return c env w w' Hr).
  - destruct Hb as (-> & Hn & _). by rewrite (run_return c env w w' Hr).
Qed.

(** ** Examples from the description of the system *)

(** Order sensitivity: a table with its two cells swapped is a change
    of the tables, and of nothing else. *)
Example compareData_order_sensitive :
  compareData
    {| mainText := js "x";
       fields := {| tables := Some [[[js "1"; js "2"]]]; numbers := Some [] |};
       url := []; timestamp := []; elementText := js "1" |}
    {| mainText := js "x";
       fields := {| tables := Some [[[js "2"; js "1"]]]; numbers := Some [] |};
       url := []; timestamp := []; elementText := js "1" |}
  = [TABLE_CHANGED].
Proof. vm_compute. reflexivity. Qed.

(** Category independence: a change of the numbers alone. *)
Example compareData_numbers_only :
  compareData
    {| mainText := js "x";
       fields := {| tables := Some []; numbers := Some [js "10"] |};
       url := []; timestamp := []; elementText := js "1" |}
    {| mainText := js "x";
       fields := {| tables := Some []; numbers := Some [js "11"] |};
       url := []; timestamp := []; elementText := js "1" |}
  = [NUMBERS_CHANGED].
Proof. vm_compute. reflexivity. Qed.

(** The text of an array with a quote, a backslash, a line feed and a
    lone surrogate in its strings. *)
Example stringify_strings_sample :
  JSON.stringify_strings [js "a"; [34; 92; 10]; [55357]]
  = js "[" ++ dq ++ js "a" ++ dq ++ js "," ++
    dq ++ js "\" ++ dq ++ js "\\\n" ++ dq ++ js "," ++
    dq ++ js "\ud83d" ++ dq ++ js "]".
Proof. vm_compute. reflexivity. Qed.

(** The names of two writes, 45 minutes apart, across the end of summer
    time. *)
Example saveFilename_sample :
  saveFilename (warsawClock 1761438600000)
    = js "szczegoly-wniosku_2025-10-26T02-30-00.json"
  /\ saveFilename (warsawClock 1761441300000)
    = js "szczegoly-wniosku_2025-10-26T02-15-00.json".
Proof. split; vm_compute; reflexivity. Qed.

(** What a run writes: nothing when the reading, the fetch or the write
    fails, and otherwise the directory that [saveData] gives, whatever
    happens afterwards. *)
Lemma run_dataDirs (c : PIOChecker) (env : RunEnv) (w : World) :
  dataDirs (run c env w)
  = match readPrevious env (dataDirs w !! accountId c), scrapeData c env with
    | Return _, Return currentData =>
        match saveCurrent env (dataDirs w !! accountId c) currentData with
        | Return (dir, _) => <[accountId c := dir]> (dataDirs w)
        | Throw _ => dataDirs w
        end
    | _, _ => dataDirs w
    end.
Proof.
  pose proof (runTry_branches c env w) as Hb.
  destruct (readPrevious env _) as [previousData|e];
    [|by destruct (run_catch c env w w e Hb) as (_ & -> & _)].
  destruct (scrapeData c env) as [currentData|e];
    [|by destruct (run_catch c env w w e Hb) as (_ & -> & _)].
  destruct (saveCurrent env _ currentData) as [[dir name]|e];
    [|by destruct (run_catch c env w w e Hb) as (_ & -> & _)].
  destruct Hb as (w' & r & Hr & Hd & _). rewrite <- Hd.
  destruct r as [[]|e].
  - by rewrite (run_return c env w w' Hr).
  - by destruct (run_catch c env w w' e Hr) as (_ & -> & _).
Qed.

(** A run writes one file at most: every other file of the account, and
    every file of the other accounts, is as it was. *)
Lemma run_touches_one_file (c : PIOChecker) (env : RunEnv) (w : World)
    (account file : jsstring) :
  (account, file) <> (accountId c, saveFilename (now env)) ->
  (dataDirs (run c env w) !! account) ≫= (fun dir => dir !! file)
  = (dataDirs w !! account) ≫= (fun dir => dir !! file).
Proof.
  intros Hne. rewrite run_dataDirs.
  destruct (readPrevious env _) as [previousData|?]; [|reflexivity].
  destruct (scrapeData c env) as [currentData|?]; [|reflexivity].
  unfold saveCurrent, saveData, writeFileSync.
  destruct (dataDirs w !! accountId c) as [dir|] eqn:Hdir; [|reflexivity].
  destruct (writeError env); [reflexivity|].
  destruct (decide (accountId c = account)) as [<-|Ha].
  - rewrite lookup_insert_eq, Hdir. cbn [mbind option_bind].
    apply lookup_insert_ne. intros Heq. apply Hne. by rewrite Heq.
  - by rewrite lookup_insert_ne.
Qed.

(** * Further properties of the code *)

(** ** Trimming and the tables of the page *)

Section Trimming.

Implicit Types s : jsstring.

Lemma trimStart_head s c t : trimStart s = c :: t -> isWhiteSpace c = false.
Proof.
  induction s as [|a s IH]; cbn; [discriminate|].
  destruct (isWhiteSpace a) eqn:E; [exact IH|]. by intros [= <- _].
Qed.

Lemma trimStart_fixed s :
  (forall c t, s = c :: t -> isWhiteSpace c = false) -> trimStart s = s.
Proof.
  destruct s as [|c t]; [reflexivity|]. intros H. cbn.
  by rewrite (H c t eq_refl).
Qed.

Lemma trimStart_suffix s : trimStart s `suffix_of` s.
Proof.
  induction s as [|a s IH]; cbn; [done|].
  destruct (isWhiteSpace a); [by apply suffix_cons_r | done].
Qed.

Lemma trimStart_last s c :
  last (trimStart s) = Some c -> last s = Some c.
Proof.
  destruct (trimStart_suffix s) as [k Hk]. intros H.
  rewrite Hk. rewrite last_app, H. reflexivity.
Qed.

(** The trimmed text neither starts nor ends with white space. *)
Lemma trim_ends s :
  (forall c, head (trim s) = Some c -> isWhiteSpace c = false)
  /\ (forall c, last (trim s) = Some c -> isWhiteSpace c = false).
Proof.
  unfold trim. split; intros c.
  - rewrite head_reverse. intros H%trimStart_last.
    rewrite last_reverse in H.
    destruct (trimStart s) as [|x t] eqn:E; [discriminate|].
    injection H as <-. by apply trimStart_head in E.
  - rewrite last_reverse.
    destruct (trimStart (reverse (trimStart s))) as [|x t] eqn:E; [discriminate|].
    intros [= <-]. by apply trimStart_head in E.
Qed.

Lemma trim_idempotent s : trim (trim s) = trim s.
Proof.
  destruct (trim_ends s) as [Hh Hl].
  unfold trim at 1.
  rewrite (trimStart_fixed (trim s)).
  2:{ intros c t E. apply Hh. by rewrite E. }
  rewrite trimStart_fixed; [apply reverse_involutive|].
  intros c t E. apply Hl. rewrite <- (reverse_involutive (trim s)), E.
  rewrite last_reverse. reflexivity.
Qed.

End Trimming.

Section Tables.

Lemma foldl_push_map {A B} (f : A -> B) (l : list A) (acc : list B) :
  foldl (fun cells cell => cells ++ [f cell]) acc l = acc ++ (f <$> l).
Proof.
  revert acc. induction l as [|x l IH]; intros acc; cbn.
  - by rewrite app_nil_r.
  - rewrite IH, <- app_assoc. reflexivity.
Qed.

Lemma foldl_push_if {A B} (f : A -> list B) (l : list A) (acc : list (list B)) :
  foldl (fun rows x => if (0 <? length (f x))%nat then rows ++ [f x] else rows) acc l
  = acc ++ filter (fun r => r <> []) (f <$> l).
Proof.
  revert acc. induction l as [|x l IH]; intros acc; cbn [foldl fmap list_fmap].
  - by rewrite app_nil_r.
  - rewrite IH. destruct (f x) as [|y r] eqn:E; cbn [length Nat.ltb Nat.leb].
    + by rewrite filter_cons_False by (intros H; by apply H).
    + rewrite filter_cons_True by done. by rewrite <- app_assoc.
Qed.

Lemma extractRows_filter table :
  extractRows table
  = filter (fun r => r <> []) ((fun row : list jsstring => trim <$> row) <$> table).
Proof.
  unfold extractRows.
  rewrite (foldl_push_if (fun row => foldl (fun cells cell => cells ++ [trim cell]) [] row)).
  cbn [app]. f_equal. apply list_fmap_ext. intros _ row _.
  by rewrite foldl_push_map.
Qed.

Lemma extractTables_filter document :
  extractTables document = filter (fun t => t <> []) (extractRows <$> document).
Proof. unfold extractTables. by rewrite (foldl_push_if extractRows). Qed.

End Tables.

(** X1. The tables taken from the page hold no table without rows and
    no row without cells, and every cell is trimmed: trimming it again
    changes nothing.  A document in which every table has a row and
    every row has a cell keeps its shape: only the cells are trimmed. *)
Theorem extractTables_shape (document : list (list (list jsstring))) :
  Forall (fun table =>
            table <> []
            /\ Forall (fun row => row <> [] /\ Forall (fun cell => trim cell = cell) row)
                      table)
         (extractTables document)
  /\ (Forall (fun table => table <> [] /\ Forall (fun row => row <> []) table)
             document ->
      extractTables document
      = (fun table : list (list jsstring) =>
           (fun row : list jsstring => trim <$> row) <$> table) <$> document).
Proof.
  split.
  - rewrite extractTables_filter. apply Forall_forall. intros t Ht.
    apply list_elem_of_filter in Ht as [Hne Ht]. split; [done|].
    apply list_elem_of_fmap in Ht as (table & -> & _).
    rewrite extractRows_filter. apply Forall_forall. intros r Hr.
    apply list_elem_of_filter in Hr as [Hrne Hr]. split; [done|].
    apply list_elem_of_fmap in Hr as (row & -> & _).
    apply Forall_forall. intros cell Hc.
    apply list_elem_of_fmap in Hc as (raw & -> & _). apply trim_idempotent.
  - intros Hdoc. rewrite extractTables_filter.
    assert (Hrows : forall table, Forall (fun row : list jsstring => row <> []) table ->
                      extractRows table
                      = (fun row : list jsstring => trim <$> row) <$> table).
    { intros table Ht. rewrite extractRows_filter.
      induction Ht as [|row table Hrow _ IH]; [reflexivity|].
      cbn [fmap list_fmap]. rewrite filter_cons_True by (by destruct row).
      f_equal. exact IH. }
    induction Hdoc as [|table doc [Hne Hrs] _ IH]; [reflexivity|].
    cbn [fmap list_fmap].
    rewrite filter_cons_True.
    + f_equal; [by apply Hrows | exact IH].
    + rewrite Hrows by done. by destruct table.
Qed.

Lemma extractTables_shape_witness :
  extractTables [[[js " a "; js "b"]; [js "c"]]; [[js "d "]]]
  = [[[js "a"; js "b"]; [js "c"]]; [[js "d"]]].
Proof.
  rewrite (proj2 (extractTables_shape _)).
  - vm_compute. reflexivity.
  - repeat constructor; discriminate.
Defined.

(** ** The numbers of the page *)

Section Tokens.

Import RegExp.

Implicit Types s : jsstring.

Lemma skip_suffix p s : skip p s `suffix_of` s.
Proof.
  induction s as [|a s IH]; cbn; [done|].
  destruct (p a); [by apply suffix_cons_r | done].
Qed.

(** What a class skips is in the class. *)
Lemma skipped_in_class p s :
  Forall (fun c => p c = true) (take (length s - length (skip p s)) s).
Proof.
  induction s as [|a s IH]; cbn [skip]; [constructor|].
  destruct (p a) eqn:E.
  - pose proof (skip_length p s).
    replace (length (a :: s) - length (skip p s))%nat
      with (S (length s - length (skip p s))) by (cbn; lia).
    cbn. by constructor.
  - rewrite Nat.sub_diag. constructor.
Qed.

Lemma skip_digit_dot_or_digit s :
  skip dot_or_digit (skip digit s) = skip dot_or_digit s.
Proof.
  induction s as [|a s IH]; cbn [skip]; [reflexivity|].
  destruct (digit a) eqn:E.
  - by rewrite (digit_dot_or_digit _ E).
  - reflexivity.
Qed.

(** A match: a digit, then digits and dots only. *)
Lemma exec_numeric_token s : forall tok rest,
  exec numeric_pattern s = Some (tok, rest) ->
  exists c t, tok = c :: t /\ digit c = true
              /\ Forall (fun x => dot_or_digit x = true) t.
Proof.
  induction s as [|a s IH]; intros tok rest; [by rewrite exec_numeric_nil|].
  rewrite exec_numeric_cons. destruct (digit a) eqn:E; [|apply IH].
  intros [= <- <-]. pose proof (after_token_length s). cbn [length].
  replace (S (length s) - length (after_token s))%nat
    with (S (length s - length (after_token s))) by lia.
  cbn [take]. eexists _, _. split; [reflexivity|]. split; [done|].
  unfold after_token. rewrite skip_digit_dot_or_digit. apply skipped_in_class.
Qed.

Lemma match_all_tokens fuel : forall s,
  Forall (fun tok => exists c t, tok = c :: t /\ digit c = true
                       /\ Forall (fun x => dot_or_digit x = true) t)
         (match_all_from numeric_pattern fuel s).
Proof.
  induction fuel as [|fuel IH]; intros s; cbn [match_all_from]; [constructor|].
  destruct (exec numeric_pattern s) as [[tok rest]|] eqn:E; [|constructor].
  constructor; [by eapply exec_numeric_token|].
  destruct (next_search tok rest); [apply IH | constructor].
Qed.

End Tokens.

(** X2. Every number taken from a text starts with a digit and holds
    digits and dots only; in particular none is empty and none carries
    a sign, a comma or a space. *)
Theorem extractNumbers_tokens (text : jsstring) :
  Forall (fun tok => exists c t, tok = c :: t /\ RegExp.digit c = true
                       /\ Forall (fun x => RegExp.dot_or_digit x = true) t)
         (extractNumbers text).
Proof.
  unfold extractNumbers, RegExp.String_match.
  pose proof (match_all_tokens (S (length text)) text) as H.
  destruct (RegExp.match_all_from _ _ _); [constructor | exact H].
Qed.

(** X3. A snapshot built from a page is consistent with itself: its
    main text neither starts nor ends with white space, its tables and
    numbers are never missing, and its numbers are the numbers of its
    own main text, although they were taken from the text before
    trimming. *)
Theorem buildScrapedData_consistent (elementText : jsstring) (p : PageContent) :
  let d := buildScrapedData elementText p in
  trim (mainText d) = mainText d
  /\ (forall c, head (mainText d) = Some c -> isWhiteSpace c = false)
  /\ (forall c, last (mainText d) = Some c -> isWhiteSpace c = false)
  /\ tables (fields d) = Some (tableData p)
  /\ numbers (fields d) = Some (extractNumbers (mainText d)).
Proof.
  cbn. split; [apply trim_idempotent|].
  destruct (trim_ends (innerText p)) as [Hh Hl].
  split; [exact Hh|]. split; [exact Hl|]. split; [reflexivity|].
  f_equal. apply extractNumbers_trim.
Qed.

(** ** The retry loop of the scraper and the constructor *)

(** X4. [scrapeData] makes at most three attempts.  It answers the
    snapshot of the first attempt that gives a page; the later attempts
    are not made, so whatever they would give does not matter.  It
    throws exactly when the three attempts fail, and then the message
    carries the message of the third attempt. *)
Theorem scrapeData_attempts (c : PIOChecker) (env : RunEnv) :
  (forall d, scrapeData c env = Return d <->
     exists k page, (1 <= k <= 3)%nat
       /\ attemptPage env k = inr page
       /\ d = buildScrapedData (checkerElementText c) page
       /\ forall j, (1 <= j < k)%nat -> exists e, attemptPage env j = inl e)
  /\ (forall m, scrapeData c env = Throw m <->
        exists e1 e2 e3,
          attemptPage env 1%nat = inl e1 /\ attemptPage env 2%nat = inl e2
          /\ attemptPage env 3%nat = inl e3
          /\ m = js "Failed to scrape data after 3 attempts: " ++ e3).
Proof.
  unfold scrapeData. cbn [scrapeAttempts retries Nat.eqb].
  assert (Hj : forall j, (1 <= j < 2)%nat -> j = 1%nat) by lia.
  assert (Hj3 : forall j, (1 <= j < 3)%nat -> j = 1%nat \/ j = 2%nat) by lia.
  destruct (attemptPage env 1%nat) as [e1|p1] eqn:E1.
  2:{ split.
      - intros d. split.
        + intros [= <-]. exists 1%nat, p1. repeat split; try lia; done.
        + intros (k & page & Hk & Hp & -> & Hprev).
          destruct (decide (k = 1%nat)) as [->|]; [congruence|].
          destruct (Hprev 1%nat) as [e He]; [lia | congruence].
      - intros m. split; [discriminate|]. intros (? & ? & ? & ? & _). congruence. }
  destruct (attemptPage env 2%nat) as [e2|p2] eqn:E2.
  2:{ split.
      - intros d. split.
        + intros [= <-]. exists 2%nat, p2. repeat split; try lia; try done.
          intros j Hjj. rewrite (Hj j Hjj). eauto.
        + intros (k & page & Hk & Hp & -> & Hprev).
          destruct (decide (k = 1%nat)) as [->|]; [congruence|].
          destruct (decide (k = 2%nat)) as [->|]; [congruence|].
          destruct (Hprev 2%nat) as [e He]; [lia | congruence].
      - intros m. split; [discriminate|]. intros (? & ? & ? & _ & ? & _). congruence. }
  destruct (attemptPage env 3%nat) as [e3|p3] eqn:E3.
  - split.
    + intros d. split; [discriminate|].
      intros (k & page & Hk & Hp & _).
      assert (k = 1 \/ k = 2 \/ k = 3)%nat as [->|[->| ->]] by lia; congruence.
    + intros m. split.
      * intros [= <-]. exists e1, e2, e3. done.
      * intros (x1 & x2 & x3 & _ & _ & [= <-] & ->). reflexivity.
  - split.
    + intros d. split.
      * intros [= <-]. exists 3%nat, p3. repeat split; try lia; try done.
        intros j Hjj. destruct (Hj3 j Hjj) as [-> | ->]; eauto.
      * intros (k & page & Hk & Hp & -> & Hprev).
        assert (k = 1 \/ k = 2 \/ k = 3)%nat as [->|[->| ->]] by lia; congruence.
    + intros m. split; [discriminate|]. intros (? & ? & ? & _ & _ & ? & _). congruence.
Qed.

(** X5. The constructor makes sure that the data directory of the
    account exists before it validates the configuration: after it,
    returned or thrown, the directory is there, empty when it was
    missing and as it was otherwise, and no other directory, no
    notification and no mail has changed.  It throws exactly when the
    login, the password or the element text is empty. *)
Theorem newPIOChecker_effects (accountConfig : AccountConfig) (env : RunEnv)
    (w : World) :
  let w' := (newPIOChecker accountConfig env w).1 in
  dataDirs w' !! cfg_login accountConfig
    = Some (default ∅ (dataDirs w !! cfg_login accountConfig))
  /\ (forall account, account <> cfg_login accountConfig ->
        dataDirs w' !! account = dataDirs w !! account)
  /\ notifications w' = notifications w
  /\ emails w' = emails w
  /\ ((exists m, (newPIOChecker accountConfig env w).2 = Throw m)
      <-> cfg_login accountConfig = [] \/ cfg_password accountConfig = []
          \/ cfg_elementText accountConfig = []).
Proof.
  unfold newPIOChecker.
  destruct (dataDirs w !! cfg_login accountConfig) as [dir|] eqn:Hdir;
    destruct (cfg_login accountConfig) as [|? ?] eqn:E1,
      (cfg_password accountConfig) as [|? ?] eqn:E2,
      (cfg_elementText accountConfig) as [|? ?] eqn:E3;
    cbn [truthy negb orb fst snd dataDirs notifications emails default];
    rewrite ?Hdir, ?lookup_insert_eq;
    (split; [reflexivity|]);
    (split; [intros account Ha; by rewrite ?lookup_insert_ne by done|]);
    (split; [reflexivity|]); (split; [reflexivity|]);
    (split; [intros [m Hm]; first [discriminate | auto]
            | intros [H|[H|H]]; first [discriminate | eauto]]).
Qed.

(** ** The store: writing, then reading *)

(** X6. [getLatestDataFile] looks at the names of the data files only:
    two directories with the same data file names give the same answer,
    whatever the files hold and whatever other files are there. *)
Theorem getLatestDataFile_names_only (dir1 dir2 : gmap jsstring FileContent) :
  (forall g, isDataFile g = true -> (is_Some (dir1 !! g) <-> is_Some (dir2 !! g))) ->
  getLatestDataFile (Some dir1) = getLatestDataFile (Some dir2).
Proof.
  intros H. destruct (getLatestDataFile (Some dir1)) as [f|] eqn:E.
  - apply getLatestDataFile_Some in E as (Hf & Hd & Hmax).
    symmetry. apply getLatestDataFile_greatest; [by apply H | done |].
    intros g Hg Hdg. apply Hmax; [by apply H | done].
  - symmetry. rewrite getLatestDataFile_None in E |- *.
    intros g Hg. destruct (isDataFile g) eqn:Hd; [|reflexivity].
    rewrite <- Hd. apply E. by apply H.
Qed.

Lemma getLatestDataFile_names_only_witness :
  getLatestDataFile
    (Some (<[js "notes.txt" := Unparsable (js "x")]>
             (<[saveFilename (warsawClock 1761438600000) := JsonOf olderSnapshot]> ∅)))
  = getLatestDataFile
      (Some (<[saveFilename (warsawClock 1761438600000) := JsonOf newerSnapshot]> ∅)).
Proof.
  apply getLatestDataFile_names_only. intros g Hg.
  destruct (decide (js "notes.txt" = g)) as [<-|Hne]; [discriminate Hg|].
  rewrite lookup_insert_ne by done.
  destruct (decide (saveFilename (warsawClock 1761438600000) = g)) as [<-|Hne'].
  - rewrite !lookup_insert_eq. split; eauto.
  - rewrite !lookup_insert_ne by done. reflexivity.
Defined.

(** X7. What [saveData] has written is what the next reading finds,
    provided that no data file of the directory has a greater name:
    [getLatestDataFile] then answers the name just written and the file
    parses back to the value of the snapshot, from which the snapshot
    can be told.  After a write the answer is never [null]. *)
Theorem saveData_then_latest (now : Date.Date) (dir : gmap jsstring FileContent)
    (data : ScrapedData) :
  (forall g, is_Some (dir !! g) -> isDataFile g = true ->
             leb g (saveFilename now) = true) ->
  exists dir',
    saveData now None dir data = Return (dir', saveFilename now)
    /\ getLatestDataFile (Some dir') = Some (saveFilename now)
    /\ (forall enoent,
          readSnapshot enoent dir' (saveFilename now) = Return (toJson data))
    /\ (forall data', toJson data' = toJson data -> data' = data).
Proof.
  intros Hmax. eexists. split; [apply saveData_Return|]. split; [|split].
  - apply getLatestDataFile_greatest.
    + rewrite lookup_insert_eq. eauto.
    + apply isDataFile_saveFilename.
    + intros g Hg Hd.
      destruct (decide (saveFilename now = g)) as [<-|Hne]; [apply leb_refl|].
      rewrite lookup_insert_ne in Hg by done. by apply Hmax.
  - intros enoent. unfold readSnapshot. by rewrite lookup_insert_eq.
  - intros data'. apply toJson_inj.
Qed.

Lemma saveData_then_latest_witness :
  let earlier := warsawClock 1761435000000 in
  let now := warsawClock 1761438600000 in
  let dir : gmap jsstring FileContent :=
    {[ saveFilename earlier := JsonOf olderSnapshot ]} in
  leb (saveFilename earlier) (saveFilename now) = true
  /\ exists dir',
       saveData now None dir newerSnapshot = Return (dir', saveFilename now)
       /\ getLatestDataFile (Some dir') = Some (saveFilename now)
       /\ (forall enoent,
             readSnapshot enoent dir' (saveFilename now)
             = Return (toJson newerSnapshot)).
Proof.
  intros earlier now dir.
  assert (Hleb : leb (saveFilename earlier) (saveFilename now) = true)
    by (vm_compute; reflexivity).
  split; [exact Hleb|].
  destruct (saveData_then_latest now dir newerSnapshot)
    as (dir' & Hsave & Hlatest & Hread & _).
  { intros g Hg _.
    destruct (decide (saveFilename earlier = g)) as [<-|Hg']; [exact Hleb|].
    unfold dir in Hg. rewrite lookup_singleton_ne in Hg by done. by destruct Hg. }
  exists dir'. split; [exact Hsave|]. split; [exact Hlatest|]. exact Hread.
Defined.

(** X8. The name that [saveData] gives always passes the filter of
    [getLatestDataFile]: after any write the directory has a latest
    file, and its name is the written name or a greater one. *)
Theorem saveData_passes_filter (now : Date.Date) (data : ScrapedData)
    (dir : gmap jsstring FileContent) :
  exists dir' latest,
    saveData now None dir data = Return (dir', saveFilename now)
    /\ isDataFile (saveFilename now) = true
    /\ getLatestDataFile (Some dir') = Some latest
    /\ leb (saveFilename now) latest = true.
Proof.
  destruct (getLatestDataFile
              (Some (<[saveFilename now := JsonOf data]> dir))) as [f|] eqn:E.
  - exists (<[saveFilename now := JsonOf data]> dir), f.
    split; [apply saveData_Return|]. split; [apply isDataFile_saveFilename|].
    split; [exact E|].
    apply getLatestDataFile_Some in E as (_ & _ & Hmax). apply Hmax.
    + rewrite lookup_insert_eq. eauto.
    + apply isDataFile_saveFilename.
  - rewrite getLatestDataFile_None in E.
    specialize (E (saveFilename now)). rewrite lookup_insert_eq in E.
    rewrite isDataFile_saveFilename in E. discriminate E. eauto.
Qed.

(** ** What a run leaves behind *)

(** X9. A run stores its snapshot exactly when the reading of the
    previous file, the fetch and the write succeed: then the file named
    after the moment holds the snapshot in the directory of the account,
    whether or not anything has changed, and also when the comparison
    or the mail fails afterwards, since they come after the write.  When
    one of the three fails, the run writes nothing.  A run that does not
    fail has always stored its snapshot. *)
Theorem run_store (c : PIOChecker) (env : RunEnv) (w : World) :
  match readPrevious env (dataDirs w !! accountId c), scrapeData c env with
  | Return _, Return currentData =>
      match dataDirs w !! accountId c, writeError env with
      | Some dir, None =>
          dataDirs (run c env w)
          = <[accountId c := <[saveFilename (now env) := JsonOf currentData]> dir]>
              (dataDirs w)
      | _, _ => dataDirs (run c env w) = dataDirs w
      end
  | _, _ => dataDirs (run c env w) = dataDirs w
  end
  /\ ((runTry c env w).2 = Return tt ->
      exists currentData dir,
        scrapeData c env = Return currentData
        /\ dataDirs w !! accountId c = Some dir
        /\ dataDirs (run c env w)
           = <[accountId c := <[saveFilename (now env) := JsonOf currentData]> dir]>
               (dataDirs w)).
Proof.
  rewrite run_dataDirs. split.
  - destruct (readPrevious env _); [|reflexivity].
    destruct (scrapeData c env); [|reflexivity].
    unfold saveCurrent, saveData, writeFileSync.
    destruct (dataDirs w !! accountId c); [|reflexivity].
    by destruct (writeError env).
  - pose proof (runTry_branches c env w) as Hb.
    destruct (readPrevious env _); [|by rewrite Hb].
    destruct (scrapeData c env) as [currentData|]; [|by rewrite Hb].
    unfold saveCurrent, saveData, writeFileSync in *.
    destruct (dataDirs w !! accountId c) as [dir|]; [|by rewrite Hb].
    destruct (writeError env); [by rewrite Hb|].
    intros _. eauto.
Qed.

(** X10. The mails of a run.  Without mail credentials no mail is ever
    handed to the transport.  With them, a failed run hands over the
    error report, a run that found changes hands over the detailed
    report of these changes, and a first run or a run without changes
    hands over nothing.  On a previous file that holds a snapshot the
    changes and the report are those of [compareData] and
    [createDetailedEmailContent] at their declared types. *)
Theorem run_emails (c : PIOChecker) (env : RunEnv) (w : World) :
  emails (run c env w)
  = emails w ++
    (if hasTransporter c then
       match (runTry c env w).2 with
       | Throw e =>
           [{| subject := js "PIO Checker - Error Occurred" ++
                          js " - Account: " ++ accountId c;
               html := errorReport c env e |}]
       | Return _ =>
           match readPrevious env (dataDirs w !! accountId c), scrapeData c env with
           | Return (Some previousData), Return currentData =>
               match compareDataAny (typeError env) previousData currentData with
               | Return changes =>
                   match createDetailedEmailContentAny c (localeNow env) changes
                           previousData currentData with
                   | Some content =>
                       if Value.ToBoolean previousData && hasChanges changes
                       then [{| subject := js "PIO Checker - Changes Detected!" ++
                                           js " - Account: " ++ accountId c;
                                html := content |}]
                       else []
                   | None => []
                   end
               | Throw _ => []
               end
           | _, _ => []
           end
       end
     else [])
  /\ (forall previousData currentData,
        Value.ToBoolean (toJson previousData) = true
        /\ compareDataAny (typeError env) (toJson previousData) currentData
           = Return (compareData previousData currentData)
        /\ createDetailedEmailContentAny c (localeNow env)
             (compareData previousData currentData) (toJson previousData) currentData
           = Some (createDetailedEmailContent c (localeNow env)
                     (compareData previousData currentData)
                     previousData currentData)).
Proof.
  split.
  2:{ intros previousData currentData. split; [reflexivity|].
      split; [apply compareDataAny_toJson | apply createDetailedEmailContentAny_toJson]. }
  pose proof (runTry_branches c env w) as Hb.
  pose proof (run_catch c env w) as Hcatch.
  pose proof (run_return c env w) as Hret.
  assert (Hearly : forall e, runTry c env w = (w, Throw e) ->
            emails (run c env w)
            = emails w ++
              (if hasTransporter c then
                 match (runTry c env w).2 with
                 | Throw e =>
                     [{| subject := js "PIO Checker - Error Occurred" ++
                                    js " - Account: " ++ accountId c;
                         html := errorReport c env e |}]
                 | Return _ => []
                 end
               else [])).
  { intros e H. destruct (Hcatch w e H) as (_ & _ & ->). by rewrite H. }
  destruct (readPrevious env _) as [previousData|e].
  2:{ rewrite (Hearly e Hb). by destruct ((runTry c env w).2). }
  destruct (scrapeData c env) as [currentData|e].
  2:{ rewrite (Hearly e Hb). by destruct ((runTry c env w).2), previousData. }
  destruct (saveCurrent env _ currentData) as [[dir name]|e].
  2:{ rewrite (Hearly e Hb). rewrite Hb. cbn [snd]. reflexivity. }
  clear Hearly. destruct Hb as (w' & r & Hr & _ & Hb). rewrite Hr. cbn [snd].
  assert (Hnone : r = Return tt -> emails w' = emails w ->
            emails (run c env w) = emails w ++ []).
  { intros -> He. by rewrite (Hret w' Hr), He, app_nil_r. }
  destruct previousData as [v|].
  2:{ destruct Hb as (-> & _ & He). rewrite (Hnone eq_refl He).
      by destruct (hasTransporter c). }
  destruct (Value.ToBoolean v).
  2:{ destruct Hb as (-> & _ & He). rewrite (Hnone eq_refl He).
      destruct (hasTransporter c); [|reflexivity].
      destruct (compareDataAny _ _ _); [|reflexivity].
      by destruct (createDetailedEmailContentAny _ _ _ _ _). }
  destruct (compareDataAny (typeError env) v currentData) as [changes|e].
  2:{ destruct Hb as (-> & _ & He).
      destruct (Hcatch w' e Hr) as (_ & _ & ->). by rewrite He. }
  destruct (hasChanges changes).
  2:{ destruct Hb as (-> & _ & He). rewrite (Hnone eq_refl He).
      destruct (hasTransporter c); [|reflexivity].
      by destruct (createDetailedEmailContentAny _ _ _ _ _). }
  destruct Hb as (_ & Hb). destruct (hasTransporter c).
  - destruct (createDetailedEmailContentAny _ _ _ _ _) as [content|].
    + destruct Hb as (-> & He). by rewrite (Hret w' Hr), He.
    + destruct Hb as (-> & He).
      destruct (Hcatch w' _ Hr) as (_ & _ & ->). by rewrite He.
  - destruct Hb as (-> & He). by rewrite (Hnone eq_refl He).
Qed.
(** ** Two runs in a row *)

(** X11. The first run on a directory without data files shows the
    baseline notification; the run after it compares its page with the
    snapshot that the first run stored, and shows the no-change
    notification when the main text, the tables and the numbers are
    equal, the change notification with the list of changes when they
    are not. *)
Theorem run_twice (c : PIOChecker) (env1 env2 : RunEnv) (w : World)
    (dir : gmap jsstring FileContent) (d1 d2 : ScrapedData) :
  dataDirs w !! accountId c = Some dir ->
  (forall g, is_Some (dir !! g) -> isDataFile g = false) ->
  readError env1 = None -> writeError env1 = None ->
  readError env2 = None -> writeError env2 = None ->
  scrapeData c env1 = Return d1 ->
  scrapeData c env2 = Return d2 ->
  notifications (run c env2 (run c env1 w))
  = notifications w ++
    [ {| title := titleOf Baseline c;
         message := js "Baseline data has been saved. Future runs will detect changes." |};
      if hasChanges (compareData d1 d2)
      then {| title := titleOf Changed c;
              message := js "Changes found: " ++ join (js ", ") (compareData d1 d2) |}
      else {| title := titleOf NoChange c;
              message := js "Your application status remains unchanged." |} ].
Proof.
  intros Hdir Hnone Hr1 Hw1 Hr2 Hw2 Hs1 Hs2.
  assert (Hprev1 : readPrevious env1 (dataDirs w !! accountId c)
                   = Return (toJson <$> None)).
  { unfold readPrevious. rewrite Hdir, Hr1.
    by rewrite (proj2 (getLatestDataFile_None dir) Hnone). }
  assert (Hsave1 : saveCurrent env1 (dataDirs w !! accountId c) d1
                   = Return (<[saveFilename (now env1) := JsonOf d1]> dir,
                             saveFilename (now env1))).
  { unfold saveCurrent, saveData, writeFileSync. by rewrite Hdir, Hw1. }
  pose proof (run_branches c env1 w None d1 _ Hprev1 Hs1 Hsave1) as Hn1.
  pose proof (run_dataDirs c env1 w) as Hst.
  cbn [fmap option_fmap option_map] in Hprev1.
  rewrite Hprev1, Hs1, Hsave1 in Hst.
  set (w1 := run c env1 w) in *.
  set (dir1 := <[saveFilename (now env1) := JsonOf d1]> dir) in *.
  assert (Hdir1 : dataDirs w1 !! accountId c = Some dir1)
    by (by rewrite Hst, lookup_insert_eq).
  assert (Hlatest : getLatestDataFile (Some dir1) = Some (saveFilename (now env1))).
  { apply getLatestDataFile_greatest.
    - unfold dir1. rewrite lookup_insert_eq. eauto.
    - apply isDataFile_saveFilename.
    - intros g Hg Hd. destruct (decide (saveFilename (now env1) = g)) as [<-|Hne].
      + apply leb_refl.
      + unfold dir1 in Hg. rewrite lookup_insert_ne in Hg by done.
        apply Hnone in Hg. congruence. }
  assert (Hprev2 : readPrevious env2 (dataDirs w1 !! accountId c)
                   = Return (toJson <$> Some d1)).
  { unfold readPrevious. rewrite Hdir1, Hr2, Hlatest. unfold readSnapshot, dir1.
    by rewrite lookup_insert_eq. }
  assert (Hsave2 : saveCurrent env2 (dataDirs w1 !! accountId c) d2
                   = Return (<[saveFilename (now env2) := JsonOf d2]> dir1,
                             saveFilename (now env2))).
  { unfold saveCurrent, saveData, writeFileSync. by rewrite Hdir1, Hw2. }
  rewrite (run_branches c env2 w1 (Some d1) d2 _ Hprev2 Hs2 Hsave2).
  rewrite Hn1, <- app_assoc. reflexivity.
Qed.

Lemma run_twice_witness :
  notifications
    (run (sampleChecker false) (servingEnv "Etap realizacji: 1" 1761442200000)
       (run (sampleChecker false) (servingEnv "Etap realizacji: 1" 1761438600000)
          freshWorld))
  = [ {| title := js "PIO Checker - First Run - jan@example.com";
         message := js "Baseline data has been saved. Future runs will detect changes." |};
      {| title := js "PIO Checker - No Changes - jan@example.com";
         message := js "Your application status remains unchanged." |} ].
Proof.
  rewrite (run_twice (sampleChecker false)
             (servingEnv "Etap realizacji: 1" 1761438600000)
             (servingEnv "Etap realizacji: 1" 1761442200000)
             freshWorld ∅
             (buildScrapedData (js "223199") (samplePage "Etap realizacji: 1"))
             (buildScrapedData (js "223199") (samplePage "Etap realizacji: 1")));
    try reflexivity.
  intros g [x Hx]. by rewrite lookup_empty in Hx.
Defined.

(** X12. A run touches one file at most: apart from the file named
    after the moment of the run in the directory of its account, every
    file of every account is after the run as it was before. *)
Theorem run_keeps_other_files (c : PIOChecker) (env : RunEnv) (w : World)
    (account file : jsstring) :
  (account, file) <> (accountId c, saveFilename (now env)) ->
  (dataDirs (run c env w) !! account) ≫= (fun dir => dir !! file)
  = (dataDirs w !! account) ≫= (fun dir => dir !! file).
Proof.
  intros Hne. rewrite run_dataDirs.
  destruct (readPrevious env _); [|reflexivity].
  destruct (scrapeData c env) as [currentData|]; [|reflexivity].
  unfold saveCurrent, saveData, writeFileSync.
  destruct (dataDirs w !! accountId c) as [dir|] eqn:Hdir; [|reflexivity].
  destruct (writeError env); [reflexivity|].
  destruct (decide (accountId c = account)) as [<-|Ha].
  - rewrite lookup_insert_eq, Hdir. cbn [mbind option_bind].
    apply lookup_insert_ne. intros Heq. apply Hne. by rewrite Heq.
  - by rewrite lookup_insert_ne.
Qed.

Lemma run_keeps_other_files_witness :
  let w := {| dataDirs := {[ js "jan@example.com" :=
                               {[ js "szczegoly-wniosku_2024-01-01T00-00-00.json"
                                  := JsonOf olderSnapshot ]} ]};
              notifications := []; emails := [] |} in
  (dataDirs (run (sampleChecker false)
                 (servingEnv "Etap realizacji: 2" 1761438600000) w)
     !! js "jan@example.com")
    ≫= (fun dir => dir !! js "szczegoly-wniosku_2024-01-01T00-00-00.json")
  = Some (JsonOf olderSnapshot).
Proof.
  intros w.
  rewrite (run_keeps_other_files (sampleChecker false)
             (servingEnv "Etap realizacji: 2" 1761438600000) w).
  - reflexivity.
  - vm_compute. discriminate.
Defined.

(** ** One account by its login, and the accounts file *)

Section Single.




End Single.


(** X14. [loadAccountsConfig] answers a list of accounts only for a
    file that holds an array with at least one account: then the list
    has the accounts of the file in their order, each with its login,
    password and element text, and each with the headless setting of
    the caller, whatever the file says.  A missing file, a text that
    does not parse, a value that is not an array and an empty array
    throw. *)
Theorem loadAccountsConfig_result (headless : bool) (file : AccountsFile) :
  match loadAccountsConfig headless file with
  | Return loaded =>
      exists accounts, file = AccountsArray accounts /\ accounts <> []
        /\ loaded <> []
        /\ cfg_login <$> loaded = cfg_login <$> accounts
        /\ cfg_password <$> loaded = cfg_password <$> accounts
        /\ cfg_elementText <$> loaded = cfg_elementText <$> accounts
        /\ Forall (fun acc => cfg_headless acc = headless) loaded
  | Throw _ =>
      match file with
      | AccountsArray accounts => accounts = []
      | _ => True
      end
  end.
Proof.
  destruct file as [| | |accounts]; cbn; try done.
  destruct accounts as [|a accounts]; cbn [length Nat.eqb]; [done|].
  exists (a :: accounts). split; [done|]. split; [done|]. split; [done|].
  rewrite <- !list_fmap_compose.
  split; [by apply list_fmap_ext|]. split; [by apply list_fmap_ext|].
  split; [by apply list_fmap_ext|].
  apply Forall_fmap, Forall_forall. done.
Qed.

(** ** What the report shows *)

Section Includes.

Implicit Types s p a b : jsstring.

Lemma startsWith_split s p : startsWith s p = true -> exists b, s = p ++ b.
Proof.
  revert s. induction p as [|x p IH]; intros s; [by exists s|].
  destruct s as [|y s]; cbn; [discriminate|].
  intros [Hxy Hs]%andb_prop. apply N.eqb_eq in Hxy as ->.
  destruct (IH _ Hs) as [b ->]. by exists b.
Qed.

Lemma includes_split s p : includes s p = true <-> exists a b, s = a ++ p ++ b.
Proof.
  split.
  - induction s as [|x s IH]; cbn [includes].
    + rewrite orb_false_r. intros [b ->]%startsWith_split. by exists [], b.
    + intros [H|H]%orb_prop.
      * apply startsWith_split in H as [b ->]. by exists [], b.
      * destruct (IH H) as (a & b & ->). by exists (x :: a), b.
  - intros (a & b & ->). apply includes_app.
Qed.

(** A part of a text holds what the text around it holds. *)
Lemma includes_inside a s b p :
  includes s p = true -> includes (a ++ s ++ b) p = true.
Proof.
  intros (a' & b' & ->)%includes_split. apply includes_split.
  exists (a ++ a'), (b' ++ b). by rewrite <- !app_assoc.
Qed.

Lemma includes_refl s : includes s s = true.
Proof. apply includes_split. exists [], []. by rewrite app_nil_r. Qed.

Lemma includes_prefix s b p : includes s p = true -> includes (s ++ b) p = true.
Proof. apply (includes_inside [] s b p). Qed.

Lemma includes_suffix a s p : includes s p = true -> includes (a ++ s) p = true.
Proof.
  intros H. rewrite <- (app_nil_r s). by apply includes_inside.
Qed.

Lemma concat_lookup (l : list jsstring) i x :
  l !! i = Some x -> exists a b, concat l = a ++ x ++ b.
Proof.
  revert i. induction l as [|y l IH]; intros [|i]; cbn; try discriminate.
  - intros [= ->]. by exists [], (concat l).
  - intros (a & b & ->)%IH. exists (y ++ a), b. by rewrite <- app_assoc.
Qed.

Lemma includes_concat (l : list jsstring) i x p :
  l !! i = Some x -> includes x p = true -> includes (concat l) p = true.
Proof.
  intros (a & b & ->)%concat_lookup. apply includes_inside.
Qed.

End Includes.

(** X15. The table view shows every cell of every row of every table
    as it is, with no character of it changed or escaped: in a header
    cell for the first row of its table, in a data cell for the other
    rows, under the heading of its table, which counts from one. *)
Theorem formatTablesForEmail_cells (tables : list (list (list jsstring)))
    (i j k : nat) (table : list (list jsstring)) (row : list jsstring)
    (cell : jsstring) :
  tables !! i = Some table -> table !! j = Some row -> row !! k = Some cell ->
  includes (formatTablesForEmail (Some tables))
           (js "<h5>Table " ++ String_of_N (N.of_nat (i + 1)) ++ js ":</h5>") = true
  /\ includes (formatTablesForEmail (Some tables))
              (js "<" ++ (if (j =? 0)%nat then js "th" else js "td") ++
               js " style=" ++ dq ++ js "padding: 5px; border: 1px solid #ccc;" ++
               dq ++ js ">" ++ cell ++ js "</" ++
               (if (j =? 0)%nat then js "th" else js "td") ++ js ">") = true.
Proof.
  intros Ht Hr Hc. unfold formatTablesForEmail.
  destruct tables as [|t0 ts] eqn:E; [discriminate|]. rewrite <- E in *.
  replace (length tables =? 0)%nat with false by (by rewrite E).
  assert (Hti : imap formatTable tables !! i = Some (formatTable i table))
    by (by rewrite list_lookup_imap, Ht).
  split.
  - eapply includes_concat; [exact Hti|].
    unfold formatTable. apply includes_split. eexists [], _. cbn [app].
    rewrite <- !app_assoc. reflexivity.
  - eapply includes_concat; [exact Hti|].
    unfold formatTable. do 12 apply includes_suffix. apply includes_prefix.
    eapply includes_concat.
    + by rewrite list_lookup_imap, Hr.
    + unfold formatRow. apply includes_suffix, includes_prefix.
      eapply includes_concat.
      * by rewrite list_lookup_fmap, Hc.
      * apply includes_refl.
Qed.

Lemma formatTablesForEmail_cells_witness :
  includes (formatTablesForEmail
              (Some [[[js "Etap"; js "Data"]; [js "<b>1</b>"; js "20.12.2024"]]]))
           (js "<td style=" ++ dq ++ js "padding: 5px; border: 1px solid #ccc;" ++
            dq ++ js "><b>1</b></td>") = true.
Proof.
  apply (formatTablesForEmail_cells
           [[[js "Etap"; js "Data"]; [js "<b>1</b>"; js "20.12.2024"]]]
           0 1 0 _ _ (js "<b>1</b>") eq_refl eq_refl eq_refl).
Defined.

Section ReportContent.

Implicit Types (c : PIOChecker) (previousData currentData : ScrapedData).

Lemma reportFoot_link c pageUrl :
  includes (reportFoot c pageUrl)
           (js "<a href=" ++ dq ++ pageUrl ++ dq ++ js ">" ++ pageUrl ++ js "</a>")
  = true.
Proof.
  unfold reportFoot.
  change (js "<p><strong>Application URL:</strong> <a href=")
    with (js "<p><strong>Application URL:</strong> " ++ js "<a href=").
  change (js "</a></p>") with (js "</a>" ++ js "</p>").
  apply includes_split.
  exists (nl ++ indent 12 ++ js "<hr>" ++ nl ++ indent 12 ++
          js "<p><strong>Application URL:</strong> "),
    (js "</p>" ++ nl ++ indent 12 ++
     js "<p><em>This is an automated notification from PIO Checker for account " ++
     accountId c ++ js ".</em></p>" ++ nl ++ indent 8).
  rewrite <- !app_assoc. reflexivity.
Qed.

End ReportContent.

(** X16. The detailed report lists every change it was given, shows
    the table section when the table change is among them and the
    number section when the number change is, and always links the
    address of the current snapshot. *)
Theorem createDetailedEmailContent_shows (c : PIOChecker) (localeNow : jsstring)
    (changes : list jsstring) (previousData currentData : ScrapedData) :
  let report :=
    createDetailedEmailContent c localeNow changes previousData currentData in
  (forall change, change ∈ changes ->
     includes report (js "<li>" ++ change ++ js "</li>") = true)
  /\ (TABLE_CHANGED ∈ changes ->
      includes report (tableSection previousData currentData) = true)
  /\ (NUMBERS_CHANGED ∈ changes ->
      includes report (numberSection previousData currentData) = true)
  /\ includes report
       (js "<a href=" ++ dq ++ url currentData ++ dq ++ js ">" ++
        url currentData ++ js "</a>") = true.
Proof.
  intros report. subst report. rewrite createDetailedEmailContent_parts.
  split; [|split; [|split]].
  - intros change Hin. apply includes_suffix, includes_prefix.
    apply list_elem_of_lookup in Hin as [i Hi].
    eapply (includes_concat _ i); [|apply includes_refl].
    by rewrite list_lookup_fmap, Hi.
  - intros Hin. unfold array_includes. rewrite bool_decide_eq_true_2 by done.
    do 3 apply includes_suffix. apply includes_prefix, includes_refl.
  - intros Hin. unfold array_includes at 2. rewrite bool_decide_eq_true_2 by done.
    do 4 apply includes_suffix. apply includes_prefix, includes_refl.
  - do 5 apply includes_suffix. apply reportFoot_link.
Qed.

Lemma createDetailedEmailContent_shows_witness :
  includes (createDetailedEmailContent (sampleChecker true) (js "26.10.2025, 02:30:00")
              [MAIN_CHANGED; NUMBERS_CHANGED] olderSnapshot newerSnapshot)
           (js "<li>" ++ NUMBERS_CHANGED ++ js "</li>") = true
  /\ includes (createDetailedEmailContent (sampleChecker true) (js "26.10.2025, 02:30:00")
                 [MAIN_CHANGED; NUMBERS_CHANGED] olderSnapshot newerSnapshot)
              (numberSection olderSnapshot newerSnapshot) = true.
Proof.
  destruct (createDetailedEmailContent_shows (sampleChecker true)
              (js "26.10.2025, 02:30:00") [MAIN_CHANGED; NUMBERS_CHANGED]
              olderSnapshot newerSnapshot) as (H1 & _ & H3 & _).
  split.
  - apply H1. apply list_elem_of_further, list_elem_of_here.
  - apply H3. apply list_elem_of_further, list_elem_of_here.
Defined.

(** X17. The detailed report never shows the main text.  It depends on
    the two snapshots through their tables, their numbers and the
    address of the current one only; when the change of the main text
    is the only change, the report is the same for all snapshots with
    that address, so it says that the content has changed and nothing
    of what has changed. *)
Theorem createDetailedEmailContent_hides_text (c : PIOChecker) (localeNow : jsstring)
    (changes : list jsstring) (previousData currentData previousData' currentData'
       : ScrapedData) :
  url currentData' = url currentData ->
  (fields previousData' = fields previousData
   /\ fields currentData' = fields currentData)
  \/ ((TABLE_CHANGED ∉ changes) /\ (NUMBERS_CHANGED ∉ changes)) ->
  createDetailedEmailContent c localeNow changes previousData' currentData'
  = createDetailedEmailContent c localeNow changes previousData currentData.
Proof.
  intros Hurl H. rewrite !createDetailedEmailContent_parts, Hurl.
  destruct H as [[Hp Hc]|[Ht Hn]].
  - unfold tableSection, numberSection. by rewrite Hp, Hc.
  - unfold array_includes. by rewrite !bool_decide_eq_false_2 by done.
Qed.

Lemma createDetailedEmailContent_hides_text_witness :
  createDetailedEmailContent (sampleChecker true) (js "26.10.2025, 02:30:00")
    [MAIN_CHANGED] snapshotWithoutNumbers newerSnapshot
  = createDetailedEmailContent (sampleChecker true) (js "26.10.2025, 02:30:00")
      [MAIN_CHANGED] olderSnapshot olderSnapshot.
Proof.
  apply createDetailedEmailContent_hides_text; [reflexivity|].
  right. split; intros H; apply list_elem_of_singleton in H; discriminate H.
Defined.

(** X18. With a table change among the changes, previous tables that
    are missing or empty are shown by the placeholder under the heading
    of the previous data. *)
Theorem detailed_report_previous_placeholder (c : PIOChecker) (localeNow : jsstring)
    (changes : list jsstring) (previousData currentData : ScrapedData) :
  orEmpty (tables (fields previousData)) = [] ->
  TABLE_CHANGED ∈ changes ->
  includes (createDetailedEmailContent c localeNow changes previousData currentData)
           (js "<h4>Previous Data:</h4>" ++ NO_TABLE_DATA) = true.
Proof.
  intros Ht Hin. apply detailed_report_table_placeholder; [done|].
  unfold array_includes. by apply bool_decide_eq_true_2.
Qed.

Lemma detailed_report_previous_placeholder_witness :
  includes (createDetailedEmailContent (sampleChecker true) (js "26.10.2025, 02:30:00")
              [TABLE_CHANGED] olderSnapshot newerSnapshot)
           (js "<h4>Previous Data:</h4>" ++ NO_TABLE_DATA) = true.
Proof.
  apply detailed_report_previous_placeholder; [reflexivity|].
  apply list_elem_of_here.
Defined.
(** ** The names of the earlier checker *)

Section LegacyNames.

Import Date.
Local Open Scope Z_scope.

Ltac ndiv := zify; Z.to_euclidean_division_equations; lia.

Lemma lex_then_lt a : forall b r, lex_ltb a b = true -> lex_then a b r = true.
Proof.
  induction a as [|x a IH]; intros [|y b] r; cbn; try discriminate.
  destruct (x <? y); [reflexivity|]. destruct (x =? y); [|discriminate].
  cbn. apply IH.
Qed.

Lemma lex_then_gt a : forall b r, lex_ltb b a = true -> lex_then a b r = false.
Proof.
  induction a as [|x a IH]; intros [|y b] r; cbn; try discriminate.
  destruct (Z.ltb_spec y x), (Z.eqb_spec y x), (Z.ltb_spec x y), (Z.eqb_spec x y);
    cbn; try lia; try discriminate; try reflexivity.
  apply IH.
Qed.

Lemma lex_then_refl a r : lex_then a a r = r.
Proof.
  induction a as [|x a IH]; [reflexivity|]. cbn.
  by rewrite Z.ltb_irrefl, Z.eqb_refl, IH.
Qed.

(** Four digits of a year from 0 to 9999, and three of the
    milliseconds. *)
Lemma pad4 (y : Z) :
  0 <= y <= 9999 ->
  padStart (String_of_Z y) 4 (js "0") = two (y / 100) ++ two (y mod 100).
Proof.
  intros Hy. unfold String_of_Z, two.
  destruct (Z.ltb_spec y 0); [lia|].
  set (n := Z.to_N y).
  replace (Z.to_N (y / 100)) with (n / 100)%N by (unfold n; ndiv).
  replace (Z.to_N (y mod 100)) with (n mod 100)%N by (unfold n; ndiv).
  assert (Hn : (n <= 9999)%N) by lia. clearbody n. clear Hy H y.
  destruct (N.lt_ge_cases n 10) as [H1|H1];
    [|destruct (N.lt_ge_cases n 100) as [H2|H2];
      [|destruct (N.lt_ge_cases n 1000) as [H3|H3]]].
  - rewrite String_of_N_small by done.
    replace (n / 100 / 10)%N with 0%N by ndiv.
    replace ((n / 100) mod 10)%N with 0%N by ndiv.
    replace (n mod 100 / 10)%N with 0%N by ndiv.
    replace ((n mod 100) mod 10)%N with n by ndiv.
    reflexivity.
  - rewrite String_of_N_step, String_of_N_small by ndiv.
    replace (n / 100 / 10)%N with 0%N by ndiv.
    replace ((n / 100) mod 10)%N with 0%N by ndiv.
    replace (n mod 100 / 10)%N with (n / 10)%N by ndiv.
    replace ((n mod 100) mod 10)%N with (n mod 10)%N by ndiv.
    reflexivity.
  - rewrite (String_of_N_step n) by lia.
    rewrite (String_of_N_step (n / 10)) by ndiv.
    rewrite String_of_N_small by ndiv.
    replace (n / 100 / 10)%N with 0%N by ndiv.
    replace ((n / 100) mod 10)%N with (n / 10 / 10)%N by ndiv.
    replace (n mod 100 / 10)%N with ((n / 10) mod 10)%N by ndiv.
    replace ((n mod 100) mod 10)%N with (n mod 10)%N by ndiv.
    reflexivity.
  - rewrite (String_of_N_step n) by lia.
    rewrite (String_of_N_step (n / 10)) by ndiv.
    rewrite (String_of_N_step (n / 10 / 10)) by ndiv.
    rewrite String_of_N_small by ndiv.
    replace (n / 100 / 10)%N with (n / 10 / 10 / 10)%N by ndiv.
    replace ((n / 100) mod 10)%N with ((n / 10 / 10) mod 10)%N by ndiv.
    replace (n mod 100 / 10)%N with ((n / 10) mod 10)%N by ndiv.
    replace ((n mod 100) mod 10)%N with (n mod 10)%N by ndiv.
    reflexivity.
Qed.

Lemma pad3 (x : Z) :
  0 <= x < 1000 ->
  padStart (String_of_Z x) 3 (js "0") = (48 + Z.to_N (x / 100))%N :: two (x mod 100).
Proof.
  intros Hx. unfold String_of_Z, two.
  destruct (Z.ltb_spec x 0); [lia|].
  set (n := Z.to_N x).
  replace (Z.to_N (x / 100)) with (n / 100)%N by (unfold n; ndiv).
  replace (Z.to_N (x mod 100)) with (n mod 100)%N by (unfold n; ndiv).
  assert (Hn : (n < 1000)%N) by lia. clearbody n. clear Hx H x.
  destruct (N.lt_ge_cases n 10) as [H1|H1];
    [|destruct (N.lt_ge_cases n 100) as [H2|H2]].
  - rewrite String_of_N_small by done.
    replace (n / 100)%N with 0%N by ndiv.
    replace (n mod 100 / 10)%N with 0%N by ndiv.
    replace ((n mod 100) mod 10)%N with n by ndiv.
    reflexivity.
  - rewrite String_of_N_step, String_of_N_small by ndiv.
    replace (n / 100)%N with 0%N by ndiv.
    replace (n mod 100 / 10)%N with (n / 10)%N by ndiv.
    replace ((n mod 100) mod 10)%N with (n mod 10)%N by ndiv.
    reflexivity.
  - rewrite (String_of_N_step n) by lia.
    rewrite (String_of_N_step (n / 10)) by ndiv.
    rewrite String_of_N_small by ndiv.
    replace (n / 100)%N with (n / 10 / 10)%N by ndiv.
    replace (n mod 100 / 10)%N with ((n / 10) mod 10)%N by ndiv.
    replace ((n mod 100) mod 10)%N with (n mod 10)%N by ndiv.
    reflexivity.
Qed.

Lemma msFromTime_range t : 0 <= Legacy.msFromTime t <= 999.
Proof. unfold Legacy.msFromTime, msPerSecond. ndiv. Qed.

(** The text of [toISOString], field by field. *)
Lemma toISOString_form (d : Date) :
  0 <= YearFromTime (timeValue d) <= 9999 ->
  Legacy.toISOString d
  = two (YearFromTime (timeValue d) / 100) ++
    two (YearFromTime (timeValue d) mod 100) ++
    45%N :: two (MonthFromTime (timeValue d) + 1) ++
    45%N :: two (DateFromTime (timeValue d)) ++
    84%N :: two (HourFromTime (timeValue d)) ++
    58%N :: two (MinFromTime (timeValue d)) ++
    58%N :: two (SecFromTime (timeValue d)) ++
    46%N :: (48 + Z.to_N (Legacy.msFromTime (timeValue d) / 100))%N ::
    two (Legacy.msFromTime (timeValue d) mod 100) ++ [90%N].
Proof.
  intros Hy. unfold Legacy.toISOString.
  pose proof (MonthFromTime_range (timeValue d)).
  pose proof (DateFromTime_range (timeValue d)).
  pose proof (HourFromTime_range (timeValue d)).
  pose proof (MinFromTime_range (timeValue d)).
  pose proof (SecFromTime_range (timeValue d)).
  pose proof (msFromTime_range (timeValue d)).
  destruct (Z.leb_spec 0 (YearFromTime (timeValue d))); [|lia].
  destruct (Z.leb_spec (YearFromTime (timeValue d)) 9999); [|lia].
  cbn [andb].
  rewrite pad4, pad3, !pad2 by lia. rewrite <- !app_assoc. reflexivity.
Qed.

Lemma replaceColonsAndDots_app a b :
  Legacy.replaceColonsAndDots (a ++ b)
  = Legacy.replaceColonsAndDots a ++ Legacy.replaceColonsAndDots b.
Proof. apply fmap_app. Qed.

Lemma replaceColonsAndDots_digit (n : N) r :
  (n < 10)%N ->
  Legacy.replaceColonsAndDots ((48 + n)%N :: r)
  = (48 + n)%N :: Legacy.replaceColonsAndDots r.
Proof.
  intros Hn. unfold Legacy.replaceColonsAndDots. rewrite fmap_cons.
  destruct (N.eqb_spec (48 + n) 58); [lia|].
  destruct (N.eqb_spec (48 + n) 46); [lia|]. reflexivity.
Qed.

Lemma replaceColonsAndDots_two x r :
  0 <= x < 100 ->
  Legacy.replaceColonsAndDots (two x ++ r) = two x ++ Legacy.replaceColonsAndDots r.
Proof.
  intros Hx. unfold two. cbn [app].
  rewrite !replaceColonsAndDots_digit by ndiv. reflexivity.
Qed.

Lemma replaceColonsAndDots_cons c r :
  Legacy.replaceColonsAndDots (c :: r)
  = (if (c =? 58)%N || (c =? 46)%N then 45%N else c) :: Legacy.replaceColonsAndDots r.
Proof. reflexivity. Qed.

(** The name of the earlier checker, field by field. *)
Lemma legacy_saveFilename_form (d : Date) :
  0 <= YearFromTime (timeValue d) <= 9999 ->
  Legacy.saveFilename d
  = FILE_PREFIX ++
    two (YearFromTime (timeValue d) / 100) ++
    two (YearFromTime (timeValue d) mod 100) ++
    45%N :: two (MonthFromTime (timeValue d) + 1) ++
    45%N :: two (DateFromTime (timeValue d)) ++
    84%N :: two (HourFromTime (timeValue d)) ++
    45%N :: two (MinFromTime (timeValue d)) ++
    45%N :: two (SecFromTime (timeValue d)) ++
    45%N :: (48 + Z.to_N (Legacy.msFromTime (timeValue d) / 100))%N ::
    two (Legacy.msFromTime (timeValue d) mod 100) ++ 90%N :: FILE_SUFFIX.
Proof.
  intros Hy. unfold Legacy.saveFilename. rewrite toISOString_form by done.
  pose proof (MonthFromTime_range (timeValue d)).
  pose proof (DateFromTime_range (timeValue d)).
  pose proof (HourFromTime_range (timeValue d)).
  pose proof (MinFromTime_range (timeValue d)).
  pose proof (SecFromTime_range (timeValue d)).
  pose proof (msFromTime_range (timeValue d)).
  f_equal.
  rewrite !replaceColonsAndDots_two by ndiv.
  rewrite replaceColonsAndDots_cons, replaceColonsAndDots_two by lia.
  rewrite replaceColonsAndDots_cons, replaceColonsAndDots_two by lia.
  rewrite replaceColonsAndDots_cons, replaceColonsAndDots_two by lia.
  rewrite replaceColonsAndDots_cons, replaceColonsAndDots_two by lia.
  rewrite replaceColonsAndDots_cons, replaceColonsAndDots_two by lia.
  rewrite replaceColonsAndDots_cons, replaceColonsAndDots_digit by ndiv.
  rewrite replaceColonsAndDots_two by ndiv.
  rewrite <- !app_assoc. reflexivity.
Qed.

Lemma ltb_four x y r1 r2 :
  0 <= x <= 9999 -> 0 <= y <= 9999 ->
  ltb (two (x / 100) ++ two (x mod 100) ++ r1) (two (y / 100) ++ two (y mod 100) ++ r2)
  = (x <? y) || ((x =? y) && ltb r1 r2).
Proof.
  intros Hx Hy. rewrite !ltb_two by ndiv.
  destruct (Z.ltb_spec (x / 100) (y / 100)), (Z.eqb_spec (x / 100) (y / 100)),
    (Z.ltb_spec (x mod 100) (y mod 100)), (Z.eqb_spec (x mod 100) (y mod 100)),
    (Z.ltb_spec x y), (Z.eqb_spec x y); cbn [orb andb]; try reflexivity; ndiv.
Qed.

Lemma ltb_three x y r1 r2 :
  0 <= x <= 999 -> 0 <= y <= 999 ->
  ltb ((48 + Z.to_N (x / 100))%N :: two (x mod 100) ++ r1)
      ((48 + Z.to_N (y / 100))%N :: two (y mod 100) ++ r2)
  = (x <? y) || ((x =? y) && ltb r1 r2).
Proof.
  intros Hx Hy. cbn [ltb]. rewrite !ltb_two by ndiv.
  destruct (N.ltb_spec (48 + Z.to_N (x / 100)) (48 + Z.to_N (y / 100))),
    (N.eqb_spec (48 + Z.to_N (x / 100)) (48 + Z.to_N (y / 100))),
    (Z.ltb_spec (x mod 100) (y mod 100)), (Z.eqb_spec (x mod 100) (y mod 100)),
    (Z.ltb_spec x y), (Z.eqb_spec x y); cbn [orb andb]; try reflexivity; ndiv.
Qed.

(** The order of the names is the lexicographic order of the six fields
    of the second, then of the milliseconds. *)
Lemma legacy_saveFilename_ltb_fields a b :
  0 <= YearFromTime (timeValue a) <= 9999 ->
  0 <= YearFromTime (timeValue b) <= 9999 ->
  ltb (Legacy.saveFilename a) (Legacy.saveFilename b)
  = lex_then (fieldsOfTime (timeValue a)) (fieldsOfTime (timeValue b))
      (Legacy.msFromTime (timeValue a) <? Legacy.msFromTime (timeValue b)).
Proof.
  intros Ha Hb. rewrite !legacy_saveFilename_form by done. rewrite ltb_app_same.
  set (ta := timeValue a) in *. set (tb := timeValue b) in *.
  pose proof (MonthFromTime_range ta). pose proof (MonthFromTime_range tb).
  pose proof (DateFromTime_range ta). pose proof (DateFromTime_range tb).
  pose proof (HourFromTime_range ta). pose proof (HourFromTime_range tb).
  pose proof (MinFromTime_range ta). pose proof (MinFromTime_range tb).
  pose proof (SecFromTime_range ta). pose proof (SecFromTime_range tb).
  pose proof (msFromTime_range ta). pose proof (msFromTime_range tb).
  rewrite ltb_four by done.
  rewrite ltb_cons_same, ltb_two by lia.
  rewrite ltb_cons_same, ltb_two by lia.
  rewrite ltb_cons_same, ltb_two by lia.
  rewrite ltb_cons_same, ltb_two by lia.
  rewrite ltb_cons_same, ltb_two by lia.
  rewrite ltb_cons_same, ltb_three by lia.
  rewrite ltb_irrefl, andb_false_r, orb_false_r.
  unfold fieldsOfTime. cbn [lex_then].
  replace (MonthFromTime ta + 1 <? MonthFromTime tb + 1)
    with (MonthFromTime ta <? MonthFromTime tb)
    by (destruct (Z.ltb_spec (MonthFromTime ta) (MonthFromTime tb));
        symmetry; [apply Z.ltb_lt | apply Z.ltb_ge]; lia).
  replace (MonthFromTime ta + 1 =? MonthFromTime tb + 1)
    with (MonthFromTime ta =? MonthFromTime tb)
    by (destruct (Z.eqb_spec (MonthFromTime ta) (MonthFromTime tb));
        symmetry; [apply Z.eqb_eq | apply Z.eqb_neq]; lia).
  reflexivity.
Qed.

(** The order of the names is the order of the time values. *)
Lemma legacy_saveFilename_ltb a b :
  0 <= YearFromTime (timeValue a) <= 9999 ->
  0 <= YearFromTime (timeValue b) <= 9999 ->
  ltb (Legacy.saveFilename a) (Legacy.saveFilename b) = (timeValue a <? timeValue b).
Proof.
  intros Ha Hb. rewrite legacy_saveFilename_ltb_fields by done.
  set (ta := timeValue a). set (tb := timeValue b).
  destruct (Z.lt_trichotomy (ta / msPerSecond) (tb / msPerSecond)) as [Hlt|[Heq|Hgt]].
  - rewrite lex_then_lt by (rewrite fieldsOfTime_ltb; by apply Z.ltb_lt).
    symmetry. apply Z.ltb_lt. unfold msPerSecond in Hlt. ndiv.
  - rewrite (fieldsOfTime_second ta tb) by done. rewrite lex_then_refl.
    unfold Legacy.msFromTime. unfold msPerSecond in *.
    destruct (Z.ltb_spec (ta mod 1000) (tb mod 1000)), (Z.ltb_spec ta tb);
      try reflexivity; ndiv.
  - rewrite lex_then_gt by (rewrite fieldsOfTime_ltb; apply Z.ltb_lt; lia).
    symmetry. apply Z.ltb_ge. unfold msPerSecond in Hgt. ndiv.
Qed.

Lemma isDataFile_legacy_saveFilename now : isDataFile (Legacy.saveFilename now) = true.
Proof.
  unfold isDataFile, Legacy.saveFilename. apply andb_true_intro. split.
  - apply startsWith_app.
  - unfold endsWith. rewrite app_assoc, reverse_app. apply startsWith_app.
Qed.

Lemma legacy_saveFilename_eq_iff a b :
  0 <= YearFromTime (timeValue a) <= 9999 ->
  0 <= YearFromTime (timeValue b) <= 9999 ->
  Legacy.saveFilename a = Legacy.saveFilename b <-> timeValue a = timeValue b.
Proof.
  intros Ha Hb. split.
  - intros E.
    pose proof (legacy_saveFilename_ltb a b Ha Hb) as H1.
    pose proof (legacy_saveFilename_ltb b a Hb Ha) as H2.
    rewrite E, ltb_irrefl in H1. rewrite E, ltb_irrefl in H2.
    symmetry in H1, H2. apply Z.ltb_ge in H1, H2. lia.
  - intros E. unfold Legacy.saveFilename, Legacy.toISOString. by rewrite E.
Qed.

End LegacyNames.

(** X19. The earlier checker names a file after the time value of the
    write, in UTC and to the millisecond: for years from 0 to 9999 the
    order of two names in the order of [sort()] is the order of the two
    instants, and two names are equal only for the same instant,
    whatever the time zone of the host. *)
Theorem legacy_names_follow_time (a b : Date.Date) :
  (0 <= Date.YearFromTime (Date.timeValue a) <= 9999)%Z ->
  (0 <= Date.YearFromTime (Date.timeValue b) <= 9999)%Z ->
  ltb (Legacy.saveFilename a) (Legacy.saveFilename b)
  = (Date.timeValue a <? Date.timeValue b)%Z
  /\ (Legacy.saveFilename a = Legacy.saveFilename b
      <-> Date.timeValue a = Date.timeValue b).
Proof.
  intros Ha Hb. split.
  - by apply legacy_saveFilename_ltb.
  - by apply legacy_saveFilename_eq_iff.
Qed.

Lemma legacy_names_follow_time_witness :
  ltb (Legacy.saveFilename (warsawClock 1761438600000))
      (Legacy.saveFilename (warsawClock 1761442200000)) = true.
Proof.
  assert (Y1 : Date.YearFromTime 1761438600000 = 2025%Z) by (vm_compute; reflexivity).
  assert (Y2 : Date.YearFromTime 1761442200000 = 2025%Z) by (vm_compute; reflexivity).
  destruct (legacy_names_follow_time (warsawClock 1761438600000)
              (warsawClock 1761442200000)) as [H _].
  - cbn [warsawClock Date.timeValue]. rewrite Y1. lia.
  - cbn [warsawClock Date.timeValue]. rewrite Y2. lia.
  - rewrite H. reflexivity.
Defined.

(** X20. In the earlier checker the latest file is the most recent
    capture: when every data file of the directory was named by the
    earlier [saveData] at an instant not after the present one, the name
    that [saveData] writes now is what [getLatestDataFile] answers
    next, and the file parses back to the value of the snapshot, from
    which the snapshot can be told. *)
Theorem legacy_saveData_then_latest (now : Date.Date)
    (dir : gmap jsstring FileContent) (data : ScrapedData) :
  (0 <= Date.YearFromTime (Date.timeValue now) <= 9999)%Z ->
  (forall g, is_Some (dir !! g) -> isDataFile g = true ->
     exists d, g = Legacy.saveFilename d
               /\ (0 <= Date.YearFromTime (Date.timeValue d) <= 9999)%Z
               /\ (Date.timeValue d <= Date.timeValue now)%Z) ->
  exists dir',
    Legacy.saveData now None dir data = Return (dir', Legacy.saveFilename now)
    /\ getLatestDataFile (Some dir') = Some (Legacy.saveFilename now)
    /\ (forall enoent,
          readSnapshot enoent dir' (Legacy.saveFilename now) = Return (toJson data))
    /\ (forall data', toJson data' = toJson data -> data' = data).
Proof.
  intros Hnow Hdir.
  exists (<[Legacy.saveFilename now := JsonOf data]> dir).
  split; [reflexivity|]. split; [|split].
  - apply getLatestDataFile_greatest.
    + rewrite lookup_insert_eq. eauto.
    + apply isDataFile_legacy_saveFilename.
    + intros g Hg Hd.
      destruct (decide (Legacy.saveFilename now = g)) as [<-|Hne]; [apply leb_refl|].
      rewrite lookup_insert_ne in Hg by done.
      destruct (Hdir g Hg Hd) as (d & -> & Hy & Hle).
      unfold leb. rewrite legacy_saveFilename_ltb by done.
      apply negb_true_iff, Z.ltb_ge. exact Hle.
  - intros enoent. unfold readSnapshot. by rewrite lookup_insert_eq.
  - intros data'. apply toJson_inj.
Qed.

Lemma legacy_saveData_then_latest_witness :
  exists dir',
    Legacy.saveData (warsawClock 1761442200000) None
      {[ Legacy.saveFilename (warsawClock 1761438600000) := JsonOf olderSnapshot ]}
      newerSnapshot
    = Return (dir', Legacy.saveFilename (warsawClock 1761442200000))
    /\ getLatestDataFile (Some dir')
       = Some (Legacy.saveFilename (warsawClock 1761442200000))
    /\ (forall enoent,
          readSnapshot enoent dir' (Legacy.saveFilename (warsawClock 1761442200000))
          = Return (toJson newerSnapshot))
    /\ (forall data', toJson data' = toJson newerSnapshot -> data' = newerSnapshot).
Proof.
  assert (Y1 : Date.YearFromTime 1761438600000 = 2025%Z) by (vm_compute; reflexivity).
  assert (Y2 : Date.YearFromTime 1761442200000 = 2025%Z) by (vm_compute; reflexivity).
  apply legacy_saveData_then_latest.
  - cbn [warsawClock Date.timeValue]. rewrite Y2. lia.
  - intros g Hg _. exists (warsawClock 1761438600000).
    destruct (decide (Legacy.saveFilename (warsawClock 1761438600000) = g)) as [<-|Hne].
    + split; [reflexivity|]. cbn [warsawClock Date.timeValue]. rewrite Y1. lia.
    + rewrite lookup_singleton_ne in Hg by done. by destruct Hg.
Defined.
(** ** The scheduler of the desktop application *)

Section SchedulerFacts.

Import Scheduler.

Context (rejects : CronSpec -> option jsstring).

Implicit Types (st : State) (settings : Settings) (ts : list ScheduledTask).

Lemma accepted_length_rejection (l : list CronSpec) :
  rejection rejects l = None -> accepted rejects l = l.
Proof.
  induction l as [|s l IH]; cbn; [done|].
  destruct (rejects s); [discriminate|]. intros H. by rewrite IH.
Qed.

(** The loop over the enabled days starts the tasks of the days up to
    the first expression that is rejected. *)
Lemma scheduleEach_spec scheduleDays l : forall ts jobs,
  scheduleEach rejects scheduleDays l ts jobs
  = (ts ++ (started <$> accepted rejects (omap (daySpec scheduleDays) l)),
     match rejection rejects (omap (daySpec scheduleDays) l) with
     | Some message => Throw message
     | None =>
         Return (jobs ++ seq (length ts)
                           (length (omap (daySpec scheduleDays) l)))
     end).
Proof.
  induction l as [|day l IH]; intros ts jobs; cbn [scheduleEach omap list_omap].
  - cbn [accepted rejection fmap list_fmap length seq]. by rewrite !app_nil_r.
  - destruct (scheduleDays !! day) as [dayConfig|] eqn:E.
    2:{ assert (daySpec scheduleDays day = None) as ->
          by (unfold daySpec; by rewrite E).
        apply IH. }
    assert (daySpec scheduleDays day
            = Some (WeeklyAt (dayToCron_get day) (time dayConfig))) as ->
      by (unfold daySpec; by rewrite E).
    cbn [accepted rejection]. unfold schedule.
    destruct (rejects _); [by rewrite app_nil_r|].
    rewrite IH, length_app. cbn [length seq fmap list_fmap].
    rewrite <- !app_assoc. cbn [app].
    replace (length ts + 1)%nat with (S (length ts)) by lia. reflexivity.
Qed.

Lemma omap_daySpec_enabled scheduleDays l :
  length (omap (daySpec scheduleDays) (List.filter (isEnabled scheduleDays) l))
  = length (List.filter (isEnabled scheduleDays) l).
Proof.
  induction l as [|day l IH]; [reflexivity|]. cbn [List.filter].
  destruct (isEnabled scheduleDays day) eqn:E; [|exact IH].
  cbn [omap list_omap]. unfold isEnabled in E. unfold daySpec at 1.
  destruct (scheduleDays !! day); [|discriminate E].
  cbn [fmap option_fmap option_map length]. by rewrite IH.
Qed.

(** The entries of [dayToCron] are the days of the week in the order of
    [days], and each day finds its own number. *)
Lemma days_dayToCron : days = fst <$> dayToCron.
Proof. reflexivity. Qed.

Lemma dayToCron_get_entries :
  Forall (fun entry => dayToCron_get entry.1 = Some entry.2) dayToCron.
Proof. repeat constructor. Qed.

Lemma weekly_tasks scheduleDays (l : list (jsstring * Z)) :
  Forall (fun entry => dayToCron_get entry.1 = Some entry.2) l ->
  omap (daySpec scheduleDays) (List.filter (isEnabled scheduleDays) (fst <$> l))
  = omap (weeklyTask scheduleDays) l.
Proof.
  induction 1 as [|[day n] l Hn _ IH]; [reflexivity|].
  cbn [fmap list_fmap List.filter omap list_omap fst snd] in *.
  unfold isEnabled at 1, weeklyTask at 1. cbn [fst snd].
  destruct (scheduleDays !! day) as [dayConfig|] eqn:E; [|exact IH].
  destruct (enabled dayConfig); [|exact IH].
  cbn [omap list_omap]. unfold daySpec at 1. rewrite E, Hn.
  cbn [fmap option_fmap option_map list_fmap]. by rewrite <- IH.
Qed.

(** With no task tracked, a call starts the tasks of its plan up to the
    first rejected expression, after the tasks that exist.  It throws at
    that expression, and then tracks nothing; otherwise it tracks the
    first of its tasks. *)
Lemma setupScheduler_untracked settings st :
  cronJob st = None ->
  setupScheduler rejects settings st
  = ({| tasks := tasks st ++ (started <$> accepted rejects (plan settings));
        cronJob := match rejection rejects (plan settings), plan settings with
                   | None, _ :: _ => Some (length (tasks st))
                   | _, _ => None
                   end |},
     match rejection rejects (plan settings) with
     | Some message => Throw message
     | None => Return tt
     end).
Proof.
  intros Hnone. unfold setupScheduler, plan. rewrite Hnone.
  destruct st as [ts job]. cbn [tasks cronJob] in *. subst job.
  destruct (scheduleEnabled settings); cbn [negb]; [|by rewrite app_nil_r].
  destruct (bool_decide (scheduleType settings = Some (js "interval"))).
  { destruct (0 <? scheduleInterval settings)%Z; [|by rewrite app_nil_r].
    unfold schedule. cbn [accepted rejection].
    destruct (rejects _); [by rewrite app_nil_r | reflexivity]. }
  destruct (bool_decide (scheduleType settings = Some (js "days")));
    [|by rewrite app_nil_r].
  destruct (scheduleDays settings) as [scheduleDays|]; [|by rewrite app_nil_r].
  rewrite scheduleEach_spec.
  pose proof (omap_daySpec_enabled scheduleDays days) as Hlen.
  rewrite Hlen. rewrite days_dayToCron in *.
  rewrite weekly_tasks in * by apply dayToCron_get_entries.
  destruct (List.filter (isEnabled scheduleDays) (fst <$> dayToCron))
    as [|day l] eqn:E.
  - destruct (omap (weeklyTask scheduleDays) dayToCron); [|discriminate Hlen].
    cbn. by rewrite app_nil_r.
  - cbn [length Nat.eqb].
    destruct (omap (weeklyTask scheduleDays) dayToCron) as [|s specs];
      [discriminate Hlen|].
    destruct (rejection rejects (s :: specs)); reflexivity.
Qed.

Lemma filter_running_all ts :
  Forall (fun task => running task = true) ts -> List.filter running ts = ts.
Proof.
  induction 1 as [|task ts Hr _ IH]; [reflexivity|].
  cbn [List.filter]. by rewrite Hr, IH.
Qed.

Lemma started_running (l : list CronSpec) :
  Forall (fun task => running task = true) (started <$> l).
Proof. apply Forall_fmap, Forall_forall. done. Qed.

Lemma spec_started (l : list CronSpec) : spec <$> (started <$> l) = l.
Proof. rewrite <- list_fmap_compose. apply list_fmap_id. Qed.

Lemma scheduled_accepted settings :
  scheduled rejects settings = accepted rejects (plan settings).
Proof.
  unfold scheduled, runningSpecs.
  rewrite setupScheduler_untracked by reflexivity. cbn [fst tasks noTasks app].
  by rewrite filter_running_all, spec_started by apply started_running.
Qed.

Lemma threw_rejection settings :
  threw rejects settings
  = match rejection rejects (plan settings) with Some _ => true | None => false end.
Proof.
  unfold threw. rewrite setupScheduler_untracked by reflexivity. cbn [snd].
  by destruct (rejection rejects (plan settings)).
Qed.

Lemma runningSpecs_tracks st pre cur :
  tracks st pre cur ->
  runningSpecs st = (spec <$> List.filter running pre) ++ (spec <$> cur).
Proof.
  intros (Ht & Hr & _). unfold runningSpecs.
  by rewrite Ht, List.filter_app, fmap_app, (filter_running_all cur).
Qed.

Lemma stopFirst_running cur :
  Forall (fun task => running task = true) cur ->
  spec <$> List.filter running (stopFirst cur) = tail (spec <$> cur).
Proof.
  intros Hr. destruct cur as [|task cur]; [reflexivity|].
  cbn [stopFirst List.filter running tail fmap list_fmap].
  apply Forall_cons in Hr as [_ Hr]. by rewrite filter_running_all.
Qed.

(** One call: the tracked task is stopped and the accepted tasks of the
    settings are added.  When the call returns, the first of them is
    tracked; when it throws, none of them is. *)
Lemma setupScheduler_tracks settings st pre cur :
  tracks st pre cur ->
  let new := started <$> accepted rejects (plan settings) in
  tracks (setupScheduler rejects settings st).1
         (pre ++ stopFirst cur ++ (if threw rejects settings then new else []))
         (if threw rejects settings then [] else new).
Proof.
  intros (Ht & Hr & Hj) new. destruct st as [ts job]. cbn [tasks cronJob] in Ht, Hj.
  subst ts job.
  assert (E : setupScheduler rejects settings
                {| tasks := pre ++ cur;
                   cronJob := match cur with
                              | [] => None
                              | _ :: _ => Some (length pre)
                              end |}
              = setupScheduler rejects settings
                  {| tasks := pre ++ stopFirst cur; cronJob := None |}).
  { unfold setupScheduler at 1 2. cbn [cronJob tasks].
    destruct cur as [|task cur]; cbn [stopFirst]; [reflexivity|].
    unfold stop. replace (length pre) with (length pre + 0)%nat by lia.
    rewrite alter_app_r. reflexivity. }
  rewrite E, setupScheduler_untracked by reflexivity. cbn [fst tasks].
  rewrite threw_rejection. subst new.
  destruct (rejection rejects (plan settings)) as [message|] eqn:Hrej.
  - split; [by rewrite app_nil_r, <- !app_assoc|]. split; [constructor|].
    reflexivity.
  - rewrite accepted_length_rejection by done.
    split; [by rewrite !app_nil_r, <- !app_assoc|].
    split; [apply started_running|]. cbn [cronJob].
    destruct (plan settings); cbn [fmap list_fmap]; [reflexivity|].
    by rewrite !app_nil_r.
Qed.

Lemma applySettings_cons s0 saved st :
  applySettings rejects (s0 :: saved) st
  = applySettings rejects saved (setupScheduler rejects s0 st).1.
Proof. reflexivity. Qed.

Lemma tracked_running settings pre cur :
  Forall (fun task => running task = true) cur ->
  let new := started <$> accepted rejects (plan settings) in
  (spec <$> List.filter running
              (pre ++ stopFirst cur ++ (if threw rejects settings then new else [])))
  ++ (spec <$> (if threw rejects settings then [] else new))
  = (spec <$> List.filter running pre) ++ tail (spec <$> cur)
    ++ scheduled rejects settings.
Proof.
  intros Hr new. subst new.
  rewrite !List.filter_app, !fmap_app, stopFirst_running by done.
  rewrite scheduled_accepted.
  destruct (threw rejects settings).
  - rewrite (filter_running_all (started <$> _)) by apply started_running.
    rewrite spec_started. cbn [fmap list_fmap].
    by rewrite ?app_nil_r, <- ?app_assoc.
  - cbn [List.filter fmap list_fmap].
    by rewrite spec_started, ?app_nil_r, <- ?app_assoc.
Qed.

Lemma tracked_leak settings pre cur :
  Forall (fun task => running task = true) cur ->
  let new := started <$> accepted rejects (plan settings) in
  (spec <$> List.filter running
              (pre ++ stopFirst cur ++ (if threw rejects settings then new else [])))
  ++ tail (spec <$> (if threw rejects settings then [] else new))
  = (spec <$> List.filter running pre) ++ tail (spec <$> cur)
    ++ (if threw rejects settings then scheduled rejects settings
        else tail (scheduled rejects settings)).
Proof.
  intros Hr new. subst new.
  rewrite !List.filter_app, !fmap_app, stopFirst_running by done.
  rewrite scheduled_accepted.
  destruct (threw rejects settings).
  - rewrite (filter_running_all (started <$> _)) by apply started_running.
    rewrite spec_started. cbn [fmap list_fmap tail].
    by rewrite ?app_nil_r, <- ?app_assoc.
  - cbn [List.filter fmap list_fmap].
    by rewrite spec_started, ?app_nil_r, <- ?app_assoc.
Qed.

Lemma applySettings_running settings saved : forall st pre cur,
  tracks st pre cur ->
  runningSpecs (applySettings rejects (saved ++ [settings]) st)
  = (spec <$> List.filter running pre) ++ tail (spec <$> cur) ++
    concat ((fun s => if threw rejects s then scheduled rejects s
                      else tail (scheduled rejects s)) <$> saved)
    ++ scheduled rejects settings.
Proof.
  induction saved as [|s0 saved IH]; intros st pre cur Htr.
  - cbn [app]. rewrite applySettings_cons. cbn [applySettings foldl].
    cbn [fmap list_fmap concat app].
    rewrite (runningSpecs_tracks _ _ _ (setupScheduler_tracks settings _ _ _ Htr)).
    destruct Htr as (_ & Hr & _). by apply tracked_running.
  - rewrite <- app_comm_cons, applySettings_cons.
    rewrite (IH _ _ _ (setupScheduler_tracks s0 _ _ _ Htr)).
    destruct Htr as (_ & Hr & _).
    rewrite fmap_cons. cbn [concat].
    rewrite !app_assoc. do 2 f_equal. rewrite <- !app_assoc.
    by apply tracked_leak.
Qed.

End SchedulerFacts.

(** X21. One call of [setupScheduler] hands the expressions of the
    settings to the cron library one after the other and stops at the
    first that the library rejects: the tasks running after the call are
    those of the expressions before it.  With the schedule by days the
    expressions are one for every enabled day, in the order of the week
    from Sunday, each with the day number of cron for that day and the
    time of the day's entry; a day that is disabled or has no entry gets
    none, and entries under other keys are ignored.  With the scheduler
    disabled, or an interval that is not positive, there is none.  The
    call throws the error of the rejected expression, and then
    [cronJob] stays [null] although tasks may have been started;
    otherwise [cronJob] is the first task of the call. *)
Theorem setupScheduler_schedules (rejects : Scheduler.CronSpec -> option jsstring)
    (settings : Scheduler.Settings) :
  let expressions :=
    if negb (Scheduler.scheduleEnabled settings) then []
    else if bool_decide (Scheduler.scheduleType settings = Some (js "interval")) then
      if (0 <? Scheduler.scheduleInterval settings)%Z
      then [Scheduler.EveryMinutes (Scheduler.scheduleInterval settings)]
      else []
    else if bool_decide (Scheduler.scheduleType settings = Some (js "days")) then
      match Scheduler.scheduleDays settings with
      | Some scheduleDays => omap (weeklyTask scheduleDays) Scheduler.dayToCron
      | None => []
      end
    else [] in
  Scheduler.setupScheduler rejects settings noTasks
  = ({| Scheduler.tasks := started <$> accepted rejects expressions;
        Scheduler.cronJob :=
          match rejection rejects expressions, expressions with
          | None, _ :: _ => Some 0%nat
          | _, _ => None
          end |},
     match rejection rejects expressions with
     | Some message => Throw message
     | None => Return tt
     end)
  /\ scheduled rejects settings = accepted rejects expressions
  /\ (rejection rejects expressions = None ->
      scheduled rejects settings = expressions).
Proof.
  cbv zeta. fold (plan settings).
  split; [|split].
  - by rewrite setupScheduler_untracked.
  - apply scheduled_accepted.
  - intros H. rewrite scheduled_accepted. by apply accepted_length_rejection.
Qed.

Lemma setupScheduler_schedules_witness :
  scheduled acceptsAll (mondayAndFriday true)
  = [Scheduler.WeeklyAt (Some 1%Z) (js "09:30");
     Scheduler.WeeklyAt (Some 5%Z) (js "18:00")].
Proof.
  pose proof (setupScheduler_schedules acceptsAll (mondayAndFriday true)) as H.
  cbv zeta in H. destruct H as (_ & _ & H).
  rewrite H by (vm_compute; reflexivity). vm_compute. reflexivity.
Defined.

(** X22. Every call of [setupScheduler] stops the first task of the
    call before it when that call returned, and no other task; the
    tasks of a call that threw are never stopped.  After the settings
    have been applied one after the other from the start of the
    application, the running tasks are those of the last call together
    with, of every earlier call, all its tasks but the first when it
    returned, and all its tasks when it threw.  So disabling a schedule
    of several days leaves the tasks of all but the first enabled day
    running. *)
Theorem setupScheduler_stops_first_only
    (rejects : Scheduler.CronSpec -> option jsstring)
    (saved : list Scheduler.Settings) (settings : Scheduler.Settings) :
  runningSpecs (applySettings rejects (saved ++ [settings]) noTasks)
  = concat ((fun s => if threw rejects s then scheduled rejects s
                      else tail (scheduled rejects s)) <$> saved)
    ++ scheduled rejects settings.
Proof.
  apply (applySettings_running rejects settings saved noTasks [] []).
  split; [reflexivity|]. split; [constructor | reflexivity].
Qed.

(** The schedule of Monday and Friday, then disabled: the task of
    Friday keeps running. *)
Example disabled_scheduler_still_runs :
  runningSpecs (applySettings acceptsAll
                  [mondayAndFriday true; mondayAndFriday false] noTasks)
  = [Scheduler.WeeklyAt (Some 5%Z) (js "18:00")].
Proof. vm_compute. reflexivity. Qed.

(** The schedule of Monday at 09:30 and Friday at 24:00 with a library
    that rejects the hour 24: the call throws after it has started the
    task of Monday, which no later call stops. *)
Example rejected_day_leaves_tasks (message : jsstring) :
  (Scheduler.setupScheduler (rejectsHour24 message)
     (mondayAndFridayAt "24:00" true) noTasks).2 = Throw message
  /\ Scheduler.cronJob
       (Scheduler.setupScheduler (rejectsHour24 message)
          (mondayAndFridayAt "24:00" true) noTasks).1 = None
  /\ runningSpecs (applySettings (rejectsHour24 message)
                     [mondayAndFridayAt "24:00" true;
                      mondayAndFridayAt "24:00" false] noTasks)
     = [Scheduler.WeeklyAt (Some 1%Z) (js "09:30")].
Proof. vm_compute. repeat split; reflexivity. Qed.
(** ** The desktop application *)

Section DesktopFacts.

Import Scheduler Desktop.

Implicit Types (app : App) (w : World) (dir : gmap jsstring FileContent).

Lemma resultOf_withHeadless headless accountConfig :
  resultOf (withHeadless headless accountConfig) = resultOf accountConfig.
Proof. reflexivity. Qed.

Lemma sent_send status app :
  sent (send status app)
  = if mainWindow app then sent app ++ [status] else sent app.
Proof. reflexivity. Qed.

(** A check that starts always completes. *)
Lemma runCheck_started accounts now writeFails envs app :
  isChecking app = false -> accounts <> [] ->
  let app' := runCheck (AccountsArray accounts) now writeFails envs app in
  isChecking app' = false
  /\ mainWindow app' = mainWindow app
  /\ sent app'
     = (if mainWindow app
        then sent app ++ [statusRunning; statusCompleted (resultOf <$> accounts)]
        else sent app)
  /\ exists headless,
       world app' = (runAll (withHeadless headless <$> accounts) envs (world app)).1.
Proof.
  intros Hidle Hne. unfold runCheck. rewrite Hidle.
  destruct accounts as [|a accounts]; [done|]. clear Hne.
  cbn [length Nat.eqb loadAccountsConfig].
  set (headless := match headlessMode _ with Some h => h | None => true end).
  pose proof (runAll_spec (withHeadless headless <$> a :: accounts) envs (world app))
    as [Hres _].
  cbn [send isChecking mainWindow settingsFile sent world].
  destruct (runAll (withHeadless headless <$> a :: accounts) envs (world app))
    as [w results] eqn:E.
  cbn [snd] in Hres. subst results.
  cbn [send isChecking mainWindow settingsFile sent world].
  split; [reflexivity|]. split; [reflexivity|]. split.
  - rewrite <- list_fmap_compose.
    destruct (mainWindow app); [|reflexivity].
    rewrite <- app_assoc. reflexivity.
  - exists headless. by rewrite E.
Qed.

Lemma runCheck_rejected accountsFile now writeFails envs app :
  isChecking app = false ->
  (forall accounts, accountsFile = AccountsArray accounts -> accounts = []) ->
  runCheck accountsFile now writeFails envs app
  = send (match accountsFile with
          | AccountsMissing | AccountsUnparsable _ => statusUnreadable
          | _ => statusNoAccounts
          end) app.
Proof.
  intros Hidle Hnone. unfold runCheck. rewrite Hidle.
  destruct accountsFile as [| | |accounts]; try reflexivity.
  by rewrite (Hnone accounts eq_refl).
Qed.

(** The reading of the settings. *)
Lemma loadSettings_idem file :
  loadSettings (SettingsObject (loadSettings file)) = loadSettings file.
Proof.
  destruct file as [| |settings]; try reflexivity.
  cbn [loadSettings scheduleEnabled scheduleType scheduleInterval scheduleDays
       lastCheck headlessMode].
  f_equal.
  - destruct (truthy_opt (scheduleType settings)) eqn:E; [by rewrite E|reflexivity].
  - by destruct (scheduleDays settings).
  - by destruct (headlessMode settings).
Qed.

(** The files of the last checks. *)
Lemma elem_of_lastChecks dir f :
  f ∈ lastChecks dir -> is_Some (dir !! f) /\ endsWith f (js ".json") = true.
Proof.
  unfold lastChecks. intros Hin. apply elem_of_take in Hin as (i & Hin & _).
  apply list_elem_of_lookup_2 in Hin.
  apply elem_of_reverse, elem_of_sort, list_elem_of_filter in Hin as [He Hin].
  split; [by apply elem_of_readdirSync | exact He].
Qed.

Lemma lastChecks_greater dir f g :
  f ∈ lastChecks dir ->
  is_Some (dir !! g) -> endsWith g (js ".json") = true -> g ∉ lastChecks dir ->
  leb g f = true.
Proof.
  unfold lastChecks.
  set (l := filter (fun f => endsWith f (js ".json") = true) (readdirSync dir)).
  intros Hf Hg He Hng.
  assert (Hs : StronglySorted (flip (fun a b : jsstring => leb a b = true))
                 (reverse (sort l))).
  { apply Sorted_StronglySorted.
    - intros a b c Hab Hbc. unfold flip in *. by eapply leb_trans.
    - apply Sorted_reverse, Sorted_merge_sort. intros a b. apply leb_total. }
  rewrite <- (take_drop 10 (reverse (sort l))) in Hs.
  apply (StronglySorted_app_1_elem_of _ _ _ f g) in Hs; [exact Hs | exact Hf |].
  assert (Hin : g ∈ reverse (sort l)).
  { apply elem_of_reverse, elem_of_sort, list_elem_of_filter.
    split; [exact He | by apply elem_of_readdirSync]. }
  rewrite <- (take_drop 10 (reverse (sort l))) in Hin.
  apply elem_of_app in Hin as [Hin|Hin]; [by destruct Hng | exact Hin].
Qed.

Lemma filter_json_data (l : list jsstring) :
  (forall g, g ∈ l -> endsWith g (js ".json") = true -> isDataFile g = true) ->
  filter (fun f => endsWith f (js ".json") = true) l
  = filter (fun f => isDataFile f = true) l.
Proof.
  induction l as [|x l IH]; intros H; [reflexivity|].
  assert (IH' := IH (fun g Hg => H g (list_elem_of_further _ _ _ Hg))).
  destruct (endsWith x (js ".json")) eqn:E.
  - rewrite !filter_cons_True; [by rewrite IH' | |done].
    apply H; [apply list_elem_of_here | done].
  - rewrite !filter_cons_False; [exact IH' | |by rewrite E].
    unfold isDataFile. change FILE_SUFFIX with (js ".json"). rewrite E.
    by rewrite andb_false_r.
Qed.

Lemma lastChecks_head dir :
  (forall g, is_Some (dir !! g) -> endsWith g (js ".json") = true ->
             isDataFile g = true) ->
  head (lastChecks dir) = getLatestDataFile (Some dir).
Proof.
  intros Hdata. unfold lastChecks, getLatestDataFile.
  rewrite filter_json_data.
  - by destruct (reverse _).
  - intros g Hg. apply Hdata. by apply elem_of_readdirSync.
Qed.

(** The inner loop reads all the files or throws at the first that
    does not parse or holds [null]. *)
Lemma readLogs_spec (host : LogsHost) account dir files : forall logs,
  (forall f, f ∈ files -> is_Some (dir !! f)) ->
  match readLogs host account dir files logs with
  | Return logs' =>
      logs' = logs ++ omap (logEntryOf account dir) files
      /\ forall f, f ∈ files ->
           exists content, dir !! f = Some (Parsed content)
                           /\ content <> Value.JNull
  | Throw message =>
      exists f, f ∈ files
        /\ (dir !! f = Some (Unparsable message)
            \/ (dir !! f = Some (Parsed Value.JNull)
                /\ message = logsTypeError host))
  end.
Proof.
  induction files as [|file files IH]; intros logs Hex; cbn [readLogs].
  - split; [by rewrite app_nil_r|]. intros f Hf. by apply elem_of_nil in Hf.
  - destruct (Hex file (list_elem_of_here _ _)) as [content Hc].
    unfold readSnapshot. rewrite Hc. destruct content as [content|message].
    2:{ exists file. split; [apply list_elem_of_here | by left]. }
    assert (Hnull : content = Value.JNull \/ content <> Value.JNull)
      by (destruct content; (by left) || (by right)).
    destruct Hnull as [->|Hnull].
    { exists file. split; [apply list_elem_of_here | by right]. }
    assert (Hm : forall key, Value.member key (Some content)
                             = Some (Value.get key content))
      by (intros key; by destruct content).
    rewrite !Hm.
    assert (He : logEntryOf account dir file
                 = Some {| logAccount := account; logFilename := file;
                           logTimestamp := Value.get (js "timestamp") content;
                           logUrl := Value.get (js "url") content |})
      by (unfold logEntryOf; rewrite Hc; by destruct content).
    specialize (IH (logs ++ [{| logAccount := account; logFilename := file;
                                logTimestamp := Value.get (js "timestamp") content;
                                logUrl := Value.get (js "url") content |}])
                   (fun f Hf => Hex f (list_elem_of_further _ _ _ Hf))).
    destruct (readLogs host account dir files _) as [logs'|message].
    + destruct IH as [-> Hall]. split.
      * cbn [omap list_omap]. rewrite He. by rewrite <- app_assoc.
      * intros f Hf. apply elem_of_cons in Hf as [->|Hf]; eauto.
    + destruct IH as (f & Hf & Hu). exists f. split; [|exact Hu].
      by apply list_elem_of_further.
Qed.

Lemma getLogsFrom_spec (host : LogsHost) (accounts : list (jsstring * gmap jsstring FileContent)) :
  forall logs,
  match getLogsFrom host accounts logs with
  | Return logs' =>
      logs' = logs ++ concat (accountLogs <$> accounts)
      /\ forall account dir f, (account, dir) ∈ accounts -> f ∈ lastChecks dir ->
            exists content, dir !! f = Some (Parsed content)
                            /\ content <> Value.JNull
  | Throw message =>
      exists account dir f,
        (account, dir) ∈ accounts /\ f ∈ lastChecks dir
        /\ (dir !! f = Some (Unparsable message)
            \/ (dir !! f = Some (Parsed Value.JNull)
                /\ message = logsTypeError host))
  end.
Proof.
  induction accounts as [|[account dir] accounts IH]; intros logs;
    cbn [getLogsFrom].
  - split; [by rewrite app_nil_r|]. intros account dir f Hin.
    by apply elem_of_nil in Hin.
  - pose proof (readLogs_spec host account dir (lastChecks dir) logs
                  (fun f Hf => proj1 (elem_of_lastChecks dir f Hf))) as Hr.
    destruct (readLogs host account dir (lastChecks dir) logs) as [logs1|message].
    + destruct Hr as [-> Hall]. specialize (IH (logs ++ omap (logEntryOf account dir)
                                                        (lastChecks dir))).
      destruct (getLogsFrom host accounts _) as [logs'|message].
      * destruct IH as [-> Hrest]. split.
        -- rewrite fmap_cons. cbn [concat]. unfold accountLogs at 2. cbn [fst snd].
           by rewrite <- app_assoc.
        -- intros account' dir' f Hin Hf.
           apply elem_of_cons in Hin as [Heq|Hin]; [|by eapply Hrest].
           injection Heq as -> ->. by apply Hall.
      * destruct IH as (account' & dir' & f & Hin & Hf & Hu).
        exists account', dir', f. split; [by apply list_elem_of_further | done].
    + destruct Hr as (f & Hf & Hu). exists account, dir, f.
      split; [apply list_elem_of_here | done].
Qed.

Lemma runCheck_settingsFile accounts now writeFails envs app :
  isChecking app = false -> accounts <> [] ->
  settingsFile (runCheck (AccountsArray accounts) now writeFails envs app)
  = saveSettings writeFails
      {| scheduleEnabled := scheduleEnabled (loadSettings (settingsFile app));
         scheduleType := scheduleType (loadSettings (settingsFile app));
         scheduleInterval := scheduleInterval (loadSettings (settingsFile app));
         scheduleDays := scheduleDays (loadSettings (settingsFile app));
         lastCheck := Some (Legacy.toISOString now);
         headlessMode := headlessMode (loadSettings (settingsFile app)) |}
      (settingsFile app).
Proof.
  intros Hidle Hne. unfold runCheck. rewrite Hidle.
  destruct accounts as [|a accounts]; [done|]. clear Hne.
  cbn [length Nat.eqb loadAccountsConfig].
  cbn [send isChecking mainWindow settingsFile sent world].
  destruct (runAll _ envs (world app)) as [w results]. reflexivity.
Qed.

End DesktopFacts.

(** X24. A call of [runCheck] while no check is in progress sends one
    of three sequences to the window: the error that the accounts cannot
    be read, the error that no account is configured, or [running]
    followed by [completed].  A check that has started always completes:
    the message that the check failed is never sent, the results depend
    on the configurations alone, whatever happened during the checks,
    and the flag [isChecking] is off again at the end. *)
Theorem runCheck_outcomes (accountsFile : AccountsFile) (now : Date.Date)
    (writeFails : bool) (envs : nat -> RunEnv) (app : Desktop.App) :
  Desktop.isChecking app = false ->
  Desktop.mainWindow app = true ->
  let app' := Desktop.runCheck accountsFile now writeFails envs app in
  Desktop.isChecking app' = false
  /\ exists statuses,
       Desktop.sent app' = Desktop.sent app ++ statuses
       /\ match accountsFile with
          | AccountsMissing | AccountsUnparsable _ => statuses = [statusUnreadable]
          | AccountsNotArray | AccountsArray [] => statuses = [statusNoAccounts]
          | AccountsArray accounts =>
              statuses = [statusRunning; statusCompleted (resultOf <$> accounts)]
          end.
Proof.
  intros Hidle Hwin app'.
  destruct accountsFile as [|message| |[|a accounts]].
  1-4: subst app'; rewrite runCheck_rejected;
    [|done|intros accounts'; try discriminate; by intros [= <-]];
    (split; [exact Hidle|]); eexists; rewrite sent_send, Hwin;
    (split; reflexivity).
  destruct (runCheck_started (a :: accounts) now writeFails envs app Hidle)
    as (Hc & _ & Hs & _); [done|].
  split; [exact Hc|]. eexists. fold app' in Hs. rewrite Hs, Hwin.
  split; reflexivity.
Qed.

Lemma runCheck_outcomes_witness :
  Desktop.sent (Desktop.runCheck (AccountsArray threeAccounts)
                  (warsawClock 1761438600000) false secondFetchFails
                  (idleApp emptyWorld))
  = [statusRunning; statusCompleted (resultOf <$> threeAccounts)].
Proof.
  destruct (runCheck_outcomes (AccountsArray threeAccounts)
              (warsawClock 1761438600000) false secondFetchFails
              (idleApp emptyWorld) eq_refl eq_refl) as (_ & statuses & Hs & ->).
  exact Hs.
Defined.

(** X25. A check that starts stores the time of its start in the
    settings file, and changes nothing else of what [loadSettings]
    answers: the defaults that [runCheck] writes back are those that
    [loadSettings] would supply anyway, also when the file was missing
    or could not be read. *)
Theorem runCheck_settings (accounts : list AccountConfig) (now : Date.Date)
    (envs : nat -> RunEnv) (app : Desktop.App) :
  Desktop.isChecking app = false -> accounts <> [] ->
  let before := Desktop.loadSettings (Desktop.settingsFile app) in
  let after :=
    Desktop.loadSettings
      (Desktop.settingsFile
         (Desktop.runCheck (AccountsArray accounts) now false envs app)) in
  Scheduler.lastCheck after = Some (Legacy.toISOString now)
  /\ Scheduler.scheduleEnabled after = Scheduler.scheduleEnabled before
  /\ Scheduler.scheduleType after = Scheduler.scheduleType before
  /\ Scheduler.scheduleInterval after = Scheduler.scheduleInterval before
  /\ Scheduler.scheduleDays after = Scheduler.scheduleDays before
  /\ Scheduler.headlessMode after = Scheduler.headlessMode before
  /\ (forall rejects, scheduled rejects after = scheduled rejects before).
Proof.
  intros Hidle Hne. cbv zeta.
  rewrite runCheck_settingsFile by done. cbn [Desktop.saveSettings].
  pose proof (loadSettings_idem (Desktop.settingsFile app)) as Hidem.
  set (before := Desktop.loadSettings (Desktop.settingsFile app)) in *.
  clearbody before.
  pose proof (f_equal Scheduler.scheduleType Hidem) as Ht.
  pose proof (f_equal Scheduler.scheduleDays Hidem) as Hd.
  pose proof (f_equal Scheduler.headlessMode Hidem) as Hh.
  cbn [Desktop.loadSettings Scheduler.scheduleEnabled Scheduler.scheduleType
       Scheduler.scheduleInterval Scheduler.scheduleDays Scheduler.lastCheck
       Scheduler.headlessMode] in Ht, Hd, Hh |- *.
  assert (Hsched : forall s1 s2,
            Scheduler.scheduleEnabled s1 = Scheduler.scheduleEnabled s2 ->
            Scheduler.scheduleType s1 = Scheduler.scheduleType s2 ->
            Scheduler.scheduleInterval s1 = Scheduler.scheduleInterval s2 ->
            Scheduler.scheduleDays s1 = Scheduler.scheduleDays s2 ->
            forall rejects, scheduled rejects s1 = scheduled rejects s2).
  { intros s1 s2 H1 H2 H3 H4 rejects. rewrite !scheduled_accepted. unfold plan.
    by rewrite H1, H2, H3, H4. }
  repeat split; try done. by apply Hsched.
Qed.

Lemma runCheck_settings_witness :
  Scheduler.lastCheck
    (Desktop.loadSettings
       (Desktop.settingsFile
          (Desktop.runCheck (AccountsArray threeAccounts)
             (warsawClock 1761438600000) false secondFetchFails
             (idleApp emptyWorld))))
  = Some (Legacy.toISOString (warsawClock 1761438600000)).
Proof.
  apply (runCheck_settings threeAccounts (warsawClock 1761438600000)
           secondFetchFails (idleApp emptyWorld)); [reflexivity | discriminate].
Defined.

(** X26. For every account [get-logs] reads at most ten files, all of
    them [.json] files of the directory of the account, and they are
    those with the greatest names: every other [.json] file of the
    directory is below each of them in the order of [sort()]. *)
Theorem lastChecks_ten_greatest (dir : gmap jsstring FileContent) :
  (length (Desktop.lastChecks dir) <= 10)%nat
  /\ (forall f, f ∈ Desktop.lastChecks dir ->
        is_Some (dir !! f) /\ endsWith f (js ".json") = true)
  /\ (forall f g, f ∈ Desktop.lastChecks dir ->
        is_Some (dir !! g) -> endsWith g (js ".json") = true ->
        g ∉ Desktop.lastChecks dir -> leb g f = true).
Proof.
  split; [|split].
  - unfold Desktop.lastChecks. rewrite length_take. lia.
  - apply elem_of_lastChecks.
  - apply lastChecks_greater.
Qed.

(** X27. When the directory of an account holds no [.json] file but
    data files, as after writes of [saveData] alone, the first file that
    [get-logs] reads for the account is the file that
    [getLatestDataFile] answers, and none when that answers [null]. *)
Theorem lastChecks_head_is_latest (dir : gmap jsstring FileContent) :
  (forall g, is_Some (dir !! g) -> endsWith g (js ".json") = true ->
             isDataFile g = true) ->
  head (Desktop.lastChecks dir) = getLatestDataFile (Some dir).
Proof. apply lastChecks_head. Qed.

Lemma lastChecks_head_is_latest_witness :
  head (Desktop.lastChecks
          {[ saveFilename (warsawClock 1761438600000) := JsonOf olderSnapshot ]})
  = getLatestDataFile
      (Some {[ saveFilename (warsawClock 1761438600000) := JsonOf olderSnapshot ]}).
Proof.
  apply lastChecks_head_is_latest. intros g Hg _.
  destruct (decide (saveFilename (warsawClock 1761438600000) = g)) as [<-|Hne].
  - apply isDataFile_saveFilename.
  - rewrite lookup_singleton_ne in Hg by done. by destruct Hg.
Defined.

(** X28. The reply of [get-logs] is all or nothing.  It succeeds when
    every file among the last checks of every account parses to a value
    other than [null], and then lists, account after account in the
    order of the listing of the data directory, the entries of those
    files, greatest name first, each with what its file has as time
    stamp and address; it fails as a whole, with no entry of any
    account, when one of those files does not parse, with the message
    of the parser, or holds [null], with the message of the read of a
    property of [null].  Files beyond the last ten of an account are
    not read.  The entry of the file of a snapshot has the time stamp
    and the address of the snapshot. *)
Theorem getLogs_all_or_nothing (host : Desktop.LogsHost) (w : World) :
  match Desktop.getLogs host w with
  | Return logs =>
      logs = concat (accountLogs <$> map_to_list (dataDirs w))
      /\ forall account dir f,
           dataDirs w !! account = Some dir -> f ∈ Desktop.lastChecks dir ->
           exists content, dir !! f = Some (Parsed content)
                           /\ content <> Value.JNull
  | Throw message =>
      exists account dir f,
        dataDirs w !! account = Some dir /\ f ∈ Desktop.lastChecks dir
        /\ (dir !! f = Some (Unparsable message)
            \/ (dir !! f = Some (Parsed Value.JNull)
                /\ message = Desktop.logsTypeError host))
  end
  /\ forall account dir file data,
       logEntryOf account (<[file := JsonOf data]> dir) file
       = Some {| Desktop.logAccount := account;
                 Desktop.logFilename := file;
                 Desktop.logTimestamp := Some (Value.JString (timestamp data));
                 Desktop.logUrl := Some (Value.JString (url data)) |}.
Proof.
  split.
  2:{ intros account dir file data. unfold logEntryOf.
      rewrite lookup_insert_eq. unfold JsonOf.
      rewrite <- get_timestamp_toJson, <- get_url_toJson. reflexivity. }
  unfold Desktop.getLogs.
  pose proof (getLogsFrom_spec host (map_to_list (dataDirs w)) []) as H.
  destruct (Desktop.getLogsFrom host (map_to_list (dataDirs w)) []) as [logs|message].
  - destruct H as [-> Hall]. split; [reflexivity|].
    intros account dir f Hd Hf.
    apply (Hall account dir f); [by apply elem_of_map_to_list | exact Hf].
  - destruct H as (account & dir & f & Hin & Hf & Hu).
    exists account, dir, f. split; [|done].
    by apply elem_of_map_to_list in Hin.
Qed.

(** A directory whose only file holds [null]: [get-logs] fails with
    the message of the read of a property of [null]. *)
Example getLogs_null_file (host : Desktop.LogsHost) :
  Desktop.getLogs host
    {| dataDirs := {[ js "jan@example.com" :=
                        {[ js "notes.json" := Parsed Value.JNull ]} ]};
       notifications := []; emails := [] |}
  = Throw (Desktop.logsTypeError host).
Proof. vm_compute. reflexivity. Qed.
